(** * Suggestion mode for a ProseMirror editor: accept/reject resolver and
      tracking transformer

    The sources embedded here are [src/acceptReject.ts] (span locator and
    accept/reject commands) and the plugin that follows it in the same file
    ([appendTransaction] and the plugin state).

    The document, its marks, steps, position maps and transactions belong to
    the editing library, which is an external collaborator of the code.  They
    are modelled on documents that consist of one textblock: a sequence of
    text nodes, each with its mark set.  Positions count UTF-16 code units. *)

From Stdlib Require Import ZArith Lia Ascii String List Bool.
From stdpp Require Import base option list strings gmap.

Local Open Scope string_scope.
Local Open Scope list_scope.
Local Open Scope Z_scope.

(** ** Marks *)

(** The attributes given to the two suggestion marks:
    [{ username, data }]; [data] is a [Record<string, any>], its values kept
    as opaque strings. *)
Record Attrs := { attr_username : string; attr_data : gmap string string }.

(** A mark instance.  [ident] stands for the identity of the JavaScript
    object: two marks are the same object when they are equal as records,
    and two objects with the same type and attributes differ in [ident].
    [type_name] is [mark.type.name]. *)
Record Mark := { ident : nat; type_name : string; attrs : Attrs }.

#[global] Instance Attrs_eq_dec : EqDecision Attrs.
Proof. solve_decision. Defined.

#[global] Instance Mark_eq_dec : EqDecision Mark.
Proof. solve_decision. Defined.

(** What [Mark.eq] compares: type and attributes, not identity. *)
Definition markSpec (m : Mark) : string * Attrs := (type_name m, attrs m).

Definition mark_eq (a b : Mark) : bool := bool_decide (markSpec a = markSpec b).

(** [Mark.sameSet] *)
Definition sameSet (a b : list Mark) : bool :=
  bool_decide (markSpec <$> a = markSpec <$> b).

(** [mark.isInSet(set)] *)
Definition isInSet (m : Mark) (set : list Mark) : bool := existsb (mark_eq m) set.

(** [mark.removeFromSet(set)], applied until no equal mark is left. *)
Definition removeFromSet (m : Mark) (set : list Mark) : list Mark :=
  filter (fun o => mark_eq m o = false) set.

(** ** Documents *)

(** A text node: its UTF-16 code units and its marks. *)
Record Node := { text : list N; marks : list Mark }.

Definition nodeSize (n : Node) : Z := Z.of_nat (length (text n)).

(** [fragment.size] *)
Definition contentSize (content : list Node) : Z :=
  fold_right (fun n acc => nodeSize n + acc) 0 content.

(** One position of the document: a code unit with the marks of its node. *)
Abbreviation Cell := (N * list Mark)%type.

Definition cells (content : list Node) : list Cell :=
  flat_map (fun n => map (fun u => (u, marks n)) (text n)) content.

(** Text nodes are rebuilt from cells; neighbours with the same markup are
    joined.  Marks that are equal may still be different objects: the joined
    node carries here the objects of the later neighbour, as the library does
    when it joins after a deletion or inside a marked slice; at the two ends
    of a flat slice it puts in, the library keeps those of the earlier one.
    No statement below depends on which of the two the joined node keeps. *)
Fixpoint group (cs : list Cell) : list Node :=
  match cs with
  | [] => []
  | (u, ms) :: rest =>
      match group rest with
      | n :: ns =>
          if sameSet ms (marks n)
          then {| text := u :: text n; marks := marks n |} :: ns
          else {| text := [u]; marks := ms |} :: n :: ns
      | [] => [{| text := [u]; marks := ms |}]
      end
  end.

(** No empty text nodes (the library refuses to create them). *)
Definition validDoc (content : list Node) : bool :=
  forallb (fun n => 0 <? nodeSize n) content.

(** [fragment.nodesBetween(from, to, f)]: the nodes handed to [f], with their
    start positions, in order.  Text nodes have no content to descend into.
    The walk goes on while [pos < to]: with [to] beyond the size of the
    content the library reads past the last child and throws
    ([nodesBetween_run] below), where this walk ends.  What is said about
    the result of a walk is said for [to <= contentSize content]. *)
Fixpoint nodesBetween_at (pos : Z) (content : list Node) (from to : Z)
  : list (Node * Z) :=
  match content with
  | [] => []
  | child :: rest =>
      if pos <? to then
        let end_ := pos + nodeSize child in
        (if from <? end_ then [(child, pos)] else [])
          ++ nodesBetween_at end_ rest from to
      else []
  end.

Definition nodesBetween (content : list Node) (from to : Z) : list (Node * Z) :=
  nodesBetween_at 0 content from to.

(** The same walk with its failure: [None] when the children run out while
    [pos < to] still holds, where the library reads the size of a child that
    is not there. *)
Fixpoint nodesBetween_run (pos : Z) (content : list Node) (from to : Z)
  : option (list (Node * Z)) :=
  if pos <? to then
    match content with
    | [] => None
    | child :: rest =>
        let end_ := pos + nodeSize child in
        match nodesBetween_run end_ rest from to with
        | Some visited =>
            Some ((if from <? end_ then [(child, pos)] else []) ++ visited)
        | None => None
        end
    end
  else Some [].

(** [doc.resolve(pos).marks()] with every mark type inclusive (the default):
    inside a text node its marks, at a boundary the marks of the node before,
    or of the node after when there is none before. *)
Fixpoint marksAt_from (before : option Node) (content : list Node) (pos : Z)
  : list Mark :=
  match content with
  | [] => match before with Some b => marks b | None => [] end
  | n :: rest =>
      if pos <=? 0 then
        match before with Some b => marks b | None => marks n end
      else if pos <? nodeSize n then marks n
      else marksAt_from (Some n) rest (pos - nodeSize n)
  end.

Definition marksAt (content : list Node) (pos : Z) : list Mark :=
  marksAt_from None content pos.

(** [text.slice(a, b)] on a list of code units. *)
Definition sliceList {A} (a b : Z) (l : list A) : list A :=
  drop (Z.to_nat a) (take (Z.to_nat b) l).

(** [fragment.cut(from, to)]: the nodes between two positions, the outer ones
    cut; nothing is joined. *)
Fixpoint cut_at (pos : Z) (content : list Node) (from to : Z) : list Node :=
  match content with
  | [] => []
  | child :: rest =>
      if pos <? to then
        let end_ := pos + nodeSize child in
        (if from <? end_ then
           [if (pos <? from) || (to <? end_)
            then {| text := sliceList (Z.max 0 (from - pos))
                                      (Z.min (nodeSize child) (to - pos))
                                      (text child);
                    marks := marks child |}
            else child]
         else [])
          ++ cut_at end_ rest from to
      else []
  end.

(** [doc.slice(from, to, false)]; a slice of one textblock is closed on both
    sides and is kept as its content. *)
Definition docSlice (content : list Node) (from to : Z) : list Node :=
  if from <? to then cut_at 0 content from to else [].

(** [fragment.textBetween(from, to, blockSeparator, leafText)]: with text
    nodes only, neither separator is ever used. *)
Definition textBetween (content : list Node) (from to : Z) : list N :=
  flat_map (fun '(node, pos) =>
              sliceList (Z.max from pos - pos) (to - pos) (text node))
           (nodesBetween content from to).

(** The characters matched by [/\s/]. *)
Definition isWhitespace (u : N) : bool :=
  ((9 <=? u) && (u <=? 13) || (u =? 32) || (u =? 160) || (u =? 5760)
   || (8192 <=? u) && (u <=? 8202) || (u =? 8232) || (u =? 8233)
   || (u =? 8239) || (u =? 8287) || (u =? 12288) || (u =? 65279))%N.

(** [removedText.replace(/\s/g, '')] *)
Definition stripWhitespace (s : list N) : list N :=
  filter (fun u => isWhitespace u = false) s.

(** ** Steps and position maps *)

Inductive Step :=
| ReplaceStep (from to : Z) (slice : list Node)
| ReplaceAroundStep (from to gapFrom gapTo : Z) (slice : list Node) (insert : Z)
| AddMarkStep (from to : Z) (mark : Mark)
| RemoveMarkStep (from to : Z) (mark : Mark).

Definition step_from (s : Step) : Z :=
  match s with
  | ReplaceStep f _ _ | ReplaceAroundStep f _ _ _ _ _
  | AddMarkStep f _ _ | RemoveMarkStep f _ _ => f
  end.

Definition step_to (s : Step) : Z :=
  match s with
  | ReplaceStep _ t _ | ReplaceAroundStep _ t _ _ _ _
  | AddMarkStep _ t _ | RemoveMarkStep _ t _ => t
  end.

(** A [StepMap]: its ranges as triples [(start, oldSize, newSize)]. *)
Abbreviation StepMap := (list (Z * Z * Z)).

(** [step.getMap()] *)
Definition getMap (s : Step) : StepMap :=
  match s with
  | ReplaceStep f t sl => [(f, t - f, contentSize sl)]
  | ReplaceAroundStep f t gf gt sl ins =>
      [(f, gf - f, ins); (gt, t - gt, contentSize sl - ins)]
  | AddMarkStep _ _ _ | RemoveMarkStep _ _ _ => []
  end.

(** [stepMap.map(pos, assoc)], the loop of [_map] with [simple] set. *)
Fixpoint stepMap_map_at (ranges : StepMap) (diff pos assoc : Z) : Z :=
  match ranges with
  | [] => pos + diff
  | (start, oldSize, newSize) :: rest =>
      if pos <? start then pos + diff
      else
        let end_ := start + oldSize in
        if pos <=? end_ then
          let side :=
            if oldSize =? 0 then assoc
            else if pos =? start then -1
            else if pos =? end_ then 1
            else assoc in
          start + diff + (if side <? 0 then 0 else newSize)
        else stepMap_map_at rest (diff + newSize - oldSize) pos assoc
  end.

Definition stepMap_map (m : StepMap) (pos : Z) : Z := stepMap_map_at m 0 pos 1.

(** [mapping.map(pos)]: every map in turn, with the default [assoc = 1]. *)
Definition mapping_map (maps : list StepMap) (pos : Z) : Z :=
  fold_left (fun p m => stepMap_map m p) maps pos.

(** ** Session and transaction metadata *)

(** [SuggestionModePluginState] *)
Record PluginState := {
  inSuggestionMode : bool;
  username : string;
  data : gmap string string
}.

(** The object stored under [suggestionTransactionKey] (or
    [suggestionPluginKey]); any of its properties may be absent. *)
Record TransactionMeta := {
  tm_inSuggestionMode : option bool;
  tm_username : option string;
  tm_data : option (gmap string string);
  tm_skipSuggestionOperation : option bool
}.

(** [{ skipSuggestionOperation: true }] *)
Definition skipMeta : TransactionMeta :=
  {| tm_inSuggestionMode := None; tm_username := None; tm_data := None;
     tm_skipSuggestionOperation := Some true |}.

(** ** Transactions *)

Record Transaction := {
  tr_doc : list Node;
  tr_steps : list Step;
  tr_mapping : list StepMap;
  tr_history : bool;                          (* getMeta('history$') *)
  tr_meta : option TransactionMeta;           (* getMeta(suggestionTransactionKey) *)
  tr_pluginMeta : option TransactionMeta;     (* getMeta(suggestionPluginKey) *)
  tr_selection : option Z                     (* a selection set explicitly *)
}.

Record EditorState := {
  doc : list Node;
  selection_from : Z;
  plugin : PluginState
}.

(** [state.tr] *)
Definition state_tr (state : EditorState) : Transaction :=
  {| tr_doc := doc state; tr_steps := []; tr_mapping := [];
     tr_history := false; tr_meta := None; tr_pluginMeta := None;
     tr_selection := None |}.

(** [tr.setMeta(suggestionTransactionKey, value)] *)
Definition setMeta (value : TransactionMeta) (tr : Transaction) : Transaction :=
  {| tr_doc := tr_doc tr; tr_steps := tr_steps tr; tr_mapping := tr_mapping tr;
     tr_history := tr_history tr; tr_meta := Some value;
     tr_pluginMeta := tr_pluginMeta tr; tr_selection := tr_selection tr |}.

(** [tr.setSelection(TextSelection.create(tr.doc, pos))] *)
Definition setSelection (pos : Z) (tr : Transaction) : Transaction :=
  {| tr_doc := tr_doc tr; tr_steps := tr_steps tr; tr_mapping := tr_mapping tr;
     tr_history := tr_history tr; tr_meta := tr_meta tr;
     tr_pluginMeta := tr_pluginMeta tr; tr_selection := Some pos |}.

(** [i] lies in [[from, to)]. *)
Definition inRange (from to : Z) (i : nat) : bool :=
  (from <=? Z.of_nat i) && (Z.of_nat i <? to).

Definition mapRange {A} (from to : Z) (g : A -> A) (l : list A) : list A :=
  imap (fun i x => if inRange from to i then g x else x) l.

Definition replaceCells {A} (from to : Z) (ins l : list A) : list A :=
  take (Z.to_nat from) l ++ ins ++ drop (Z.to_nat to) l.

(** The external collaborators that are not part of the library's core:
    the order of mark types in the schema, and the helper of
    [./helpers/nodePosition], which takes a resolved position (here the
    document and the position). *)
Class Host := {
  rank : string -> nat;
  findNonStartingPos : list Node -> Z -> Z
}.

(** The calls of the library that take positions throw when a position lies
    outside the document.  The definitions below are total: they cut such a
    range to the document instead.  What the statements below say about
    such a call concerns positions inside the document. *)
Section Library.
Context `{Host}.

(** [mark.addToSet(set)].  A mark type excludes itself and nothing else (the
    schema default): a mark of the same type is replaced.  The result is
    ordered by the rank of the mark types. *)
Fixpoint addToSet_loop (this : Mark) (set : list Mark) (placed : bool)
  : list Mark :=
  match set with
  | [] => if placed then [] else [this]
  | other :: rest =>
      if String.eqb (type_name this) (type_name other)
      then addToSet_loop this rest placed
      else if negb placed && (rank (type_name this) <? rank (type_name other))%nat
      then this :: other :: addToSet_loop this rest true
      else other :: addToSet_loop this rest placed
  end.

Definition addToSet (this : Mark) (set : list Mark) : list Mark :=
  if isInSet this set then set else addToSet_loop this set false.

(** [step.apply(doc)] on the cells of the document. *)
Definition applyStepCells (s : Step) (cs : list Cell) : list Cell :=
  match s with
  | ReplaceStep f t sl => replaceCells f t (cells sl) cs
  | ReplaceAroundStep f t gf gt sl ins =>
      replaceCells f t
        (take (Z.to_nat ins) (cells sl)
           ++ sliceList gf gt cs
           ++ drop (Z.to_nat ins) (cells sl)) cs
  | AddMarkStep f t m =>
      mapRange f t (fun c => (c.1, addToSet m c.2)) cs
  | RemoveMarkStep f t m =>
      mapRange f t (fun c => (c.1, removeFromSet m c.2)) cs
  end.

Definition applyStep (s : Step) (content : list Node) : list Node :=
  group (applyStepCells s (cells content)).

(** [tr.step(step)].  A selection that was set explicitly is mapped through
    the steps that follow it (the getter of [tr.selection]). *)
Definition step (s : Step) (tr : Transaction) : Transaction :=
  {| tr_doc := applyStep s (tr_doc tr);
     tr_steps := tr_steps tr ++ [s];
     tr_mapping := tr_mapping tr ++ [getMap s];
     tr_history := tr_history tr; tr_meta := tr_meta tr;
     tr_pluginMeta := tr_pluginMeta tr;
     tr_selection := stepMap_map (getMap s) <$> tr_selection tr |}.

(** [tr.replace(from, to, slice)]; no step when there is nothing to do. *)
Definition replace (from to : Z) (slice : list Node) (tr : Transaction)
  : Transaction :=
  if (from =? to) && (contentSize slice =? 0) then tr
  else step (ReplaceStep from to slice) tr.

(** [tr.delete(from, to)] *)
Definition delete (from to : Z) (tr : Transaction) : Transaction :=
  replace from to [] tr.

(** [tr.addMark(from, to, mark)]: a step only when some position of the range
    lacks the mark.  (The library splits the range into runs; one step over
    the range has the same effect.) *)
Definition addMark (from to : Z) (mark : Mark) (tr : Transaction) : Transaction :=
  if existsb (fun c => negb (isInSet mark c.2))
             (sliceList from to (cells (tr_doc tr)))
  then step (AddMarkStep from to mark) tr
  else tr.

(** The marks of a given type worn in a range, each (up to [Mark.eq]) once. *)
Fixpoint distinctMarks (seen : list Mark) (ms : list Mark) : list Mark :=
  match ms with
  | [] => []
  | m :: rest =>
      if isInSet m seen then distinctMarks seen rest
      else m :: distinctMarks (m :: seen) rest
  end.

Definition marksOfType (name : string) (from to : Z) (content : list Node)
  : list Mark :=
  distinctMarks []
    (filter (fun m => String.eqb (type_name m) name = true)
            (flat_map snd (sliceList from to (cells content)))).

(** [tr.removeMark(from, to, markType)]: one [RemoveMarkStep] for every mark
    of that type found in the range. *)
Definition removeMark (from to : Z) (name : string) (tr : Transaction)
  : Transaction :=
  fold_left (fun tr m => step (RemoveMarkStep from to m) tr)
            (marksOfType name from to (tr_doc tr)) tr.

End Library.

(** ** acceptReject.ts *)

Record MarkedRange := { mr_mark : Mark; mr_from : Z; mr_to : Z }.

(** A [Map<Mark, {from, to}>]: keyed by the mark object, iterated in
    insertion order. *)
Abbreviation MarkMap := (list (Mark * (Z * Z))).

Fixpoint mapGet (k : Mark) (m : MarkMap) : option (Z * Z) :=
  match m with
  | [] => None
  | (k', v) :: rest => if bool_decide (k' = k) then Some v else mapGet k rest
  end.

Fixpoint mapSet (k : Mark) (v : Z * Z) (m : MarkMap) : MarkMap :=
  match m with
  | [] => [(k, v)]
  | (k', v') :: rest =>
      if bool_decide (k' = k) then (k', v) :: rest
      else (k', v') :: mapSet k v rest
  end.

Definition isSuggestionName (name : string) : bool :=
  String.eqb name "suggestion_insert" || String.eqb name "suggestion_delete".

(** The body of [node.marks.forEach] for a node at [pos] of size [size]. *)
Definition noteMark (pos size : Z) (markRanges : MarkMap) (mark : Mark) : MarkMap :=
  if isSuggestionName (type_name mark) then
    let range := default (pos, pos) (mapGet mark markRanges) in
    let range := (Z.min range.1 pos, Z.max range.2 (pos + size)) in
    mapSet mark range markRanges
  else markRanges.

(** The callback of [nodesBetween], folded over the nodes it is given. *)
Definition collectSuggestions (visited : list (Node * Z)) : MarkMap :=
  fold_left (fun markRanges '(node, pos) =>
               fold_left (noteMark pos (nodeSize node)) (marks node) markRanges)
            visited [].

Definition findSuggestionsInRange (state : EditorState) (from to : Z)
  : list MarkedRange :=
  map (fun '(mark, range) =>
         {| mr_mark := mark; mr_from := range.1; mr_to := range.2 |})
      (collectSuggestions (nodesBetween (doc state) from to)).

Inductive Action := accept | reject.

Definition markToDelete (acceptOrReject : Action) : string :=
  match acceptOrReject with
  | accept => "suggestion_delete"
  | reject => "suggestion_insert"
  end.

Section Commands.
Context `{Host} {World : Type}.

(** The body of [suggestions.forEach]. *)
Definition processSuggestion (acceptOrReject : Action) (tr : Transaction)
  (s : MarkedRange) : Transaction :=
  let adjustedFrom := mapping_map (tr_mapping tr) (mr_from s) in
  let adjustedTo := mapping_map (tr_mapping tr) (mr_to s) in
  if String.eqb (type_name (mr_mark s)) (markToDelete acceptOrReject)
  then delete adjustedFrom adjustedTo tr
  else removeMark adjustedFrom adjustedTo (type_name (mr_mark s)) tr.

(** The transaction built for a non-empty list of suggestions. *)
Definition resolveSuggestions (acceptOrReject : Action) (state : EditorState)
  (suggestions : list MarkedRange) : Transaction :=
  fold_left (processSuggestion acceptOrReject) suggestions
            (setMeta skipMeta (state_tr state)).

(** A command: the state, the optional [dispatch], and the world [dispatch]
    acts on; it returns its boolean and the world it leaves. *)
Definition processSuggestionsInRange (acceptOrReject : Action) (from to : Z)
  (state : EditorState) (dispatch : option (Transaction -> World -> World))
  (w : World) : bool * World :=
  let suggestions := findSuggestionsInRange state from to in
  match suggestions, dispatch with
  | [], _ | _, None => (false, w)
  | _ :: _, Some dispatch =>
      (true, dispatch (resolveSuggestions acceptOrReject state suggestions) w)
  end.

Definition acceptSuggestionsInRange (from to : Z) :=
  processSuggestionsInRange accept from to.

Definition rejectSuggestionsInRange (from to : Z) :=
  processSuggestionsInRange reject from to.

Definition acceptAllSuggestions (state : EditorState)
  (dispatch : option (Transaction -> World -> World)) (w : World) : bool * World :=
  acceptSuggestionsInRange 0 (contentSize (doc state)) state dispatch w.

Definition rejectAllSuggestions (state : EditorState)
  (dispatch : option (Transaction -> World -> World)) (w : World) : bool * World :=
  rejectSuggestionsInRange 0 (contentSize (doc state)) state dispatch w.

End Commands.

(** ** The plugin *)

Definition isReplaceStep (s : Step) : bool :=
  match s with ReplaceStep _ _ _ => true | _ => false end.

Definition isReplaceAroundStep (s : Step) : bool :=
  match s with ReplaceAroundStep _ _ _ _ _ _ => true | _ => false end.

(** [step.slice.size], for the two kinds of step that have a slice. *)
Definition step_sliceSize (s : Step) : Z :=
  match s with
  | ReplaceStep _ _ sl | ReplaceAroundStep _ _ _ _ sl _ => contentSize sl
  | _ => 0
  end.

(** The [meta] object of [appendTransaction]:
    [{...pluginState, ...transactionMeta, data: mergedData}]. *)
Record Meta := {
  meta_inSuggestionMode : bool;
  meta_username : string;
  meta_data : gmap string string;
  meta_skipSuggestionOperation : bool
}.

Definition mergeMeta (pluginState : PluginState)
  (transactionMeta : option TransactionMeta) : Meta :=
  let mergedData :=
    default ∅ (transactionMeta ≫= tm_data) ∪ data pluginState in
  {| meta_inSuggestionMode :=
       default (inSuggestionMode pluginState)
               (transactionMeta ≫= tm_inSuggestionMode);
     meta_username :=
       default (username pluginState) (transactionMeta ≫= tm_username);
     meta_data := mergedData;
     meta_skipSuggestionOperation :=
       default false (transactionMeta ≫= tm_skipSuggestionOperation) |}.

(** [schema.marks.<name>.create({ username, data })]: a new object, whose
    identity is the next unused one. *)
Definition createMark (fresh : nat) (name : string) (meta : Meta) : Mark :=
  {| ident := fresh; type_name := name;
     attrs := {| attr_username := meta_username meta;
                 attr_data := meta_data meta |} |}.

(** The variables of [appendTransaction] that its loops update, and the next
    unused object identity. *)
Record Loop := {
  tr : Transaction;
  changed : bool;
  intermediateTr : list Node;       (* intermediateTr.doc *)
  lastStep : option Step;
  fresh : nat
}.

Definition forEachIndexed {A S} (f : nat -> A -> S -> S) (l : list A) (s : S) : S :=
  fold_left (fun s '(i, x) => f i x s) (imap pair l) s.

(** [transactions.slice(trIndex).reduce(...)]: the maps of the current step
    and of every step after it. *)
Definition mapToNewDocPos (transactions : list Transaction)
  (trIndex stepIndex : nat) : list StepMap :=
  concat (imap (fun i t =>
                  map getMap (drop (match i with O => stepIndex | _ => O end)
                                   (tr_steps t)))
               (drop trIndex transactions)).

Section Plugin.
Context `{Host}.

(** [intermediateTr.doc] once [if (lastStep) intermediateTr.step(lastStep)]
    has run. *)
Definition intermediateDoc (l : Loop) : list Node :=
  match lastStep l with
  | Some last => applyStep last (intermediateTr l)
  | None => intermediateTr l
  end.

(** [removedSlice] *)
Definition removedSliceOf (l : Loop) (step_ : Step) : list Node :=
  docSlice (intermediateDoc l) (step_from step_) (step_to step_).

(** [addedSliceSize], after the adjustment for a [ReplaceAroundStep]. *)
Definition addedSliceSizeOf (l : Loop) (step_ : Step) : Z :=
  match step_ with
  | ReplaceAroundStep _ _ gapFrom gapTo sl _ => gapTo - gapFrom + contentSize sl
  | _ =>
      if isReplaceStep step_ then step_sliceSize step_
      else contentSize (removedSliceOf l step_)
  end.

(** [existingSuggestionMark] *)
Definition existingSuggestionMarkOf (l : Loop) (step_ : Step) : option Mark :=
  find (fun m => isSuggestionName (type_name m))
       (marksAt (intermediateDoc l) (step_from step_)).

(** [removedText] *)
Definition removedTextOf (l : Loop) (step_ : Step) : list N :=
  textBetween (removedSliceOf l step_) 0 (contentSize (removedSliceOf l step_)).

(** Where the removed slice is put back: [step.from] through the maps of the
    steps still to come, through the mapping of [tr], and through
    [findNonStartingPos]. *)
Definition reinsertPos (transactions : list Transaction) (trIndex stepIndex : nat)
  (step_ : Step) (tr0 : Transaction) : Z :=
  let from := mapping_map (mapToNewDocPos transactions trIndex stepIndex)
                          (step_from step_) in
  let from := mapping_map (tr_mapping tr0) from in
  findNonStartingPos (tr_doc tr0) from.

(** [isBackspace] *)
Definition isBackspaceOf (newState : EditorState) (step_ : Step) : bool :=
  (isReplaceStep step_ || isReplaceAroundStep step_)
  && (step_sliceSize step_ =? 0)
  && (selection_from newState =? step_from step_).

(** The body of [transaction.steps.forEach]. *)
Definition processStep (newState : EditorState) (meta : Meta)
  (transactions : list Transaction) (trIndex stepIndex : nat) (step_ : Step)
  (l : Loop) : Loop :=
  let removedSlice := removedSliceOf l step_ in
  let addedSliceSize := addedSliceSizeOf l step_ in
  let extraInsertChars := 0 in
  let tr0 := setMeta skipMeta (tr l) in
  let from := step_from step_ in
  let continue_ tr1 changed1 fresh1 :=
    {| tr := tr1; changed := changed1; intermediateTr := intermediateDoc l;
       lastStep := Some step_; fresh := fresh1 |} in
  match existingSuggestionMarkOf l step_ with
  | Some existing =>
      if 1 <? addedSliceSize
      then continue_ (addMark from (from + addedSliceSize) existing tr0)
                     true (fresh l)
      else continue_ tr0 (changed l) (fresh l)
  | None =>
      if (0 <? contentSize removedSlice)
         && (length (stripWhitespace (removedTextOf l step_)) =? 0)%nat
      then continue_ tr0 (changed l) (fresh l)
      else
        let afterRemoval :=
          if 0 <? contentSize removedSlice then
            let isBackspace := isBackspaceOf newState step_ in
            let from := reinsertPos transactions trIndex stepIndex step_ tr0 in
            let tr1 := replace from from removedSlice tr0 in
            let tr2 :=
              addMark from (from + contentSize removedSlice)
                      (createMark (fresh l) "suggestion_delete" meta) tr1 in
            let tr3 := if isBackspace then setSelection from tr2 else tr2 in
            (tr3, true, S (fresh l), from)
          else (tr0, changed l, fresh l, from) in
        let '(tr3, changed3, fresh3, from) := afterRemoval in
        if 0 <? addedSliceSize then
          let addedFrom := from + contentSize removedSlice in
          let addedTo := addedFrom + addedSliceSize + extraInsertChars in
          continue_ (addMark addedFrom addedTo
                             (createMark fresh3 "suggestion_insert" meta) tr3)
                    true (S fresh3)
        else continue_ tr3 changed3 fresh3
  end.

(** The body of [transactions.forEach]. *)
Definition processTransaction (pluginState : PluginState) (newState : EditorState)
  (transactions : list Transaction) (trIndex : nat) (transaction : Transaction)
  (l : Loop) : Loop :=
  if tr_history transaction then l
  else
    let transactionMeta := tr_meta transaction in
    let meta := mergeMeta pluginState transactionMeta in
    if negb (meta_inSuggestionMode meta) then l
    else if meta_skipSuggestionOperation meta then l
    else
      forEachIndexed (processStep newState meta transactions trIndex)
                     (tr_steps transaction) l.

(** The loop of [appendTransaction], from the state it starts in. *)
Definition appendLoop (transactions : list Transaction)
  (oldState newState : EditorState) (fresh0 : nat) : Loop :=
  forEachIndexed (processTransaction (plugin oldState) newState transactions)
                 transactions
                 {| tr := state_tr newState; changed := false;
                    intermediateTr := doc oldState; lastStep := None;
                    fresh := fresh0 |}.

(** [appendTransaction]: [changed ? tr : null], and the next unused identity. *)
Definition appendTransaction (transactions : list Transaction)
  (oldState newState : EditorState) (fresh0 : nat) : option Transaction * nat :=
  let l := appendLoop transactions oldState newState fresh0 in
  (if changed l then Some (tr l) else None, fresh l).

(** [state.apply] of the plugin: [{...value, ...meta, data}].  Of the
    properties of [meta], the three that the state declares are kept. *)
Definition pluginApply (t : Transaction) (value : PluginState) : PluginState :=
  match tr_pluginMeta t with
  | Some meta =>
      {| inSuggestionMode := default (inSuggestionMode value) (tm_inSuggestionMode meta);
         username := default (username value) (tm_username meta);
         data := default ∅ (tm_data meta) ∪ data value |}
  | None => value
  end.

(** ** The editor around the plugin *)

(** An editor: its state and the next unused object identity. *)
Record Editor := { ed_state : EditorState; ed_fresh : nat }.

(** [state.apply(tr)] without the plugin hooks: the document of the
    transaction, the selection it set or the old one mapped, and the plugin
    state field. *)
Definition applyPlain (t : Transaction) (state : EditorState) : EditorState :=
  {| doc := tr_doc t;
     selection_from :=
       match tr_selection t with
       | Some p => p
       | None => mapping_map (tr_mapping t) (selection_from state)
       end;
     plugin := pluginApply t (plugin state) |}.

(** [view.dispatch(tr)]: the transaction is applied, the plugin may append
    one of its own, which is applied too.  (The appended transaction carries
    the skip flag, so a further round appends nothing.) *)
Definition dispatchTransaction (t : Transaction) (e : Editor) : Editor :=
  let newState := applyPlain t (ed_state e) in
  match appendTransaction [t] (ed_state e) newState (ed_fresh e) with
  | (Some appended, fresh1) =>
      {| ed_state := applyPlain appended newState; ed_fresh := fresh1 |}
  | (None, fresh1) => {| ed_state := newState; ed_fresh := fresh1 |}
  end.

(** [tr.insertText(text, pos)] on [state.tr], as the editor does for typed
    input: the text takes the marks active at the position, and the caret
    moves behind it. *)
Definition insertText (txt : list N) (pos : Z) (state : EditorState) : Transaction :=
  match txt with
  | [] => state_tr state
  | _ =>
      setSelection (pos + Z.of_nat (length txt))
        (step (ReplaceStep pos pos
                 [{| text := txt; marks := marksAt (doc state) pos |}])
              (state_tr state))
  end.

(** Typing [txt] at [pos]. *)
Definition typeText (txt : list N) (pos : Z) (e : Editor) : Editor :=
  dispatchTransaction (insertText txt pos (ed_state e)) e.

(** Deleting the range [[from, to)]: [tr.delete(from, to)] on [state.tr],
    dispatched. *)
Definition deleteText (from to : Z) (e : Editor) : Editor :=
  dispatchTransaction (delete from to (state_tr (ed_state e))) e.

(** Replacing the range [[from, to)] by a slice (typing or pasting over a
    selection): [tr.replace(from, to, slice)] on [state.tr], dispatched. *)
Definition replaceText (from to : Z) (slice : list Node) (e : Editor) : Editor :=
  dispatchTransaction (replace from to slice (state_tr (ed_state e))) e.

(** Running a command of [acceptReject.ts] in the editor, with the editor's
    own dispatch or with none. *)
Definition runCommand
  (command : EditorState -> option (Transaction -> Editor -> Editor) ->
             Editor -> bool * Editor)
  (withDispatch : bool) (e : Editor) : bool * Editor :=
  command (ed_state e)
          (if withDispatch then Some dispatchTransaction else None) e.

End Plugin.

(** The options of [suggestionModePlugin] that the plugin state is made
    from; each may be absent. *)
Record SuggestionModePluginOptions := {
  opt_inSuggestionMode : option bool;
  opt_username : option string;
  opt_data : option (gmap string string)
}.

(** [state.init] of the plugin.  [x || d] takes [d] when [x] is absent and
    also when it is falsy: [false], or the empty string. *)
Definition init (options : SuggestionModePluginOptions) : PluginState :=
  {| inSuggestionMode :=
       match opt_inSuggestionMode options with
       | Some true => true
       | _ => false
       end;
     username :=
       match opt_username options with
       | Some u => if String.eqb u "" then "Anonymous" else u
       | None => "Anonymous"
       end;
     data := default ∅ (opt_data options) |}.

(** Code units of a string literal (for examples). *)
Definition units (s : string) : list N :=
  map (fun a => N_of_ascii a) (list_ascii_of_string s).

(** ** Notions used to state the properties *)

(** A host for concrete runs: mark types ordered by the length of their
    name, and positions left where they are. *)
Definition plainHost : Host :=
  {| rank := fun s => String.length s; findNonStartingPos := fun _ p => p |}.

(** The marks met by the span locator, each with the start and the size of
    the node that wears it, in the order of the walk. *)
Definition markEvents (visited : list (Node * Z)) : list (Mark * Z * Z) :=
  flat_map (fun '(node, pos) => map (fun m => (m, pos, nodeSize node)) (marks node))
           visited.

(** What the locator does with one of them. *)
Definition noteEvent (markRanges : MarkMap) (e : Mark * Z * Z) : MarkMap :=
  noteMark e.1.2 e.2 markRanges e.1.1.

(** What the table of the locator holds once the marks [evs] have been met:
    one entry per suggestion mark among them, from the least start to the
    greatest end of the nodes that wear it. *)
Record LocatorInv (evs : list (Mark * Z * Z)) (acc : MarkMap) : Prop := {
  inv_nodup : NoDup acc.*1;
  inv_complete : forall m pos size,
    (m, pos, size) ∈ evs -> isSuggestionName (type_name m) = true -> m ∈ acc.*1;
  inv_sound : forall m f t,
    (m, (f, t)) ∈ acc ->
    isSuggestionName (type_name m) = true
    /\ (exists size, (m, f, size) ∈ evs)
    /\ (exists pos size, (m, pos, size) ∈ evs /\ t = pos + size)
    /\ (forall pos size, (m, pos, size) ∈ evs -> f <= pos /\ pos + size <= t)
}.

(** A position as it can be observed: code unit, and type and attributes of
    each mark, the identity of the mark objects forgotten. *)
Abbreviation VCell := (N * list (string * Attrs))%type.

Definition viewCell (c : Cell) : VCell := (c.1, markSpec <$> c.2).

(** The content of a document, position by position. *)
Definition view (content : list Node) : list VCell := viewCell <$> cells content.

(** The marks of one type taken off a position. *)
Definition stripType (name : string) (v : VCell) : VCell :=
  (v.1, filter (fun s => s.1 <> name) v.2).

(** A span of the given type covers position [p]. *)
Definition covers (name : string) (spans : list MarkedRange) (p : nat) : bool :=
  existsb (fun s => String.eqb (type_name (mr_mark s)) name
                    && inRange (mr_from s) (mr_to s) p) spans.

(** Where position [p] of the original document lies once the spans have
    been resolved: the number of positions before it that were not removed. *)
Definition translate (a : Action) (spans : list MarkedRange) (p : Z) : Z :=
  Z.of_nat (length (filter (fun q => covers (markToDelete a) spans q = false)
                           (seq 0 (Z.to_nat p)))).

(** What resolving the spans leaves of the position [p] that held [c]. *)
Definition resolvedCell (a : Action) (spans : list MarkedRange) (p : nat)
  (c : VCell) : option VCell :=
  if covers (markToDelete a) spans p then None
  else Some (c.1, filter (fun s => covers s.1 spans p = false) c.2).

(** The positions still there among slots that are either removed ([None])
    or kept. *)
Definition surviving {A} (slots : list (option A)) : list A := omap id slots.

Definition resolvedSlots (a : Action) (spans : list MarkedRange)
  (v : list VCell) : list (option VCell) :=
  imap (resolvedCell a spans) v.

(** The document that resolving the spans leaves. *)
Definition resolvedView (a : Action) (spans : list MarkedRange)
  (v : list VCell) : list VCell :=
  surviving (resolvedSlots a spans v).

(** What one span does to a slot inside its range. *)
Definition slotStep (a : Action) (s : MarkedRange) (o : option VCell)
  : option VCell :=
  if String.eqb (type_name (mr_mark s)) (markToDelete a) then None
  else stripType (type_name (mr_mark s)) <$> o.

(** The transaction under construction agrees with the slots: its document
    shows the surviving positions, and its mapping sends every original
    position to the number of survivors before it. *)
Record ResolverInv (t : Transaction) (slots : list (option VCell)) : Prop := {
  ri_view : view (tr_doc t) = surviving slots;
  ri_map : forall p : nat, (p <= length slots)%nat ->
    mapping_map (tr_mapping t) (Z.of_nat p)
    = Z.of_nat (length (surviving (take p slots)));
  ri_maps : tr_mapping t = getMap <$> tr_steps t
}.

(** Positions in ascending order, none below [bound]. *)
Fixpoint ascending (bound : Z) (ps : list Z) : Prop :=
  match ps with
  | [] => True
  | p :: rest => bound <= p /\ ascending p rest
  end.

(** Where the marks of each suggestion type sit after [[a, b)] was replaced
    under tracking by a slice that ends at [c]: the text put back on
    [[a, b)], the new text on [[b, c)]. *)
Definition pendingRange (a b c : Z) (name : string) : Z * Z :=
  if String.eqb name "suggestion_delete" then (a, b)
  else if String.eqb name "suggestion_insert" then (b, c)
  else (0, 0).

(** The document after the first steps of a transaction. *)
Definition applySteps `{Host} (steps : list Step) (content : list Node) : list Node :=
  fold_left (fun d s => applyStep s d) steps content.

(** The suggestion marks among the marks of a node. *)
Definition suggestionMarks (ms : list Mark) : list Mark :=
  filter (fun m => isSuggestionName (type_name m) = true) ms.

(** No mark of a suggestion type among [ms]. *)
Definition cleanMarks (ms : list Mark) : Prop :=
  forall m, m ∈ ms -> isSuggestionName (type_name m) = false.

(** No mark of a suggestion type on any of the cells. *)
Definition cleanCells (cs : list Cell) : Prop :=
  forall c, c ∈ cs -> cleanMarks c.2.

(** No pending mark in the whole document. *)
Definition noSuggestions (content : list Node) : Prop :=
  forall n, n ∈ content -> cleanMarks (marks n).

(** No pending mark is active at position [p], nor worn by the positions
    just before and just after it. *)
Definition cleanAround (content : list Node) (p : Z) : Prop :=
  cleanMarks (marksAt content p)
  /\ forall (i : nat) c, cells content !! i = Some c ->
       p - 1 <= Z.of_nat i <= p -> cleanMarks c.2.

(** [cleanMarks] and [noSuggestions] as tests that can be run. *)
Definition cleanMarksb (ms : list Mark) : bool :=
  forallb (fun m => negb (isSuggestionName (type_name m))) ms.

Definition noSuggestionsb (content : list Node) : bool :=
  forallb (fun n => cleanMarksb (marks n)) content.

(** The mark the transformer creates for an insertion made in editor [e]
    (with no suggestion meta on the transaction). *)
Definition insertMarkOf (e : Editor) : Mark :=
  createMark (ed_fresh e) "suggestion_insert" (mergeMeta (plugin (ed_state e)) None).

(** Text typed at [p] and given the mark [m] has the markup of the character
    that follows it: that character wears the marks active at [p] together
    with a mark equal to [m]. *)
Definition joinsNext `{Host} (content : list Node) (p : Z) (m : Mark) : bool :=
  match cells content !! Z.to_nat p with
  | Some c => sameSet (addToSet m (marksAt content p)) c.2
  | None => false
  end.

(** A step that only puts a pending-insert mark on a range. *)
Definition isInsertMarkStep (s : Step) : bool :=
  match s with
  | AddMarkStep _ _ m => String.eqb (type_name m) "suggestion_insert"
  | _ => false
  end.

(** The spans lie inside a document of [n] positions. *)
Definition spansWithin (n : Z) (spans : list MarkedRange) : Prop :=
  Forall (fun s => 0 <= mr_from s /\ mr_from s <= mr_to s /\ mr_to s <= n) spans.

(** The text of a document. *)
Definition docText (content : list Node) : list N := map fst (cells content).

(** ** Sample data *)

Definition alice : PluginState :=
  {| inSuggestionMode := true; username := "alice"; data := ∅ |}.

Definition plain (s : string) : Node := {| text := units s; marks := [] |}.

Definition sampleMark (i : nat) (name who : string) : Mark :=
  {| ident := i; type_name := name;
     attrs := {| attr_username := who; attr_data := ∅ |} |}.

Definition stateOf (content : list Node) (session : PluginState) : EditorState :=
  {| doc := content; selection_from := 0; plugin := session |}.

(** A document with a pending insertion and a pending deletion. *)
Definition pendingDoc : list Node :=
  [ plain "x";
    {| text := units "ab"; marks := [sampleMark 0 "suggestion_insert" "alice"] |};
    {| text := units "c"; marks := [sampleMark 1 "suggestion_delete" "alice"] |};
    plain "y" ].

Definition editorOf (content : list Node) (session : PluginState) (next : nat)
  : Editor :=
  {| ed_state := stateOf content session; ed_fresh := next |}.

(** A [dispatch] that only records the transaction it is given. *)
Definition record (t : Transaction) (w : list Transaction) : list Transaction :=
  t :: w.

(** A session with tracking switched off. *)
Definition offSession : PluginState :=
  {| inSuggestionMode := false; username := "alice"; data := ∅ |}.

(** Suggestion meta that sets one property only. *)
Definition forceMeta : TransactionMeta :=
  {| tm_inSuggestionMode := Some true; tm_username := None; tm_data := None;
     tm_skipSuggestionOperation := None |}.


(** "xy", and a transaction that inserts "a" between the two letters and
    asks for tracking itself. *)
Definition xyState (session : PluginState) : EditorState :=
  stateOf [plain "xy"] session.

Definition forcedInsert : Transaction :=
  setMeta forceMeta
    (step (H:=plainHost) (ReplaceStep 1 1 [plain "a"]) (state_tr (xyState offSession))).


(** The same deletion with no suggestion meta, and the deletion of the blank
    of "x y". *)
Definition plainDelete : Transaction :=
  step (H:=plainHost) (ReplaceStep 0 1 []) (state_tr (xyState alice)).


(** A session whose data hold two keys, and suggestion meta that names
    another author and gives one of the keys another value; a transaction
    with that meta that deletes the "x" of "xy", and one that types "a"
    between the two letters. *)
Definition carol : PluginState :=
  {| inSuggestionMode := true; username := "carol";
     data := {[ "colour" := "red"; "team" := "docs" ]} |}.

Definition danMeta : TransactionMeta :=
  {| tm_inSuggestionMode := None; tm_username := Some "dan";
     tm_data := Some {[ "colour" := "blue" ]};
     tm_skipSuggestionOperation := None |}.


Definition danInsert : Transaction :=
  setMeta danMeta
    (step (H:=plainHost) (ReplaceStep 1 1 [plain "a"]) (state_tr (xyState carol))).

(** The state in which [appendTransaction] starts its loops. *)
Definition startLoop (oldState newState : EditorState) (next : nat) : Loop :=
  {| tr := state_tr newState; changed := false; intermediateTr := doc oldState;
     lastStep := None; fresh := next |}.

(** "x", a pending insertion "ab", "y". *)
Definition insertedMiddle : list Node :=
  [ plain "x";
    {| text := units "ab"; marks := [sampleMark 0 "suggestion_insert" "alice"] |};
    plain "y" ].

(** "a" followed by a pending insertion "bd". *)
Definition insertedDoc : list Node :=
  [ plain "a";
    {| text := units "bd"; marks := [sampleMark 0 "suggestion_insert" "alice"] |} ].

(** "abc" followed by a pending insertion "de", and a transaction of two
    steps: "XY" is pasted between "d" and "e", then "zzz" in front of
    everything. *)
Definition pendingTail : list Node :=
  [ plain "abc";
    {| text := units "de"; marks := [sampleMark 0 "suggestion_insert" "alice"] |} ].

Definition twoSteps : Transaction :=
  step (H:=plainHost) (ReplaceStep 0 0 [plain "zzz"])
    (step (H:=plainHost) (ReplaceStep 4 4 [plain "XY"])
          (state_tr (stateOf pendingTail alice))).

(** "Hello cat world": [cat] wears one pending-delete mark, split over two
    nodes because [at] is also bold. *)
Definition catDoc : list Node :=
  [ plain "Hello ";
    {| text := units "c"; marks := [sampleMark 0 "suggestion_delete" "alice"] |};
    {| text := units "at";
       marks := [sampleMark 1 "bold" ""; sampleMark 0 "suggestion_delete" "alice"] |};
    plain " world" ].


(** * Properties *)

(** ** The span locator *)

Lemma mapGet_None k (m : MarkMap) : mapGet k m = None <-> k ∉ m.*1.
Proof.
  induction m as [|[k' v'] m IH]; simpl.
  - split; [intros _; apply not_elem_of_nil | done].
  - case_bool_decide as Hk.
    + subst. split; [done | intros Hn; exfalso; apply Hn; left].
    + rewrite IH, not_elem_of_cons. intuition congruence.
Qed.

Lemma mapGet_Some k v (m : MarkMap) : mapGet k m = Some v -> (k, v) ∈ m.
Proof.
  induction m as [|[k' v'] m IH]; simpl; [done|].
  case_bool_decide as Hk.
  - intros [= <-]. subst. left.
  - intros Hg. right. auto.
Qed.

Lemma mapGet_elem k v (m : MarkMap) :
  NoDup m.*1 -> (k, v) ∈ m -> mapGet k m = Some v.
Proof.
  induction m as [|[k' v'] m IH]; simpl; intros Hnd Hin.
  - by apply elem_of_nil in Hin.
  - apply NoDup_cons in Hnd as [Hk' Hnd].
    apply elem_of_cons in Hin as [[= -> ->]|Hin].
    + by rewrite bool_decide_eq_true_2.
    + case_bool_decide as Hk; [|auto].
      subst. exfalso. apply Hk'. apply list_elem_of_fmap. by exists (k, v).
Qed.

Lemma mapSet_keys k v (m : MarkMap) :
  (mapSet k v m).*1 = match mapGet k m with Some _ => m.*1 | None => m.*1 ++ [k] end.
Proof.
  induction m as [|[k' v'] m IH]; [done|].
  cbn [mapSet mapGet]. case_bool_decide as Hk; [done|].
  rewrite !fmap_cons, IH. by destruct (mapGet k m).
Qed.

Lemma mapSet_elem k v (m : MarkMap) e :
  NoDup m.*1 ->
  e ∈ mapSet k v m <-> e = (k, v) ∨ (e.1 ≠ k ∧ e ∈ m).
Proof.
  induction m as [|[k' v'] m IH]; intros Hnd.
  - cbn [mapSet]. rewrite list_elem_of_singleton. split; [auto|].
    intros [?|[_ Hin]]; [done|]. by apply elem_of_nil in Hin.
  - rewrite fmap_cons in Hnd. apply NoDup_cons in Hnd as [Hk' Hnd].
    cbn [mapSet]. case_bool_decide as Hk.
    + subst k'. rewrite !elem_of_cons. split.
      * intros [He|Hin]; [by left|]. right. split; [|by right].
        intros Heq. apply Hk'. apply list_elem_of_fmap. exists e. by split.
      * intros [He|[Hne [He|Hin]]]; [by left | | by right].
        subst e. by destruct Hne.
    + rewrite !elem_of_cons, IH by done. split.
      * intros [He|[He|[Hne Hin]]].
        -- subst e. right. split; [done | by left].
        -- by left.
        -- right. split; [done | by right].
      * intros [He|[Hne [He|Hin]]]; [right; by left | by left |].
        right. right. by split.
Qed.

Lemma mapSet_NoDup k v (m : MarkMap) : NoDup m.*1 -> NoDup (mapSet k v m).*1.
Proof.
  intros Hnd. rewrite mapSet_keys.
  destruct (mapGet k m) eqn:Hg; [done|].
  apply NoDup_app. split; [done|]. split; [|apply NoDup_singleton].
  intros x Hx ->%list_elem_of_singleton. by apply mapGet_None in Hg.
Qed.

Lemma collectSuggestions_events visited :
  collectSuggestions visited = fold_left noteEvent (markEvents visited) [].
Proof.
  unfold collectSuggestions. generalize ([] : MarkMap).
  induction visited as [|[node pos] visited IH]; intros acc; [done|].
  cbn [fold_left markEvents flat_map]. rewrite fold_left_app, IH. f_equal.
  generalize (marks node). intros ms. revert acc.
  induction ms as [|m ms IHm]; intros acc; [done|]. cbn. apply IHm.
Qed.

Lemma locator_step evs acc m pos size :
  0 <= size -> LocatorInv evs acc ->
  LocatorInv (evs ++ [(m, pos, size)]) (noteEvent acc (m, pos, size)).
Proof.
  intros Hsize [Hnd Hcomp Hsound]. unfold noteEvent, noteMark. cbn [fst snd].
  destruct (isSuggestionName (type_name m)) eqn:Hsug.
  2:{ split; [done| |].
      - intros m' pos' size' [Hin|Hin%list_elem_of_singleton]%elem_of_app Hs.
        + eauto.
        + congruence.
      - intros m' f t Hin. destruct (Hsound _ _ _ Hin) as (Hs & [sz Hf] & (p & sz' & Ht & ->) & Hb).
        split; [done|]. split; [exists sz; apply elem_of_app; by left|].
        split; [exists p, sz'; split; [apply elem_of_app; by left|done]|].
        intros p' s' [Hin'|Hin'%list_elem_of_singleton]%elem_of_app; [eauto|].
        congruence. }
  destruct (mapGet m acc) as [[f0 t0]|] eqn:Hget; cbn [default fst snd].
  - pose proof (mapGet_Some _ _ _ Hget) as Hold.
    destruct (Hsound _ _ _ Hold) as (_ & [sz0 Hf0] & (p0 & s0 & Ht0 & ->) & Hb0).
    split.
    + by apply mapSet_NoDup.
    + intros m' pos' size' Hin Hs. rewrite mapSet_keys, Hget.
      apply elem_of_app in Hin as [Hin|Hin%list_elem_of_singleton]; [eauto|].
      injection Hin as -> -> ->.
      apply list_elem_of_fmap. by exists (m, (f0, p0 + s0)).
    + intros m' f t Hin. apply mapSet_elem in Hin as [He|[Hne Hin]]; [| |done].
      * injection He as -> -> ->. split; [done|].
        split; [|split].
        -- destruct (Z.min_spec f0 pos) as [[_ ->]|[_ ->]].
           ++ exists sz0. apply elem_of_app. by left.
           ++ exists size. apply elem_of_app. right. by apply list_elem_of_singleton.
        -- destruct (Z.max_spec (p0 + s0) (pos + size)) as [[_ ->]|[_ ->]].
           ++ exists pos, size. split; [|done]. apply elem_of_app. right.
              by apply list_elem_of_singleton.
           ++ exists p0, s0. split; [|done]. apply elem_of_app. by left.
        -- intros p' s' [Hin'|Hin'%list_elem_of_singleton]%elem_of_app.
           ++ destruct (Hb0 _ _ Hin'). lia.
           ++ injection Hin' as -> ->. lia.
      * cbn [fst] in Hne.
        destruct (Hsound _ _ _ Hin) as (Hs & [sz Hf] & (p & sz' & Ht & ->) & Hb).
        split; [done|]. split; [exists sz; apply elem_of_app; by left|].
        split; [exists p, sz'; split; [apply elem_of_app; by left|done]|].
        intros p' s' [Hin'|Hin'%list_elem_of_singleton]%elem_of_app; [eauto|].
        congruence.
  - assert (Hfresh : forall p s, (m, p, s) ∉ evs).
    { intros p s Hin. apply mapGet_None in Hget. apply Hget. eauto. }
    split.
    + by apply mapSet_NoDup.
    + intros m' pos' size' Hin Hs. rewrite mapSet_keys, Hget.
      apply elem_of_app in Hin as [Hin|Hin%list_elem_of_singleton].
      * apply elem_of_app. left. eauto.
      * injection Hin as -> -> ->. apply elem_of_app. right.
        by apply list_elem_of_singleton.
    + intros m' f t Hin. apply mapSet_elem in Hin as [He|[Hne Hin]]; [| |done].
      * injection He as -> -> ->. split; [done|].
        rewrite Z.min_id, Z.max_r by lia.
        split; [exists size; apply elem_of_app; right; by apply list_elem_of_singleton|].
        split; [exists pos, size; split; [|done]; apply elem_of_app; right;
                by apply list_elem_of_singleton|].
        intros p' s' [Hin'|Hin'%list_elem_of_singleton]%elem_of_app.
        -- by apply Hfresh in Hin'.
        -- injection Hin' as -> ->. lia.
      * cbn [fst] in Hne.
        destruct (Hsound _ _ _ Hin) as (Hs & [sz Hf] & (p & sz' & Ht & ->) & Hb).
        split; [done|]. split; [exists sz; apply elem_of_app; by left|].
        split; [exists p, sz'; split; [apply elem_of_app; by left|done]|].
        intros p' s' [Hin'|Hin'%list_elem_of_singleton]%elem_of_app; [eauto|].
        congruence.
Qed.

Lemma markEvents_elem visited m pos size :
  (m, pos, size) ∈ markEvents visited
  <-> exists node, (node, pos) ∈ visited /\ m ∈ marks node /\ size = nodeSize node.
Proof.
  unfold markEvents. rewrite list_elem_of_In, in_flat_map. split.
  - intros ([node p] & Hin & Hm). apply in_map_iff in Hm as (m' & [= -> -> <-] & Hm).
    exists node. by rewrite !list_elem_of_In.
  - intros (node & Hin & Hm & ->). exists (node, pos). split.
    + by apply list_elem_of_In.
    + apply in_map_iff. exists m. split; [done|]. by apply list_elem_of_In.
Qed.

Lemma nodeSize_nonneg n : 0 <= nodeSize n.
Proof. unfold nodeSize. lia. Qed.

Lemma contentSize_nonneg content : 0 <= contentSize content.
Proof.
  induction content as [|n content IH]; [done|].
  change (0 <= nodeSize n + contentSize content).
  pose proof (nodeSize_nonneg n). lia.
Qed.

Lemma locator_invariant visited :
  LocatorInv (markEvents visited) (collectSuggestions visited).
Proof.
  rewrite collectSuggestions_events.
  assert (Hsz : forall e, e ∈ markEvents visited -> 0 <= e.2).
  { intros [[m p] s] (node & _ & _ & ->)%markEvents_elem. apply nodeSize_nonneg. }
  revert Hsz. generalize (markEvents visited). intros evs.
  induction evs as [|[[m p] s] evs IH] using rev_ind; intros Hsz.
  - split; cbn.
    + apply NoDup_nil_2.
    + intros ? ? ? Hin. by apply elem_of_nil in Hin.
    + intros ? ? ? Hin. by apply elem_of_nil in Hin.
  - rewrite fold_left_app. cbn [fold_left]. apply locator_step.
    + apply (Hsz (m, p, s)). apply elem_of_app. right. by apply list_elem_of_singleton.
    + apply IH. intros e He. apply Hsz. apply elem_of_app. by left.
Qed.

Lemma contentSize_cons n content :
  contentSize (n :: content) = nodeSize n + contentSize content.
Proof. done. Qed.

Lemma nodesBetween_at_elem content : forall pos from to node p,
  (node, p) ∈ nodesBetween_at pos content from to
  <-> exists i : nat, content !! i = Some node
        /\ p = pos + contentSize (take i content)
        /\ p < to /\ from < p + nodeSize node.
Proof.
  induction content as [|child rest IH]; intros pos from to node p; cbn [nodesBetween_at].
  - split; [intros Hin; by apply elem_of_nil in Hin|]. by intros (i & Hi & _).
  - destruct (Z.ltb_spec pos to) as [Hlt|Hge].
    + rewrite elem_of_app, IH. split.
      * intros [Hin|(i & Hi & -> & Hto & Hfrom)].
        -- destruct (Z.ltb_spec from (pos + nodeSize child)) as [Hf|Hf];
             [|by apply elem_of_nil in Hin].
           apply list_elem_of_singleton in Hin as [= -> ->].
           exists 0%nat. rewrite take_0. change (contentSize []) with 0.
           split; [done|]. split; [lia|]. split; lia.
        -- exists (S i). rewrite firstn_cons, contentSize_cons.
           split; [done|]. split; [lia|]. split; lia.
      * intros ([|i] & Hi & -> & Hto & Hfrom).
        -- injection Hi as ->. rewrite take_0 in *.
           change (contentSize []) with 0 in *. left.
           destruct (Z.ltb_spec from (pos + nodeSize node)) as [Hf|Hf]; [|lia].
           apply list_elem_of_singleton. f_equal. lia.
        -- rewrite firstn_cons, contentSize_cons in *.
           right. exists i. split; [done|]. split; [lia|]. split; lia.
    + split; [intros Hin; by apply elem_of_nil in Hin|].
      intros (i & Hi & -> & Hto & _). pose proof (contentSize_nonneg (take i (child :: rest))). lia.
Qed.

(** What the span locator returns, in terms of the nodes it walks. *)
Lemma locator_spec (state : EditorState) (from to : Z) :
  let visited := nodesBetween (doc state) from to in
  let found := findSuggestionsInRange state from to in
  (forall node pos,
      (node, pos) ∈ visited
      <-> exists i : nat, doc state !! i = Some node
            /\ pos = contentSize (take i (doc state))
            /\ pos < to /\ from < pos + nodeSize node)
  /\ NoDup (mr_mark <$> found)
  /\ (forall m,
        m ∈ mr_mark <$> found
        <-> isSuggestionName (type_name m) = true
            /\ exists node pos, (node, pos) ∈ visited /\ m ∈ marks node)
  /\ (forall r, r ∈ found ->
        (exists node pos,
            (node, pos) ∈ visited /\ mr_mark r ∈ marks node /\ mr_from r = pos)
        /\ (exists node pos,
              (node, pos) ∈ visited /\ mr_mark r ∈ marks node
              /\ mr_to r = pos + nodeSize node)
        /\ (forall node pos,
              (node, pos) ∈ visited -> mr_mark r ∈ marks node ->
              mr_from r <= pos /\ pos + nodeSize node <= mr_to r)).
Proof.
  intros visited found.
  destruct (locator_invariant visited) as [Hnd Hcomp Hsound].
  assert (Hkeys : mr_mark <$> found = (collectSuggestions visited).*1).
  { unfold found, findSuggestionsInRange. fold visited.
    rewrite <- list_fmap_compose. apply list_fmap_ext. by intros _ [m [f t]] _. }
  assert (Hfound : forall r, r ∈ found ->
            (mr_mark r, (mr_from r, mr_to r)) ∈ collectSuggestions visited).
  { intros r Hr. unfold found, findSuggestionsInRange in Hr. fold visited in Hr.
    apply list_elem_of_fmap in Hr as ([m [f t]] & -> & Hin). done. }
  split; [|split; [|split]].
  - intros node pos. unfold visited, nodesBetween. rewrite nodesBetween_at_elem.
    split; intros (i & ? & ? & ?); exists i; (split; [done|]); (split; [lia|done]).
  - by rewrite Hkeys.
  - intros m. rewrite Hkeys. split.
    + intros ([m' [f t]] & -> & Hin)%list_elem_of_fmap. cbn.
      destruct (Hsound _ _ _ Hin) as (Hs & [sz (node & Hv & Hm & _)%markEvents_elem] & _).
      split; [done|]. by exists node, f.
    + intros (Hs & node & pos & Hv & Hm).
      apply (Hcomp m pos (nodeSize node)); [|done].
      apply markEvents_elem. by exists node.
  - intros r Hr. apply Hfound in Hr.
    destruct (Hsound _ _ _ Hr) as (_ & [sz Hf] & (p & sz' & Ht & Heq) & Hb).
    apply markEvents_elem in Hf as (n1 & Hv1 & Hm1 & _).
    apply markEvents_elem in Ht as (n2 & Hv2 & Hm2 & ->).
    split; [by exists n1, (mr_from r)|]. split; [by exists n2, p|].
    intros node pos Hv Hm. apply (Hb pos (nodeSize node)).
    apply markEvents_elem. by exists node.
Qed.

(** The walk of the library returns exactly when the range ends inside the
    content, and then hands over the nodes of [nodesBetween_at]. *)
Lemma nodesBetween_run_spec (content : list Node) : forall pos from to,
  nodesBetween_run pos content from to
  = if pos + contentSize content <? to then None
    else Some (nodesBetween_at pos content from to).
Proof.
  induction content as [|child rest IH]; intros pos from to.
  - cbn [nodesBetween_run nodesBetween_at]. change (contentSize []) with 0.
    rewrite Z.add_0_r. by destruct (pos <? to).
  - cbn [nodesBetween_run nodesBetween_at]. rewrite contentSize_cons.
    pose proof (nodeSize_nonneg child). pose proof (contentSize_nonneg rest).
    destruct (Z.ltb_spec pos to) as [Hlt|Hge].
    + rewrite IH. rewrite Z.add_assoc. by destruct (_ <? to).
    + by destruct (Z.ltb_spec (pos + (nodeSize child + contentSize rest)) to); [lia|].
Qed.

Lemma nodesBetween_run_inside (content : list Node) (from to : Z) :
  to <= contentSize content ->
  nodesBetween_run 0 content from to = Some (nodesBetween content from to).
Proof.
  intros Hin. rewrite nodesBetween_run_spec. unfold nodesBetween.
  by destruct (Z.ltb_spec (0 + contentSize content) to); [lia|].
Qed.

Lemma nodesBetween_run_outside (content : list Node) (from to : Z) :
  contentSize content < to -> nodesBetween_run 0 content from to = None.
Proof.
  intros Hout. rewrite nodesBetween_run_spec.
  by destruct (Z.ltb_spec (0 + contentSize content) to); [|lia].
Qed.

(** On "xy" a walk up to position 3 runs past the last child. *)
Example nodesBetween_run_past_end :
  nodesBetween_run 0 [plain "xy"] 0 3 = None
  /\ nodesBetween_run 0 [plain "xy"] 0 2 = Some [(plain "xy", 0)].
Proof. split; reflexivity. Qed.

(** The locator returns nothing exactly when no node it visits wears a
    suggestion mark. *)
Lemma locator_empty (state : EditorState) (from to : Z) :
  findSuggestionsInRange state from to = []
  <-> forall (i : nat) node m,
        doc state !! i = Some node ->
        contentSize (take i (doc state)) < to ->
        from < contentSize (take i (doc state)) + nodeSize node ->
        m ∈ marks node -> isSuggestionName (type_name m) = false.
Proof.
  destruct (locator_spec state from to) as (Hvis & _ & Hfound & _).
  split.
  - intros Hnone i node m Hi Hlt Hgt Hm.
    destruct (isSuggestionName (type_name m)) eqn:Hsug; [exfalso|done].
    assert (Hin : m ∈ mr_mark <$> findSuggestionsInRange state from to).
    { apply Hfound. split; [done|].
      exists node, (contentSize (take i (doc state))). split; [|done].
      apply Hvis. by exists i. }
    rewrite Hnone in Hin. by apply elem_of_nil in Hin.
  - intros Hclean.
    destruct (findSuggestionsInRange state from to) as [|r rest] eqn:Hspans; [done|].
    exfalso.
    assert (Hin : mr_mark r ∈ mr_mark <$> r :: rest) by (cbn; left).
    apply Hfound in Hin as (Hsug & node & pos & Hnode & Hm).
    apply Hvis in Hnode as (i & Hi & -> & Hlt & Hgt).
    by rewrite (Hclean i node (mr_mark r)) in Hsug.
Qed.

(** C2. For a range that ends inside the document, the span locator returns
    one entry per distinct suggestion mark found on the nodes that overlap
    the range; the entry reaches from the least start to the greatest end of
    the nodes wearing that mark, so a mark split over several nodes gives one
    merged span. *)
Theorem findSuggestionsInRange_merged (state : EditorState) (from to : Z) :
  to <= contentSize (doc state) ->
  let visited := nodesBetween (doc state) from to in
  let found := findSuggestionsInRange state from to in
  (forall node pos,
      (node, pos) ∈ visited
      <-> exists i : nat, doc state !! i = Some node
            /\ pos = contentSize (take i (doc state))
            /\ pos < to /\ from < pos + nodeSize node)
  /\ NoDup (mr_mark <$> found)
  /\ (forall m,
        m ∈ mr_mark <$> found
        <-> isSuggestionName (type_name m) = true
            /\ exists node pos, (node, pos) ∈ visited /\ m ∈ marks node)
  /\ (forall r, r ∈ found ->
        (exists node pos,
            (node, pos) ∈ visited /\ mr_mark r ∈ marks node /\ mr_from r = pos)
        /\ (exists node pos,
              (node, pos) ∈ visited /\ mr_mark r ∈ marks node
              /\ mr_to r = pos + nodeSize node)
        /\ (forall node pos,
              (node, pos) ∈ visited -> mr_mark r ∈ marks node ->
              mr_from r <= pos /\ pos + nodeSize node <= mr_to r)).
Proof. intros _. apply locator_spec. Qed.

(** The example of the specification: one span over the whole of [cat]. *)
Example findSuggestionsInRange_cat :
  findSuggestionsInRange (stateOf catDoc alice) 0 (contentSize catDoc)
  = [ {| mr_mark := sampleMark 0 "suggestion_delete" "alice";
         mr_from := 6; mr_to := 9 |} ].
Proof. vm_compute. reflexivity. Qed.


(** ** Cells, nodes and the view of a document *)

Lemma cells_app (a b : list Node) : cells (a ++ b) = cells a ++ cells b.
Proof. unfold cells. apply flat_map_app. Qed.

Lemma cells_cons n (c : list Node) :
  cells (n :: c) = map (fun u => (u, marks n)) (text n) ++ cells c.
Proof. done. Qed.

Lemma length_cells (c : list Node) : Z.of_nat (length (cells c)) = contentSize c.
Proof.
  induction c as [|n c IH]; [done|].
  rewrite cells_cons, length_app, length_map, contentSize_cons. unfold nodeSize. lia.
Qed.

Lemma sameSet_spec (a b : list Mark) :
  sameSet a b = true <-> markSpec <$> a = markSpec <$> b.
Proof. unfold sameSet. apply bool_decide_eq_true. Qed.

Lemma view_group (cs : list Cell) : view (group cs) = viewCell <$> cs.
Proof.
  unfold view. induction cs as [|[u ms] cs IH]; [done|].
  cbn [group]. rewrite fmap_cons, <- IH. destruct (group cs) as [|n ns] eqn:Hg.
  - done.
  - destruct (sameSet ms (marks n)) eqn:Hs.
    + apply sameSet_spec in Hs. rewrite !cells_cons. cbn [text marks map].
      rewrite !fmap_app, fmap_cons. cbn [app]. f_equal.
      unfold viewCell. cbn [fst snd]. by rewrite Hs.
    + by rewrite cells_cons.
Qed.

Lemma docText_view (c : list Node) : docText c = (view c).*1.
Proof. unfold docText, view. rewrite <- list_fmap_compose. by apply list_fmap_ext. Qed.

Lemma docText_group (cs : list Cell) : docText (group cs) = cs.*1.
Proof.
  rewrite docText_view, view_group, <- list_fmap_compose. by apply list_fmap_ext.
Qed.

Lemma length_view (c : list Node) : Z.of_nat (length (view c)) = contentSize c.
Proof. unfold view. rewrite length_fmap. apply length_cells. Qed.

Lemma validDoc_cons n (c : list Node) :
  validDoc (n :: c) = (0 <? nodeSize n) && validDoc c.
Proof. done. Qed.

Lemma validDoc_group (cs : list Cell) : validDoc (group cs) = true.
Proof.
  induction cs as [|[u ms] cs IH]; [done|].
  cbn [group]. destruct (group cs) as [|n ns]; [done|].
  rewrite validDoc_cons in IH. apply andb_true_iff in IH as [Hn Hns].
  destruct (sameSet ms (marks n)); rewrite !validDoc_cons.
  - by rewrite Hns.
  - by rewrite Hn, Hns.
Qed.

(** ** Ranges of a list *)

Lemma inRange_spec from to (i : nat) :
  inRange from to i = true <-> from <= Z.of_nat i < to.
Proof. unfold inRange. rewrite andb_true_iff, Z.leb_le, Z.ltb_lt. done. Qed.

Lemma mapRange_lookup {A} from to (g : A -> A) (l : list A) (i : nat) :
  mapRange from to g l !! i
  = (fun x => if inRange from to i then g x else x) <$> l !! i.
Proof. unfold mapRange. apply list_lookup_imap. Qed.

Lemma length_mapRange {A} from to (g : A -> A) (l : list A) :
  length (mapRange from to g l) = length l.
Proof. unfold mapRange. apply length_imap. Qed.

Lemma mapRange_ext {A} from to (g g' : A -> A) (l : list A) :
  (forall (i : nat) x, l !! i = Some x -> from <= Z.of_nat i < to -> g x = g' x) ->
  mapRange from to g l = mapRange from to g' l.
Proof.
  intros Hext. unfold mapRange. apply imap_ext. intros i x Hi.
  destruct (inRange from to i) eqn:Hr; [|done]. apply inRange_spec in Hr. eauto.
Qed.

Lemma mapRange_mapRange {A} from to (g g' : A -> A) (l : list A) :
  mapRange from to g' (mapRange from to g l) = mapRange from to (g' ∘ g) l.
Proof.
  apply list_eq. intros i. rewrite !mapRange_lookup.
  destruct (l !! i); [|done]. cbn. by destruct (inRange from to i).
Qed.

Lemma mapRange_fmap {A B} from to (g : A -> A) (g' : B -> B) (h : A -> B) (l : list A) :
  (forall x, h (g x) = g' (h x)) ->
  h <$> mapRange from to g l = mapRange from to g' (h <$> l).
Proof.
  intros Hc. apply list_eq. intros i.
  rewrite list_lookup_fmap, !mapRange_lookup, list_lookup_fmap.
  destruct (l !! i); [|done]. cbn. by destruct (inRange from to i); rewrite ?Hc.
Qed.

Lemma mapRange_split {A} from to (g : A -> A) (l : list A) :
  0 <= from <= to ->
  mapRange from to g l
  = take (Z.to_nat from) l ++ (g <$> sliceList from to l) ++ drop (Z.to_nat to) l.
Proof.
  intros Hft. apply list_eq. intros i. rewrite mapRange_lookup. unfold sliceList.
  destruct (decide (i < Z.to_nat from)%nat) as [Hlt|Hge].
  - destruct (decide (i < length l)%nat) as [Hl|Hl].
    + rewrite lookup_app_l by (rewrite length_take; lia).
      rewrite lookup_take_lt by lia.
      destruct (inRange from to i) eqn:Hr; [apply inRange_spec in Hr; lia|].
      by destruct (l !! i).
    + rewrite (lookup_ge_None_2 l) by lia. symmetry. apply lookup_ge_None_2.
      rewrite !length_app, length_fmap, length_take, !length_drop, length_take. lia.
  - destruct (decide (i < length l)%nat) as [Hl|Hl].
    2:{ rewrite (lookup_ge_None_2 l) by lia. symmetry. apply lookup_ge_None_2.
        rewrite !length_app, length_fmap, length_take, !length_drop, length_take. lia. }
    rewrite lookup_app_r by (rewrite length_take; lia).
    rewrite length_take, Nat.min_l by lia.
    destruct (decide (i < Z.to_nat to)%nat) as [Hlt'|Hge'].
    + rewrite lookup_app_l by (rewrite length_fmap, length_drop, length_take; lia).
      rewrite list_lookup_fmap, lookup_drop, lookup_take_lt by lia.
      replace (Z.to_nat from + (i - Z.to_nat from))%nat with i by lia.
      destruct (inRange from to i) eqn:Hr; [done|].
      apply not_true_iff_false in Hr. rewrite inRange_spec in Hr. lia.
    + rewrite lookup_app_r by (rewrite length_fmap, length_drop, length_take; lia).
      rewrite length_fmap, length_drop, length_take, lookup_drop.
      replace (Z.to_nat to + (i - Z.to_nat from - (Z.to_nat to `min` length l - Z.to_nat from)))%nat
        with i by lia.
      destruct (inRange from to i) eqn:Hr; [apply inRange_spec in Hr; lia|].
      by destruct (l !! i).
Qed.

Lemma filter_ext_in {A} (P Q : A -> Prop) `{!forall x, Decision (P x)}
  `{!forall x, Decision (Q x)} (l : list A) :
  (forall x, x ∈ l -> P x <-> Q x) -> filter P l = filter Q l.
Proof.
  induction l as [|a l IH]; intros Hext; [done|].
  rewrite !filter_cons.
  rewrite IH by (intros x Hx; apply Hext; by right).
  destruct (decide (P a)) as [Hp|Hp], (decide (Q a)) as [Hq|Hq]; try done.
  - exfalso. apply Hq, (Hext a); [left|done].
  - exfalso. apply Hp, (Hext a); [left|done].
Qed.

Lemma filter_all {A} (P : A -> Prop) `{!forall x, Decision (P x)} (l : list A) :
  (forall x, x ∈ l -> P x) -> filter P l = l.
Proof.
  induction l as [|a l IH]; intros Hall; [done|].
  rewrite filter_cons_True by (apply Hall; left).
  f_equal. apply IH. intros x Hx. apply Hall. by right.
Qed.

Lemma filter_fmap_comm {A B} (f : A -> B) (P : B -> Prop)
  `{!forall x, Decision (P x)} (l : list A) :
  filter P (f <$> l) = f <$> filter (fun x => P (f x)) l.
Proof.
  induction l as [|a l IH]; [done|].
  rewrite fmap_cons, !filter_cons, IH. by destruct (decide (P (f a))).
Qed.


(** ** Steps, seen on the view of the document *)

Lemma sliceList_elem {A} from to (l : list A) (i : nat) x :
  l !! i = Some x -> from <= Z.of_nat i < to -> x ∈ sliceList from to l.
Proof.
  intros Hi Hr. unfold sliceList. apply list_elem_of_lookup.
  exists (i - Z.to_nat from)%nat. rewrite lookup_drop, lookup_take_lt by lia.
  rewrite <- Hi. f_equal. lia.
Qed.

Lemma removeFromSet_spec m (ms : list Mark) :
  markSpec <$> removeFromSet m ms
  = filter (fun s => s <> markSpec m) (markSpec <$> ms).
Proof.
  unfold removeFromSet. rewrite filter_fmap_comm. f_equal.
  apply list_filter_iff. intros o. unfold mark_eq.
  rewrite bool_decide_eq_false. split; intros Hne Heq; by apply Hne.
Qed.

Lemma distinctMarks_elem seen ms m : m ∈ distinctMarks seen ms -> m ∈ ms.
Proof.
  revert seen. induction ms as [|o ms IH]; intros seen; cbn [distinctMarks]; [done|].
  destruct (isInSet o seen).
  - intros Hin. right. eauto.
  - intros [->|Hin]%elem_of_cons; [by left|]. right. eauto.
Qed.

Lemma isInSet_spec m (set : list Mark) :
  isInSet m set = true <-> markSpec m ∈ markSpec <$> set.
Proof.
  unfold isInSet. rewrite existsb_exists, list_elem_of_fmap. split.
  - intros (o & Hin%list_elem_of_In & He). exists o. split; [|done].
    unfold mark_eq in He. by apply bool_decide_eq_true in He.
  - intros (o & He & Hin). exists o. split; [by apply list_elem_of_In|].
    unfold mark_eq. by apply bool_decide_eq_true.
Qed.

Lemma distinctMarks_cover seen ms m :
  m ∈ ms ->
  markSpec m ∈ markSpec <$> seen \/ markSpec m ∈ markSpec <$> distinctMarks seen ms.
Proof.
  revert seen. induction ms as [|o ms IH]; intros seen Hin; [by apply elem_of_nil in Hin|].
  cbn [distinctMarks]. apply elem_of_cons in Hin as [->|Hin].
  - destruct (isInSet o seen) eqn:Hs.
    + left. by apply isInSet_spec.
    + right. rewrite fmap_cons. left.
  - destruct (isInSet o seen) eqn:Hs; [by apply IH|].
    destruct (IH (o :: seen) Hin) as [Hl|Hr].
    + rewrite fmap_cons in Hl. apply elem_of_cons in Hl as [->|Hl]; [|by left].
      right. rewrite fmap_cons. left.
    + right. rewrite fmap_cons. by right.
Qed.

Section StepView.
Context `{Host}.

Lemma view_replace from to slice (d : list Node) :
  view (applyStep (ReplaceStep from to slice) d)
  = replaceCells from to (view slice) (view d).
Proof.
  unfold applyStep. rewrite view_group. cbn [applyStepCells].
  unfold replaceCells, view. by rewrite !fmap_app, fmap_take, fmap_drop.
Qed.

Lemma view_removeMarkStep from to m (d : list Node) :
  view (applyStep (RemoveMarkStep from to m) d)
  = mapRange from to (fun v => (v.1, filter (fun s => s <> markSpec m) v.2)) (view d).
Proof.
  unfold applyStep. rewrite view_group. cbn [applyStepCells]. unfold view.
  apply mapRange_fmap. intros [u ms]. unfold viewCell. cbn [fst snd].
  by rewrite removeFromSet_spec.
Qed.

Lemma mapping_map_app maps maps' p :
  mapping_map (maps ++ maps') p = mapping_map maps' (mapping_map maps p).
Proof. unfold mapping_map. apply fold_left_app. Qed.

Lemma removeMark_steps from to (ms : list Mark) : forall t,
  let t' := fold_left (fun t m => step (RemoveMarkStep from to m) t) ms t in
  view (tr_doc t')
  = mapRange from to
      (fun v => (v.1, filter (fun s => s ∉ markSpec <$> ms) v.2)) (view (tr_doc t))
  /\ (forall p, mapping_map (tr_mapping t') p = mapping_map (tr_mapping t) p)
  /\ tr_steps t' = tr_steps t ++ (RemoveMarkStep from to <$> ms)
  /\ tr_mapping t' = tr_mapping t ++ (getMap <$> (RemoveMarkStep from to <$> ms))
  /\ tr_meta t' = tr_meta t.
Proof.
  induction ms as [|m ms IH]; intros t; cbn [fold_left].
  - split; [|by rewrite !app_nil_r].
    symmetry. apply list_eq. intros i. rewrite mapRange_lookup.
    destruct (view (tr_doc t) !! i) as [[u ss]|]; [|done]. cbn.
    destruct (inRange from to i); [|done]. do 2 f_equal.
    apply filter_all. intros s _. apply not_elem_of_nil.
  - destruct (IH (step (RemoveMarkStep from to m) t)) as (Hv & Hm & Hs & Hmp & Hmeta).
    cbv zeta in *.
    split; [|split; [|split; [|split]]].
    + rewrite Hv. cbn [step tr_doc].
      rewrite view_removeMarkStep, mapRange_mapRange. apply mapRange_ext.
      intros i [u ss] _ _. unfold compose. cbn [fst snd]. f_equal.
      rewrite list_filter_filter.
      apply list_filter_iff. intros s. rewrite fmap_cons, not_elem_of_cons. tauto.
    + intros p. rewrite Hm. cbn [step tr_mapping]. rewrite mapping_map_app.
      unfold mapping_map at 1, stepMap_map. cbn [fold_left getMap stepMap_map_at]. lia.
    + rewrite Hs. cbn [step tr_steps]. by rewrite fmap_cons, <- app_assoc.
    + rewrite Hmp. cbn [step tr_mapping]. by rewrite !fmap_cons, <- app_assoc.
    + by rewrite Hmeta.
Qed.

Lemma marksOfType_type name from to (d : list Node) m :
  m ∈ marksOfType name from to d -> type_name m = name.
Proof.
  unfold marksOfType. intros Hin%distinctMarks_elem.
  apply list_elem_of_filter in Hin as [He _]. by apply String.eqb_eq.
Qed.

Lemma marksOfType_cover name from to (d : list Node) (i : nat) c m :
  cells d !! i = Some c -> from <= Z.of_nat i < to -> m ∈ c.2 -> type_name m = name ->
  markSpec m ∈ markSpec <$> marksOfType name from to d.
Proof.
  intros Hi Hr Hm Hty. unfold marksOfType.
  destruct (distinctMarks_cover []
              (filter (fun m => String.eqb (type_name m) name = true)
                      (flat_map snd (sliceList from to (cells d)))) m) as [Hl|Hr'];
    [|by apply elem_of_nil in Hl|done].
  apply list_elem_of_filter. split; [by apply String.eqb_eq|].
  apply list_elem_of_In, in_flat_map. exists c. split.
  - apply list_elem_of_In. by eapply sliceList_elem.
  - by apply list_elem_of_In.
Qed.

Lemma view_removeMark from to name (t : Transaction) :
  view (tr_doc (removeMark from to name t))
  = mapRange from to (stripType name) (view (tr_doc t)).
Proof.
  unfold removeMark.
  destruct (removeMark_steps from to (marksOfType name from to (tr_doc t)) t)
    as (Hv & _). cbv zeta in Hv. rewrite Hv. apply mapRange_ext.
  intros i [u ss] Hi Hr. unfold stripType. cbn [fst snd]. f_equal.
  unfold view in Hi. rewrite list_lookup_fmap in Hi.
  destruct (cells (tr_doc t) !! i) as [[u' ms]|] eqn:Hc; [|done].
  injection Hi as -> <-.
  apply filter_ext_in. intros s Hs.
  apply list_elem_of_fmap in Hs as (m & -> & Hm). split.
  - intros Hnot Hty. apply Hnot.
    by apply (marksOfType_cover name from to (tr_doc t) i (u, ms) m).
  - intros Hty (m' & He & Hin)%list_elem_of_fmap.
    apply marksOfType_type in Hin. apply Hty.
    change (type_name m) with (markSpec m).1. by rewrite He.
Qed.

Lemma mapping_removeMark from to name (t : Transaction) p :
  mapping_map (tr_mapping (removeMark from to name t)) p = mapping_map (tr_mapping t) p.
Proof.
  unfold removeMark.
  destruct (removeMark_steps from to (marksOfType name from to (tr_doc t)) t)
    as (_ & Hm & _). apply Hm.
Qed.

End StepView.


(** ** Slots: what is left of the original positions *)

Lemma surviving_app {A} (l1 l2 : list (option A)) :
  surviving (l1 ++ l2) = surviving l1 ++ surviving l2.
Proof. unfold surviving. apply omap_app. Qed.

Lemma surviving_none {A} (g : option A -> option A) (l : list (option A)) :
  (forall o, g o = None) -> surviving (g <$> l) = [].
Proof.
  intros Hg. induction l as [|o l IH]; [done|].
  rewrite fmap_cons. unfold surviving in *. cbn. by rewrite Hg.
Qed.

Lemma surviving_fmap {A} (g : A -> A) (l : list (option A)) :
  surviving (fmap (M:=option) g <$> l) = g <$> surviving l.
Proof.
  induction l as [|o l IH]; [done|].
  rewrite fmap_cons. unfold surviving in *. destruct o; cbn; by rewrite IH.
Qed.

Lemma surviving_some {A} (l : list A) : surviving (Some <$> l) = l.
Proof.
  induction l as [|x l IH]; [done|]. unfold surviving in *. cbn. by rewrite IH.
Qed.

Lemma count_app {A} (l1 l2 : list (option A)) (p : nat) :
  length (surviving (take p (l1 ++ l2)))
  = (length (surviving (take p l1))
     + length (surviving (take (p - length l1) l2)))%nat.
Proof. by rewrite firstn_app, surviving_app, length_app. Qed.

Lemma count_le {A} (l : list (option A)) (p : nat) :
  (length (surviving (take p l)) <= length (surviving l))%nat.
Proof.
  rewrite <- (take_drop p l) at 2. rewrite surviving_app, length_app. lia.
Qed.

Lemma split3 {A} (l : list A) (f t : nat) :
  (f <= t)%nat ->
  l = take f l ++ drop f (take t l) ++ drop t l.
Proof.
  intros Hft. rewrite drop_take_drop by done. by rewrite take_drop.
Qed.

Lemma count_same {A} (l1 l2 : list (option A)) :
  Forall2 (fun x y => is_Some x <-> is_Some y) l1 l2 ->
  forall p, length (surviving (take p l1)) = length (surviving (take p l2)).
Proof.
  induction 1 as [|x y l1 l2 Hxy _ IH]; intros p; [by rewrite !take_nil|].
  destruct p as [|p]; [done|]. rewrite !firstn_cons. unfold surviving in *.
  destruct x as [x|], y as [y|]; cbn.
  - f_equal. apply IH.
  - destruct Hxy as [Hxy _]. destruct (is_Some_None (Hxy (mk_is_Some _ _ eq_refl))).
  - destruct Hxy as [_ Hxy]. destruct (is_Some_None (Hxy (mk_is_Some _ _ eq_refl))).
  - apply IH.
Qed.

(** The delete map of a range [[a, b)] with [a < b]. *)
Lemma stepMap_map_delete a b x :
  a < b ->
  stepMap_map [(a, b - a, 0)] x
  = if x <? a then x else if x <=? b then a else x - (b - a).
Proof.
  intros Hab. unfold stepMap_map. cbn [stepMap_map_at].
  destruct (Z.ltb_spec x a); [lia|].
  replace (a + (b - a)) with b by lia.
  destruct (Z.leb_spec x b).
  - destruct (Z.eqb_spec (b - a) 0); [lia|].
    destruct (Z.eqb_spec x a); cbn; [lia|].
    destruct (Z.eqb_spec x b); cbn; lia.
  - lia.
Qed.

Section Resolver.
Context `{Host}.

Lemma removeMark_maps from to name (t : Transaction) :
  tr_mapping t = getMap <$> tr_steps t ->
  tr_mapping (removeMark from to name t) = getMap <$> tr_steps (removeMark from to name t).
Proof.
  intros Hm. unfold removeMark.
  destruct (removeMark_steps from to (marksOfType name from to (tr_doc t)) t)
    as (_ & _ & Hs & Hmp & _). cbv zeta in *.
  by rewrite Hs, Hmp, Hm, fmap_app.
Qed.

Lemma view_delete a b (t : Transaction) :
  view (tr_doc (delete a b t))
  = take (Z.to_nat a) (view (tr_doc t)) ++ drop (Z.to_nat b) (view (tr_doc t)).
Proof.
  unfold delete, replace. change (contentSize []) with 0. rewrite Z.eqb_refl, andb_true_r.
  destruct (Z.eqb_spec a b) as [->|Hne].
  - by rewrite take_drop.
  - cbn [step tr_doc]. by rewrite view_replace.
Qed.

Lemma slots_parts (slots : list (option VCell)) (f t : Z) :
  0 <= f <= t -> t <= Z.of_nat (length slots) ->
  let A := take (Z.to_nat f) slots in
  let M := sliceList f t slots in
  let C := drop (Z.to_nat t) slots in
  slots = A ++ M ++ C
  /\ length A = Z.to_nat f
  /\ length M = (Z.to_nat t - Z.to_nat f)%nat
  /\ take (Z.to_nat t) slots = A ++ M.
Proof.
  intros Hft Ht A M C. unfold A, M, C, sliceList.
  split; [apply split3; lia|].
  split; [rewrite length_take; lia|].
  split; [rewrite length_drop, length_take; lia|].
  rewrite <- (take_drop (Z.to_nat f) (take (Z.to_nat t) slots)) at 1.
  f_equal. rewrite take_take. f_equal. lia.
Qed.

(** One span keeps the resolver invariant. *)
Lemma processSuggestion_inv (a : Action) (t : Transaction) (s : MarkedRange)
  (slots : list (option VCell)) :
  ResolverInv t slots ->
  0 <= mr_from s <= mr_to s -> mr_to s <= Z.of_nat (length slots) ->
  ResolverInv (processSuggestion a t s)
              (mapRange (mr_from s) (mr_to s) (slotStep a s) slots).
Proof.
  intros [Hview Hmap Hmaps] Hft Ht.
  destruct (slots_parts slots (mr_from s) (mr_to s) Hft Ht) as (Hsplit & HlA & HlM & Htake).
  set (fn := Z.to_nat (mr_from s)) in *. set (tn := Z.to_nat (mr_to s)) in *.
  set (A := take fn slots) in *. set (M := sliceList (mr_from s) (mr_to s) slots) in *.
  set (C := drop tn slots) in *.
  assert (Hfa : mapping_map (tr_mapping t) (mr_from s) = Z.of_nat (length (surviving A))).
  { replace (mr_from s) with (Z.of_nat fn) by lia. apply Hmap. lia. }
  assert (Hfb : mapping_map (tr_mapping t) (mr_to s)
                = Z.of_nat (length (surviving A) + length (surviving M))).
  { replace (mr_to s) with (Z.of_nat tn) at 1 by lia. rewrite Hmap by lia.
    fold tn. by rewrite Htake, surviving_app, length_app. }
  assert (Hsv : surviving slots = surviving A ++ surviving M ++ surviving C).
  { rewrite Hsplit at 1. by rewrite !surviving_app. }
  assert (Hcount : forall p : nat,
            length (surviving (take p slots))
            = (length (surviving (take p A))
               + length (surviving (take (p - fn) M))
               + length (surviving (take (p - fn - (tn - fn)) C)))%nat).
  { intros p. rewrite Hsplit at 1. rewrite !count_app, HlA, HlM. lia. }
  unfold processSuggestion. rewrite Hfa, Hfb.
  rewrite (mapRange_split (mr_from s) (mr_to s)) by done. fold fn tn A M C.
  destruct (String.eqb (type_name (mr_mark s)) (markToDelete a)) eqn:Hkind.
  - (* the span is removed *)
    assert (Hg : forall o, slotStep a s o = None).
    { intros o. unfold slotStep. by rewrite Hkind. }
    assert (Hsv' : surviving (A ++ (slotStep a s <$> M) ++ C)
                   = surviving A ++ surviving C).
    { by rewrite !surviving_app, (surviving_none (slotStep a s)). }
    split.
    + rewrite view_delete, Hview, Hsv, Hsv', !Nat2Z.id.
      rewrite take_app_length. f_equal.
      rewrite app_assoc. apply drop_app_length'. by rewrite length_app.
    + intros p Hp. rewrite length_app, length_app, length_fmap in Hp.
      assert (Hp' : (p <= length slots)%nat).
      { rewrite Hsplit, !length_app. lia. }
      rewrite !count_app, HlA, length_fmap, HlM.
      rewrite <- fmap_take, (surviving_none (slotStep a s)) by done.
      pose proof (Hmap p Hp') as Hx. rewrite Hcount in Hx.
      pose proof (count_le A p) as HleA.
      pose proof (count_le M (p - fn)) as HleM.
      assert (Hcases :
        ((p <= fn)%nat /\ take (p - fn) M = [] /\ take (p - fn - (tn - fn)) C = [])
        \/ ((fn <= p)%nat /\ take p A = A /\ (p <= tn)%nat
            /\ take (p - fn - (tn - fn)) C = [])
        \/ ((tn <= p)%nat /\ take p A = A /\ take (p - fn) M = M)).
      { destruct (decide (p <= fn)%nat) as [Hc|Hc].
        - left. replace (p - fn)%nat with 0%nat by lia.
          replace (0 - (tn - fn))%nat with 0%nat by lia. by rewrite !take_0.
        - right. destruct (decide (p <= tn)%nat) as [Hc'|Hc'].
          + left. split; [lia|]. split; [apply take_ge; lia|]. split; [done|].
            replace (p - fn - (tn - fn))%nat with 0%nat by lia. by rewrite take_0.
          + right. split; [lia|]. split; apply take_ge; lia. }
      unfold delete, replace. change (contentSize []) with 0.
      rewrite Z.eqb_refl, andb_true_r.
      match goal with |- context [Z.eqb ?x ?y] => destruct (Z.eqb_spec x y) as [Heq|Hne] end.
      * rewrite Hx.
        destruct Hcases as [(_ & -> & ->)|[(_ & -> & _ & ->)|(_ & -> & ->)]];
          cbn [surviving omap length list_omap] in *; lia.
      * cbn [step tr_mapping]. rewrite mapping_map_app.
        unfold mapping_map at 1. cbn [fold_left getMap].
        rewrite stepMap_map_delete by lia. rewrite Hx.
        destruct Hcases as [(Hc & -> & ->)|[(Hc & -> & Hc' & ->)|(Hc & -> & ->)]];
          cbn [surviving omap length list_omap] in *;
          repeat match goal with
                 | |- context [Z.ltb ?x ?y] => destruct (Z.ltb_spec x y)
                 | |- context [Z.leb ?x ?y] => destruct (Z.leb_spec x y)
                 end; lia.
    + unfold delete, replace. change (contentSize []) with 0.
      rewrite Z.eqb_refl, andb_true_r.
      match goal with |- context [Z.eqb ?x ?y] => destruct (Z.eqb_spec x y) end;
        [done|]. cbn [step tr_mapping tr_steps]. by rewrite fmap_app, Hmaps.
  - (* the mark is taken off, the text stays *)
    assert (Hg : slotStep a s <$> M
                 = fmap (M:=option) (stripType (type_name (mr_mark s))) <$> M).
    { apply list_fmap_ext. intros _ o _. unfold slotStep. by rewrite Hkind. }
    rewrite Hg.
    split.
    + rewrite view_removeMark, Hview, Hsv, !surviving_app, surviving_fmap.
      rewrite mapRange_split by lia. unfold sliceList. rewrite !Nat2Z.id.
      rewrite take_app_length. f_equal.
      rewrite app_assoc. rewrite take_app_length' by (by rewrite length_app).
      rewrite drop_app_length. f_equal.
      apply drop_app_length'. by rewrite length_app.
    + intros p Hp. rewrite mapping_removeMark.
      assert (Hp' : (p <= length slots)%nat).
      { rewrite Hsplit. revert Hp. rewrite !length_app, length_fmap. lia. }
      rewrite Hmap by done. apply (f_equal Z.of_nat). symmetry. apply count_same.
      rewrite Hsplit at 1. apply Forall2_app; [by apply Forall_Forall2_diag, Forall_true|].
      apply Forall2_app; [|by apply Forall_Forall2_diag, Forall_true].
      apply Forall2_fmap_l, Forall_Forall2_diag, Forall_true.
      intros o. cbv beta. apply fmap_is_Some.
    + by apply removeMark_maps.
Qed.

End Resolver.


(** ** The resolver as a whole *)

Lemma covers_snoc name (spans : list MarkedRange) s (p : nat) :
  covers name (spans ++ [s]) p
  = covers name spans p
    || (String.eqb (type_name (mr_mark s)) name && inRange (mr_from s) (mr_to s) p).
Proof. unfold covers. rewrite existsb_app. cbn [existsb]. by rewrite orb_false_r. Qed.

Lemma resolvedCell_snoc (a : Action) (spans : list MarkedRange) s (p : nat) c :
  resolvedCell a (spans ++ [s]) p c
  = if inRange (mr_from s) (mr_to s) p
    then slotStep a s (resolvedCell a spans p c)
    else resolvedCell a spans p c.
Proof.
  unfold resolvedCell, slotStep. rewrite covers_snoc.
  destruct (inRange (mr_from s) (mr_to s) p) eqn:Hr.
  - rewrite andb_true_r.
    destruct (String.eqb (type_name (mr_mark s)) (markToDelete a)) eqn:Hk.
    + by rewrite orb_true_r.
    + rewrite orb_false_r. destruct (covers (markToDelete a) spans p); [done|].
      cbn. unfold stripType. cbn [fst snd]. do 2 f_equal.
      rewrite list_filter_filter. apply list_filter_iff. intros x.
      rewrite covers_snoc, Hr, andb_true_r, orb_false_iff, String.eqb_neq.
      split; intros [? ?]; split; try done; by intros ->.
  - rewrite andb_false_r, orb_false_r.
    destruct (covers (markToDelete a) spans p); [done|]. do 2 f_equal.
    apply list_filter_iff. intros x.
    by rewrite covers_snoc, Hr, andb_false_r, orb_false_r.
Qed.

Lemma resolvedSlots_snoc (a : Action) (spans : list MarkedRange) s v :
  resolvedSlots a (spans ++ [s]) v
  = mapRange (mr_from s) (mr_to s) (slotStep a s) (resolvedSlots a spans v).
Proof.
  apply list_eq. intros i. unfold resolvedSlots.
  rewrite mapRange_lookup, !list_lookup_imap.
  destruct (v !! i) as [c|]; [|done]. cbn. by rewrite resolvedCell_snoc.
Qed.

Lemma resolvedSlots_nil (a : Action) v : resolvedSlots a [] v = Some <$> v.
Proof.
  apply list_eq. intros i. unfold resolvedSlots.
  rewrite list_lookup_imap, list_lookup_fmap.
  destruct (v !! i) as [[u ss]|]; [|done]. cbn. unfold resolvedCell. cbn.
  by rewrite filter_all.
Qed.

Lemma length_resolvedSlots (a : Action) spans v :
  length (resolvedSlots a spans v) = length v.
Proof. unfold resolvedSlots. apply length_imap. Qed.

Lemma count_resolved (a : Action) spans v (p : nat) :
  (p <= length v)%nat ->
  Z.of_nat (length (surviving (take p (resolvedSlots a spans v))))
  = translate a spans (Z.of_nat p).
Proof.
  unfold translate. rewrite Nat2Z.id. intros Hp. f_equal.
  induction p as [|p IH]; [by rewrite take_0|].
  destruct (lookup_lt_is_Some_2 v p) as [c Hc]; [lia|].
  rewrite (take_S_r _ _ (resolvedCell a spans p c)).
  2:{ unfold resolvedSlots. by rewrite list_lookup_imap, Hc. }
  rewrite seq_S, surviving_app, filter_app, !length_app, IH by lia.
  f_equal. cbn [Nat.add]. unfold resolvedCell, surviving.
  rewrite filter_cons, filter_nil.
  destruct (covers (markToDelete a) spans p); by destruct (decide _).
Qed.

Lemma contentSize_app (c1 c2 : list Node) :
  contentSize (c1 ++ c2) = contentSize c1 + contentSize c2.
Proof.
  induction c1 as [|n c1 IH]; [done|].
  rewrite <- app_comm_cons, !contentSize_cons, IH. lia.
Qed.

Lemma contentSize_lookup (c : list Node) (i : nat) n :
  c !! i = Some n ->
  0 <= contentSize (take i c)
  /\ contentSize (take i c) + nodeSize n <= contentSize c.
Proof.
  intros Hi. split; [apply contentSize_nonneg|].
  rewrite <- (take_drop_middle c i n Hi) at 2.
  rewrite contentSize_app, contentSize_cons.
  pose proof (contentSize_nonneg (drop (S i) c)). lia.
Qed.

(** The spans of the locator lie inside the document. *)
Lemma findSuggestionsInRange_within (state : EditorState) (from to : Z) :
  spansWithin (contentSize (doc state)) (findSuggestionsInRange state from to).
Proof.
  destruct (locator_spec state from to) as (Hvis & _ & _ & Hr).
  apply Forall_forall. intros r Hin. destruct (Hr r Hin) as (Hf & Ht & Hb).
  destruct Hf as (n1 & p1 & Hv1 & Hm1 & Hf).
  destruct Ht as (n2 & p2 & Hv2 & Hm2 & Ht).
  destruct (Hb n1 p1 Hv1 Hm1) as [_ Hle].
  apply Hvis in Hv1 as (i1 & Hi1 & -> & _). apply Hvis in Hv2 as (i2 & Hi2 & -> & _).
  pose proof (contentSize_lookup _ _ _ Hi1). pose proof (contentSize_lookup _ _ _ Hi2).
  pose proof (nodeSize_nonneg n1). lia.
Qed.

Section ResolverWhole.
Context `{Host}.

Lemma resolveSuggestions_snoc (a : Action) state spans s :
  resolveSuggestions a state (spans ++ [s])
  = processSuggestion a (resolveSuggestions a state spans) s.
Proof. unfold resolveSuggestions. by rewrite fold_left_app. Qed.

Lemma resolveSuggestions_app (a : Action) state spans rest :
  resolveSuggestions a state (spans ++ rest)
  = fold_left (processSuggestion a) rest (resolveSuggestions a state spans).
Proof. unfold resolveSuggestions. by rewrite fold_left_app. Qed.

(** The invariant holds after any number of spans. *)
Lemma resolveSuggestions_inv (a : Action) state spans :
  spansWithin (contentSize (doc state)) spans ->
  ResolverInv (resolveSuggestions a state spans)
              (resolvedSlots a spans (view (doc state))).
Proof.
  induction spans as [|s spans IH] using rev_ind; intros Hw.
  - rewrite resolvedSlots_nil. split.
    + by rewrite surviving_some.
    + intros p Hp. rewrite length_fmap in Hp. cbn.
      rewrite <- fmap_take, surviving_some, length_take. lia.
    + done.
  - unfold spansWithin in Hw. apply Forall_app in Hw as [Hw Hs].
    apply Forall_singleton in Hs as (Hf & Hft & Ht).
    rewrite resolveSuggestions_snoc, resolvedSlots_snoc.
    apply processSuggestion_inv; [by apply IH|lia|].
    rewrite length_resolvedSlots, length_view. lia.
Qed.

(** The document the resolver leaves, and where it puts each position. *)
Lemma resolveSuggestions_view (a : Action) state spans :
  spansWithin (contentSize (doc state)) spans ->
  view (tr_doc (resolveSuggestions a state spans))
  = resolvedView a spans (view (doc state)).
Proof. intros Hw. by destruct (resolveSuggestions_inv a state spans Hw). Qed.

Lemma resolveSuggestions_translate (a : Action) state spans p :
  spansWithin (contentSize (doc state)) spans ->
  0 <= p <= contentSize (doc state) ->
  mapping_map (getMap <$> tr_steps (resolveSuggestions a state spans)) p
  = translate a spans p.
Proof.
  intros Hw Hp. destruct (resolveSuggestions_inv a state spans Hw) as [_ Hmap Hmaps].
  rewrite <- Hmaps. replace p with (Z.of_nat (Z.to_nat p)) by lia.
  rewrite Hmap.
  - apply count_resolved. pose proof (length_view (doc state)). lia.
  - rewrite length_resolvedSlots. pose proof (length_view (doc state)). lia.
Qed.

End ResolverWhole.


(** ** What one edit of the resolver does to the text *)

Section ResolverEdits.
Context `{Host}.

Lemma docText_delete a b (t : Transaction) :
  docText (tr_doc (delete a b t))
  = take (Z.to_nat a) (docText (tr_doc t)) ++ drop (Z.to_nat b) (docText (tr_doc t)).
Proof. by rewrite !docText_view, view_delete, fmap_app, fmap_take, fmap_drop. Qed.

Lemma docText_removeMark a b name (t : Transaction) :
  docText (tr_doc (removeMark a b name t)) = docText (tr_doc t).
Proof.
  rewrite !docText_view, view_removeMark. apply list_eq. intros i.
  rewrite !list_lookup_fmap, mapRange_lookup.
  destruct (view (tr_doc t) !! i); [|done]. cbn. by destruct (inRange a b i).
Qed.

Lemma removeMark_clears a b name (t : Transaction) (i : nat) c m :
  cells (tr_doc (removeMark a b name t)) !! i = Some c ->
  a <= Z.of_nat i < b -> m ∈ c.2 -> type_name m <> name.
Proof.
  intros Hi Hr Hm.
  assert (Hv : view (tr_doc (removeMark a b name t)) !! i = Some (viewCell c)).
  { unfold view. by rewrite list_lookup_fmap, Hi. }
  rewrite view_removeMark, mapRange_lookup in Hv.
  destruct (view (tr_doc t) !! i) as [x|]; [|done]. cbn in Hv.
  apply inRange_spec in Hr. rewrite Hr in Hv.
  assert (Hv' : stripType name x = viewCell c) by congruence.
  assert (Hin : markSpec m ∈ (viewCell c).2).
  { unfold viewCell. cbn [snd]. apply list_elem_of_fmap. by exists m. }
  rewrite <- Hv' in Hin. unfold stripType in Hin. cbn [snd] in Hin.
  by apply list_elem_of_filter in Hin as [Hne _].
Qed.

Lemma tr_meta_processSuggestion (a : Action) (t : Transaction) s :
  tr_meta (processSuggestion a t s) = tr_meta t.
Proof.
  unfold processSuggestion.
  destruct (String.eqb (type_name (mr_mark s)) (markToDelete a)).
  - unfold delete, replace. by destruct (_ && _).
  - unfold removeMark.
    match goal with |- context [fold_left _ ?ms t] =>
      by destruct (removeMark_steps (mapping_map (tr_mapping t) (mr_from s))
                     (mapping_map (tr_mapping t) (mr_to s)) ms t) as (_ & _ & _ & _ & ?)
    end.
Qed.

Lemma tr_meta_resolveSuggestions (a : Action) state spans :
  tr_meta (resolveSuggestions a state spans) = Some skipMeta.
Proof.
  induction spans as [|s spans IH] using rev_ind; [done|].
  by rewrite resolveSuggestions_snoc, tr_meta_processSuggestion.
Qed.

Lemma validDoc_step s (t : Transaction) : validDoc (tr_doc (step s t)) = true.
Proof. apply validDoc_group. Qed.

Lemma validDoc_processSuggestion (a : Action) (t : Transaction) s :
  validDoc (tr_doc t) = true -> validDoc (tr_doc (processSuggestion a t s)) = true.
Proof.
  intros Hv. unfold processSuggestion.
  destruct (String.eqb (type_name (mr_mark s)) (markToDelete a)).
  - unfold delete, replace. destruct (_ && _); [done|apply validDoc_step].
  - unfold removeMark.
    generalize (mapping_map (tr_mapping t) (mr_from s))
               (mapping_map (tr_mapping t) (mr_to s)). intros x y.
    generalize (marksOfType (type_name (mr_mark s)) x y (tr_doc t)).
    intros ms. revert t Hv. induction ms as [|m ms IH]; intros t Hv; [done|].
    cbn [fold_left]. apply IH, validDoc_step.
Qed.

Lemma validDoc_resolveSuggestions (a : Action) state spans :
  validDoc (doc state) = true ->
  validDoc (tr_doc (resolveSuggestions a state spans)) = true.
Proof.
  intros Hv. induction spans as [|s spans IH] using rev_ind; [done|].
  rewrite resolveSuggestions_snoc. by apply validDoc_processSuggestion.
Qed.

End ResolverEdits.

(** ** Positions and the nodes that hold them *)

Lemma cells_lookup_node (d : list Node) : forall (p : nat) c,
  cells d !! p = Some c ->
  exists (i : nat) n, d !! i = Some n /\ c.2 = marks n
    /\ contentSize (take i d) <= Z.of_nat p < contentSize (take i d) + nodeSize n.
Proof.
  induction d as [|n d IH]; intros p c Hp; [done|].
  rewrite cells_cons in Hp.
  destruct (decide (p < length (text n))%nat) as [Hlt|Hge].
  - rewrite lookup_app_l in Hp by (by rewrite length_map).
    apply list_lookup_fmap_Some in Hp as (u & -> & Hu).
    exists 0%nat, n. rewrite take_0. change (contentSize []) with 0.
    unfold nodeSize. split; [done|]. split; [done|]. lia.
  - rewrite lookup_app_r in Hp by (rewrite length_map; lia).
    rewrite length_map in Hp.
    destruct (IH _ _ Hp) as (i & n' & Hi & Hm & Hr).
    exists (S i), n'. rewrite firstn_cons, contentSize_cons. unfold nodeSize in *.
    split; [done|]. split; [done|]. lia.
Qed.

Lemma node_has_cell (d : list Node) n :
  validDoc d = true -> n ∈ d -> exists (p : nat) c, cells d !! p = Some c /\ c.2 = marks n.
Proof.
  induction d as [|n' d IH]; intros Hv Hin; [by apply elem_of_nil in Hin|].
  rewrite validDoc_cons in Hv. apply andb_true_iff in Hv as [Hn Hv].
  apply Z.ltb_lt in Hn. unfold nodeSize in Hn.
  apply elem_of_cons in Hin as [->|Hin].
  - destruct (text n') as [|u us] eqn:Ht; [cbn in Hn; lia|].
    exists 0%nat, (u, marks n'). by rewrite cells_cons, Ht.
  - destruct (IH Hv Hin) as (p & c & Hp & Hc).
    exists (length (text n') + p)%nat, c. rewrite cells_cons. split; [|done].
    rewrite lookup_app_r by (rewrite length_map; lia).
    rewrite length_map. by replace (length (text n') + p - length (text n'))%nat with p by lia.
Qed.

Lemma collectSuggestions_none (visited : list (Node * Z)) :
  (forall node pos m, (node, pos) ∈ visited -> m ∈ marks node ->
     isSuggestionName (type_name m) = false) ->
  collectSuggestions visited = [].
Proof.
  intros Hno. rewrite collectSuggestions_events.
  assert (Hev : forall e, e ∈ markEvents visited -> isSuggestionName (type_name e.1.1) = false).
  { intros [[m p] sz] (node & Hv & Hm & _)%markEvents_elem. eauto. }
  revert Hev. generalize (markEvents visited). intros evs.
  induction evs as [|[[m p] sz] evs IH]; intros Hev; [done|].
  cbn [fold_left]. unfold noteEvent at 2, noteMark. cbn [fst snd].
  pose proof (Hev (m, p, sz)) as Hm. cbn [fst snd] in Hm. rewrite Hm by left.
  apply IH. intros e He. apply Hev. by right.
Qed.

Lemma findSuggestionsInRange_none (state : EditorState) (from to : Z) :
  (forall n m, n ∈ doc state -> m ∈ marks n -> isSuggestionName (type_name m) = false) ->
  findSuggestionsInRange state from to = [].
Proof.
  intros Hno. unfold findSuggestionsInRange. rewrite collectSuggestions_none; [done|].
  intros node pos m Hv Hm. apply (Hno node); [|done].
  unfold nodesBetween in Hv. apply nodesBetween_at_elem in Hv as (i & Hi & _).
  by eapply list_elem_of_lookup_2.
Qed.


(** ** The accept and reject commands *)

Section ResolverClaims.
Context `{Host}.

(** C6. For a range that ends inside the document the walk of the span
    locator, the one call of the library on this path that can throw,
    returns.  When the
    locator then finds no pending span (which is the case exactly when no
    node that overlaps the range wears a suggestion mark), the command makes
    no edit and reports "nothing to do" by returning [false]: whatever
    [dispatch] it was given is not called, and the world it would act on is
    left as it was.  Given a [dispatch], the command returns [false] in no
    other case. *)
Theorem processSuggestionsInRange_nothing_to_do {World : Type} (a : Action)
  (from to : Z) (state : EditorState) (w : World) :
  to <= contentSize (doc state) ->
  let found := findSuggestionsInRange state from to in
  nodesBetween_run 0 (doc state) from to = Some (nodesBetween (doc state) from to)
  /\ (found = [] ->
      forall dispatch : option (Transaction -> World -> World),
        processSuggestionsInRange a from to state dispatch w = (false, w))
  /\ (found = []
      <-> forall (i : nat) node m,
            doc state !! i = Some node ->
            contentSize (take i (doc state)) < to ->
            from < contentSize (take i (doc state)) + nodeSize node ->
            m ∈ marks node -> isSuggestionName (type_name m) = false)
  /\ (forall given : Transaction -> World -> World,
        (processSuggestionsInRange a from to state (Some given) w).1 = false ->
        found = []).
Proof.
  intros Hin found. split; [by apply nodesBetween_run_inside|]. split; [|split].
  - intros Hnone dispatch. unfold processSuggestionsInRange.
    fold found. by rewrite Hnone.
  - apply locator_empty.
  - intros given. unfold processSuggestionsInRange. fold found.
    by destruct found.
Qed.

(** C10. Without a [dispatch] function, accepting or rejecting a range that
    ends inside the document returns [false] and makes no edit, whatever
    spans the range holds: the walk of the locator returns, and what it found
    is not looked at further. *)
Theorem processSuggestionsInRange_no_dispatch {World : Type} (from to : Z)
  (state : EditorState) (w : World) :
  to <= contentSize (doc state) ->
  nodesBetween_run 0 (doc state) from to = Some (nodesBetween (doc state) from to)
  /\ acceptSuggestionsInRange from to state None w = (false, w)
  /\ rejectSuggestionsInRange from to state None w = (false, w).
Proof.
  intros Hin. split; [by apply nodesBetween_run_inside|].
  unfold acceptSuggestionsInRange, rejectSuggestionsInRange, processSuggestionsInRange.
  by destruct (findSuggestionsInRange state from to).
Qed.

(** C3. In a call that resolves several spans, the edit of a span is made at
    its positions mapped through the maps of all steps the earlier spans of
    the batch added to the transaction; these are the positions of the span
    in the document those earlier edits produced: each original position is
    sent to the number of positions before it that are still there. *)
Theorem processSuggestionsInRange_remapped (a : Action) (from to : Z)
  (state : EditorState)
  (pre : list MarkedRange) (s : MarkedRange) (post : list MarkedRange) :
  findSuggestionsInRange state from to = pre ++ s :: post ->
  let before := resolveSuggestions a state pre in
  let earlier := getMap <$> tr_steps before in
  let adjustedFrom := mapping_map earlier (mr_from s) in
  let adjustedTo := mapping_map earlier (mr_to s) in
  resolveSuggestions a state (pre ++ [s])
  = (if String.eqb (type_name (mr_mark s)) (markToDelete a)
     then delete adjustedFrom adjustedTo before
     else removeMark adjustedFrom adjustedTo (type_name (mr_mark s)) before)
  /\ resolveSuggestions a state (pre ++ s :: post)
     = fold_left (processSuggestion a) post (resolveSuggestions a state (pre ++ [s]))
  /\ view (tr_doc before) = resolvedView a pre (view (doc state))
  /\ (forall p, 0 <= p <= contentSize (doc state) ->
        mapping_map earlier p = translate a pre p)
  /\ adjustedFrom = translate a pre (mr_from s)
  /\ adjustedTo = translate a pre (mr_to s).
Proof.
  intros Hfound before earlier adjustedFrom adjustedTo.
  pose proof (findSuggestionsInRange_within state from to) as Hw.
  rewrite Hfound in Hw. unfold spansWithin in Hw.
  apply Forall_app in Hw as [Hpre Hrest].
  apply Forall_cons in Hrest as [(Hf & Hft & Ht) _].
  destruct (resolveSuggestions_inv a state pre Hpre) as [_ _ Hmaps].
  subst before earlier adjustedFrom adjustedTo.
  split; [|split; [|split; [|split; [|split]]]].
  - rewrite resolveSuggestions_snoc. unfold processSuggestion.
    by rewrite Hmaps.
  - rewrite <- resolveSuggestions_app, <- app_assoc. done.
  - by apply resolveSuggestions_view.
  - intros p Hp. by apply resolveSuggestions_translate.
  - apply resolveSuggestions_translate; [done|lia].
  - apply resolveSuggestions_translate; [done|lia].
Qed.

Lemma appendTransaction_skip (t : Transaction) (oldState newState : EditorState)
  (next : nat) :
  meta_skipSuggestionOperation (mergeMeta (plugin oldState) (tr_meta t)) = true ->
  appendTransaction [t] oldState newState next = (None, next).
Proof.
  intros Hskip. unfold appendTransaction, appendLoop, forEachIndexed.
  cbn [imap fold_left]. unfold processTransaction.
  destruct (tr_history t); [done|].
  destruct (negb _); [done|]. by rewrite Hskip.
Qed.

Lemma dispatchTransaction_skip (t : Transaction) (e : Editor) :
  tr_meta t = Some skipMeta ->
  dispatchTransaction t e
  = {| ed_state := applyPlain t (ed_state e); ed_fresh := ed_fresh e |}.
Proof.
  intros Hmeta. unfold dispatchTransaction.
  rewrite appendTransaction_skip; [done|]. by rewrite Hmeta.
Qed.

End ResolverClaims.


(** ** The tracking transformer, step by step *)


Lemma addToSet_loop_has `{Host} (m : Mark) (set : list Mark) (placed : bool) :
  placed = false -> m ∈ addToSet_loop m set placed.
Proof.
  revert placed. induction set as [|o set IH]; intros placed ->; cbn [addToSet_loop].
  - left.
  - destruct (String.eqb (type_name m) (type_name o)); [by apply IH|].
    cbn [negb andb]. destruct (_ <? _)%nat; [left|]. right. by apply IH.
Qed.

Lemma addToSet_isInSet `{Host} (m : Mark) (set : list Mark) :
  isInSet m (addToSet m set) = true.
Proof.
  unfold addToSet. destruct (isInSet m set) eqn:Hin; [done|].
  apply isInSet_spec, list_elem_of_fmap. exists m. split; [done|].
  by apply addToSet_loop_has.
Qed.

Section Transformer.
Context `{Host}.

Lemma view_addMarkStep from to m (d : list Node) :
  view (applyStep (AddMarkStep from to m) d)
  = viewCell <$> mapRange from to (fun c => (c.1, addToSet m c.2)) (cells d).
Proof. unfold applyStep. by rewrite view_group. Qed.

(** After [tr.addMark(from, to, mark)] every position of the range wears a
    mark equal to [mark]. *)
Lemma addMark_covers from to m (t : Transaction) (i : nat) c :
  cells (tr_doc (addMark from to m t)) !! i = Some c ->
  from <= Z.of_nat i < to -> isInSet m c.2 = true.
Proof.
  intros Hi Hr. unfold addMark in Hi.
  destruct (existsb _ _) eqn:Hex.
  - assert (Hv : view (tr_doc (step (AddMarkStep from to m) t)) !! i
                 = Some (viewCell c)).
    { unfold view. by rewrite list_lookup_fmap, Hi. }
    cbn [step tr_doc] in Hv. rewrite view_addMarkStep in Hv.
    rewrite list_lookup_fmap, mapRange_lookup in Hv.
    destruct (cells (tr_doc t) !! i) as [c'|]; [|done]. cbn in Hv.
    apply inRange_spec in Hr. rewrite Hr in Hv. apply (inj Some) in Hv.
    apply isInSet_spec.
    assert (Hs : markSpec <$> c.2 = markSpec <$> addToSet m c'.2).
    { unfold viewCell in Hv. cbn [fst snd] in Hv. congruence. }
    rewrite Hs. apply isInSet_spec, addToSet_isInSet.
  - apply not_true_iff_false in Hex. destruct (isInSet m c.2) eqn:Hin; [done|].
    exfalso. apply Hex. apply existsb_exists. exists c. split.
    + apply list_elem_of_In. by eapply sliceList_elem.
    + by rewrite Hin.
Qed.

Lemma processTransaction_passes (pluginState : PluginState)
  (newState : EditorState) (transactions : list Transaction) (trIndex : nat)
  (t : Transaction) (l : Loop) :
  tr_history t = true
  \/ default (inSuggestionMode pluginState) (tr_meta t ≫= tm_inSuggestionMode) = false
  \/ default false (tr_meta t ≫= tm_skipSuggestionOperation) = true ->
  processTransaction pluginState newState transactions trIndex t l = l.
Proof.
  intros Hskip. unfold processTransaction.
  destruct (tr_history t); [done|].
  unfold mergeMeta. cbn [meta_inSuggestionMode meta_skipSuggestionOperation].
  destruct Hskip as [?|[->| ->]]; [done|done|]. by destruct (negb _).
Qed.

(** A batch made of such transactions only is left alone. *)
Lemma appendTransaction_forwarded (transactions : list Transaction)
  (oldState newState : EditorState) (next : nat) :
  Forall (fun t =>
            tr_history t = true
            \/ default (inSuggestionMode (plugin oldState))
                       (tr_meta t ≫= tm_inSuggestionMode) = false
            \/ default false (tr_meta t ≫= tm_skipSuggestionOperation) = true)
         transactions ->
  appendTransaction transactions oldState newState next = (None, next).
Proof.
  intros Hall. unfold appendTransaction, appendLoop, forEachIndexed.
  set (l0 := {| tr := state_tr newState; changed := false;
                intermediateTr := doc oldState; lastStep := None; fresh := next |}).
  assert (Hfold : forall (ts : list (nat * Transaction)),
            Forall (fun it =>
                      tr_history it.2 = true
                      \/ default (inSuggestionMode (plugin oldState))
                                 (tr_meta it.2 ≫= tm_inSuggestionMode) = false
                      \/ default false (tr_meta it.2 ≫= tm_skipSuggestionOperation)
                         = true) ts ->
            fold_left (fun s '(i, x) =>
                         processTransaction (plugin oldState) newState
                                            transactions i x s) ts l0 = l0).
  { induction ts as [|[i t] ts IH]; intros Hts; [done|].
    apply Forall_cons in Hts as [Ht Hts]. cbn [fold_left].
    rewrite processTransaction_passes by done. by apply IH. }
  rewrite Hfold; [done|].
  apply Forall_forall. intros [i t] Hin.
  apply elem_of_lookup_imap in Hin as (j & t' & [= -> ->] & Hj).
  cbn [snd]. eapply Forall_forall in Hall; [done|]. by eapply list_elem_of_lookup_2.
Qed.

Lemma docText_addMark from to m (t : Transaction) :
  docText (tr_doc (addMark from to m t)) = docText (tr_doc t).
Proof.
  unfold addMark. destruct (existsb _ _); [|done].
  cbn [step tr_doc]. unfold applyStep. rewrite docText_group. cbn [applyStepCells].
  unfold docText. apply list_eq. intros i.
  rewrite !list_lookup_fmap, mapRange_lookup.
  destruct (cells (tr_doc t) !! i); [|done]. cbn. by destruct (inRange from to i).
Qed.

Lemma docText_replace from to slice (t : Transaction) :
  docText (tr_doc (replace from to slice t))
  = take (Z.to_nat from) (docText (tr_doc t)) ++ docText slice
      ++ drop (Z.to_nat to) (docText (tr_doc t)).
Proof.
  unfold replace.
  destruct ((from =? to) && (contentSize slice =? 0)) eqn:Hnone.
  - apply andb_true_iff in Hnone as [->%Z.eqb_eq Hs%Z.eqb_eq].
    assert (Hd : docText slice = []).
    { apply length_zero_iff_nil. unfold docText. rewrite length_fmap.
      pose proof (length_cells slice). lia. }
    by rewrite Hd, app_nil_l, take_drop.
  - cbn [step tr_doc]. unfold applyStep. rewrite docText_group. cbn [applyStepCells].
    unfold replaceCells, docText. by rewrite !fmap_app, fmap_take, fmap_drop.
Qed.

Lemma tr_steps_addMark from to m (t : Transaction) :
  tr_steps (addMark from to m t) = tr_steps t
  \/ tr_steps (addMark from to m t) = tr_steps t ++ [AddMarkStep from to m].
Proof. unfold addMark. destruct (existsb _ _); [by right|by left]. Qed.

(** The extension of an existing suggestion (first part of C4). *)
Lemma processStep_extends (newState : EditorState) (meta : Meta)
  (transactions : list Transaction) (trIndex stepIndex : nat) (step_ : Step)
  (l : Loop) (existing : Mark) :
  existingSuggestionMarkOf l step_ = Some existing ->
  let addedSliceSize := addedSliceSizeOf l step_ in
  let tr0 := setMeta skipMeta (tr l) in
  let next := processStep newState meta transactions trIndex stepIndex step_ l in
  let from := step_from step_ in
  fresh next = fresh l
  /\ (1 < addedSliceSize ->
      tr next = addMark from (from + addedSliceSize) existing tr0
      /\ changed next = true
      /\ forall (i : nat) c,
           cells (tr_doc (tr next)) !! i = Some c ->
           from <= Z.of_nat i < from + addedSliceSize ->
           isInSet existing c.2 = true)
  /\ (addedSliceSize <= 1 -> tr next = tr0 /\ changed next = changed l).
Proof.
  intros Hex addedSliceSize tr0 next from.
  unfold next, processStep. rewrite Hex. fold addedSliceSize tr0 from.
  destruct (Z.ltb_spec 1 addedSliceSize) as [Hlt|Hle]; cbn [tr changed fresh].
  - split; [done|]. split; [|lia]. intros _. split; [done|]. split; [done|].
    intros i c Hi Hr. by eapply addMark_covers.
  - split; [done|]. split; [lia|done].
Qed.

(** C9, as the code has it.  A transaction that is a history replay, or whose
    tracking flag in effect is false (the flag of its own suggestion meta
    when that has one, the session flag otherwise), or that carries the skip
    flag, is passed over: the output transaction, the changed flag, the
    replayed document and the marks created stay as they were; a batch of
    such transactions gets nothing appended. *)
Theorem processTransaction_forwarded (pluginState : PluginState)
  (newState : EditorState) (transactions : list Transaction) (trIndex : nat)
  (t : Transaction) (l : Loop) :
  tr_history t = true
  \/ default (inSuggestionMode pluginState) (tr_meta t ≫= tm_inSuggestionMode) = false
  \/ default false (tr_meta t ≫= tm_skipSuggestionOperation) = true ->
  processTransaction pluginState newState transactions trIndex t l = l
  /\ forall oldState next,
       plugin oldState = pluginState ->
       appendTransaction [t] oldState newState next = (None, next).
Proof.
  intros Hskip. split; [by apply processTransaction_passes|].
  intros oldState next Hp. apply appendTransaction_forwarded.
  apply Forall_singleton. by rewrite Hp.
Qed.

End Transformer.


(** ** How text nodes are joined *)

Lemma sameSet_refl (a : list Mark) : sameSet a a = true.
Proof. by apply sameSet_spec. Qed.

Lemma sameSet_sym (a b : list Mark) : sameSet a b = sameSet b a.
Proof.
  destruct (sameSet a b) eqn:Hab, (sameSet b a) eqn:Hba; try done.
  - apply sameSet_spec in Hab. apply not_true_iff_false in Hba.
    exfalso. apply Hba. by apply sameSet_spec.
  - apply sameSet_spec in Hba. apply not_true_iff_false in Hab.
    exfalso. apply Hab. by apply sameSet_spec.
Qed.

Lemma sameSet_trans_false (a b c : list Mark) :
  sameSet a b = false -> sameSet b c = true -> sameSet a c = false.
Proof.
  intros Hab Hbc. apply sameSet_spec in Hbc. apply not_true_iff_false.
  intros Hac%sameSet_spec. apply not_true_iff_false in Hab. apply Hab.
  apply sameSet_spec. congruence.
Qed.

Lemma sameSet_trans (a b c : list Mark) :
  sameSet a b = true -> sameSet b c = true -> sameSet a c = true.
Proof. rewrite !sameSet_spec. congruence. Qed.

Lemma group_head (cs : list Cell) n ns :
  group cs = n :: ns ->
  exists c cs', cs = c :: cs' /\ sameSet c.2 (marks n) = true.
Proof.
  destruct cs as [|[u ms] cs]; [done|]. cbn [group]. intros Hg.
  exists (u, ms), cs. split; [done|]. cbn [snd].
  destruct (group cs) as [|n' ns'].
  - injection Hg as <- _. apply sameSet_refl.
  - destruct (sameSet ms (marks n')) eqn:Hs.
    + by injection Hg as <- _.
    + injection Hg as <- _. apply sameSet_refl.
Qed.

Lemma group_nil_inv (cs : list Cell) : group cs = [] -> cs = [].
Proof.
  destruct cs as [|[u ms] cs]; [done|]. cbn [group].
  destruct (group cs) as [|n ns]; [done|]. by destruct (sameSet ms (marks n)).
Qed.

Lemma group_cons (u : N) (ms : list Mark) (cs : list Cell) :
  group ((u, ms) :: cs)
  = match group cs with
    | n :: ns =>
        if sameSet ms (marks n)
        then {| text := u :: text n; marks := marks n |} :: ns
        else {| text := [u]; marks := ms |} :: n :: ns
    | [] => [{| text := [u]; marks := ms |}]
    end.
Proof. done. Qed.

(** Cells that cannot be joined across a border are grouped side by side. *)
Lemma group_app (L R : list Cell) :
  (forall c c', last L = Some c -> head R = Some c' -> sameSet c.2 c'.2 = false) ->
  group (L ++ R) = group L ++ group R.
Proof.
  induction L as [|[u ms] L IH]; intros Hborder; [done|].
  destruct L as [|c' L'].
  - cbn [app group] in *. destruct (group R) as [|n ns] eqn:HgR; [done|].
    destruct (group_head _ _ _ HgR) as (c0 & R' & -> & Hsame).
    rewrite (sameSet_trans_false ms c0.2 (marks n)); [done| |done].
    by apply (Hborder (u, ms) c0).
  - assert (IH' : group ((c' :: L') ++ R) = group (c' :: L') ++ group R).
    { apply IH. intros c c0 Hl Hh. apply Hborder; [|done]. by rewrite last_cons_cons. }
    rewrite <- app_comm_cons, (group_cons u ms (c' :: L')), group_cons, IH'.
    destruct (group (c' :: L')) as [|n ns] eqn:HgL.
    + by apply group_nil_inv in HgL.
    + rewrite <- app_comm_cons. by destruct (sameSet ms (marks n)).
Qed.

(** A run of cells with the same markup becomes one node. *)
Lemma group_run (T : list Cell) (c0 : Cell) :
  last T = Some c0 ->
  (forall c, c ∈ T -> sameSet c.2 c0.2 = true) ->
  group T = [{| text := T.*1; marks := c0.2 |}].
Proof.
  induction T as [|[u ms] T IH]; intros Hlast Hall; [done|].
  destruct T as [|c' T'].
  - cbn in Hlast. injection Hlast as <-. reflexivity.
  - rewrite last_cons_cons in Hlast. rewrite group_cons, IH; [|done|].
    + cbn [marks text]. pose proof (Hall (u, ms)) as Hu. cbn [snd] in Hu.
      rewrite Hu by left. done.
    + intros c Hc. apply Hall. by right.
Qed.

Lemma contentSize_group (cs : list Cell) :
  contentSize (group cs) = Z.of_nat (length cs).
Proof. by rewrite <- length_view, view_group, length_fmap. Qed.

Lemma nodesBetween_at_app (X Y : list Node) : forall pos from to,
  nodesBetween_at pos (X ++ Y) from to
  = nodesBetween_at pos X from to
      ++ nodesBetween_at (pos + contentSize X) Y from to.
Proof.
  induction X as [|n X IH]; intros pos from to.
  - change (contentSize []) with 0. by rewrite Z.add_0_r.
  - rewrite <- app_comm_cons. cbn [nodesBetween_at].
    rewrite contentSize_cons. destruct (Z.ltb_spec pos to) as [Hlt|Hge].
    + rewrite IH, <- app_assoc. do 2 f_equal. f_equal. lia.
    + pose proof (nodeSize_nonneg n). pose proof (contentSize_nonneg X).
      destruct Y as [|m Y]; [done|]. cbn [nodesBetween_at].
      destruct (Z.ltb_spec (pos + (nodeSize n + contentSize X)) to); [lia|done].
Qed.

Lemma nodesBetween_at_in (X : list Node) pos from to node p :
  (node, p) ∈ nodesBetween_at pos X from to -> node ∈ X.
Proof.
  intros (i & Hi & _)%nodesBetween_at_elem. by eapply list_elem_of_lookup_2.
Qed.

(** ** The locator on clean and on marked nodes *)

Lemma fold_noteMark_clean pos size (ms : list Mark) (acc : MarkMap) :
  cleanMarks ms -> fold_left (noteMark pos size) ms acc = acc.
Proof.
  revert acc. induction ms as [|m ms IH]; intros acc Hclean; [done|].
  cbn [fold_left]. unfold noteMark at 2. rewrite (Hclean m) by left.
  apply IH. intros m' Hm'. apply Hclean. by right.
Qed.

Lemma fold_noteMark_filter pos size (ms : list Mark) (acc : MarkMap) :
  fold_left (noteMark pos size) ms acc
  = fold_left (noteMark pos size) (suggestionMarks ms) acc.
Proof.
  revert acc. unfold suggestionMarks.
  induction ms as [|m ms IH]; intros acc; [done|].
  rewrite filter_cons. cbn [fold_left].
  destruct (decide (isSuggestionName (type_name m) = true)) as [Hs|Hs].
  - cbn [fold_left]. apply IH.
  - unfold noteMark at 2. apply not_true_is_false in Hs. rewrite Hs. apply IH.
Qed.

Lemma collectSuggestions_app (V1 V2 : list (Node * Z)) :
  collectSuggestions (V1 ++ V2)
  = fold_left (fun markRanges '(node, pos) =>
                 fold_left (noteMark pos (nodeSize node)) (marks node) markRanges)
              V2 (collectSuggestions V1).
Proof. unfold collectSuggestions. apply fold_left_app. Qed.

Lemma collect_clean (V : list (Node * Z)) (acc : MarkMap) :
  (forall node pos, (node, pos) ∈ V -> cleanMarks (marks node)) ->
  fold_left (fun markRanges '(node, pos) =>
               fold_left (noteMark pos (nodeSize node)) (marks node) markRanges)
            V acc = acc.
Proof.
  revert acc. induction V as [|[node pos] V IH]; intros acc Hclean; [done|].
  cbn [fold_left]. rewrite fold_noteMark_clean by (apply (Hclean node pos); left).
  apply IH. intros n p Hin. apply (Hclean n p). by right.
Qed.

(** What the locator returns when exactly one walked node wears a
    suggestion mark, and wears only that one. *)
Lemma collect_single (V1 V2 : list (Node * Z)) (b : Node) (pos : Z) (m : Mark) :
  (forall node p, (node, p) ∈ V1 -> cleanMarks (marks node)) ->
  (forall node p, (node, p) ∈ V2 -> cleanMarks (marks node)) ->
  suggestionMarks (marks b) = [m] ->
  isSuggestionName (type_name m) = true ->
  collectSuggestions (V1 ++ (b, pos) :: V2) = [(m, (pos, pos + nodeSize b))].
Proof.
  intros H1 H2 Hb Hm.
  assert (Hmid : fold_left (noteMark pos (nodeSize b)) (marks b) []
                 = [(m, (pos, pos + nodeSize b))]).
  { rewrite fold_noteMark_filter, Hb. cbn [fold_left]. unfold noteMark.
    rewrite Hm. cbn [mapGet default mapSet fst snd].
    pose proof (nodeSize_nonneg b). by rewrite Z.min_id, Z.max_r by lia. }
  rewrite collectSuggestions_app. cbn [fold_left].
  unfold collectSuggestions. rewrite (collect_clean V1) by done.
  rewrite Hmid. by apply collect_clean.
Qed.

(** ** Marks at a position, and marks added to a set *)

Lemma marksAt_from_in (content : list Node) : forall before pos,
  marksAt_from before content pos = []
  \/ (exists b, before = Some b /\ marksAt_from before content pos = marks b)
  \/ (exists n, n ∈ content /\ marksAt_from before content pos = marks n).
Proof.
  induction content as [|n content IH]; intros before pos; cbn [marksAt_from].
  - destruct before as [b|]; [|by left]. right. left. by exists b.
  - destruct (pos <=? 0).
    + destruct before as [b|].
      * right. left. by exists b.
      * right. right. exists n. split; [left|done].
    + destruct (pos <? nodeSize n).
      * right. right. exists n. split; [left|done].
      * destruct (IH (Some n) (pos - nodeSize n)) as [?|[(b & [= <-] & ?)|(n' & ? & ?)]].
        -- by left.
        -- right. right. exists n. split; [left|done].
        -- right. right. exists n'. split; [by right|done].
Qed.

Lemma marksAt_clean (content : list Node) (pos : Z) :
  noSuggestions content -> cleanMarks (marksAt content pos).
Proof.
  intros Hno. unfold marksAt.
  destruct (marksAt_from_in content None pos) as [->|[(b & ? & _)|(n & Hn & ->)]].
  - intros m Hm. by apply elem_of_nil in Hm.
  - done.
  - by apply Hno.
Qed.

Lemma marksAt_from_after (X Y : list Node) (b : Node) : forall before,
  validDoc X = true -> 0 < nodeSize b ->
  marksAt_from before (X ++ b :: Y) (contentSize X + nodeSize b) = marks b.
Proof.
  induction X as [|n X IH]; intros before Hvalid Hb.
  - change (contentSize []) with 0. rewrite Z.add_0_l. cbn [app marksAt_from].
    destruct (Z.leb_spec (nodeSize b) 0); [lia|].
    rewrite Z.ltb_irrefl, Z.sub_diag. destruct Y as [|y Y]; [done|].
    cbn [marksAt_from]. done.
  - rewrite validDoc_cons in Hvalid. apply andb_true_iff in Hvalid as [Hn Hvalid].
    apply Z.ltb_lt in Hn. rewrite <- app_comm_cons, contentSize_cons.
    cbn [marksAt_from]. pose proof (contentSize_nonneg X).
    destruct (Z.leb_spec (nodeSize n + contentSize X + nodeSize b) 0); [lia|].
    destruct (Z.ltb_spec (nodeSize n + contentSize X + nodeSize b) (nodeSize n)); [lia|].
    replace (nodeSize n + contentSize X + nodeSize b - nodeSize n)
      with (contentSize X + nodeSize b) by lia.
    by apply IH.
Qed.

Lemma cleanMarks_sameSet (a b : list Mark) :
  sameSet a b = true -> cleanMarks a -> cleanMarks b.
Proof.
  intros Hs%sameSet_spec Ha m Hm.
  assert (Hin : markSpec m ∈ markSpec <$> a).
  { rewrite Hs. apply list_elem_of_fmap. by exists m. }
  apply list_elem_of_fmap in Hin as (m' & He & Hm').
  change (type_name m) with (markSpec m).1. rewrite He. by apply Ha.
Qed.

Lemma clean_not_sameSet (a b : list Mark) m :
  cleanMarks a -> m ∈ b -> isSuggestionName (type_name m) = true ->
  sameSet a b = false.
Proof.
  intros Ha Hm Hs. destruct (sameSet a b) eqn:Hab; [|done].
  rewrite sameSet_sym in Hab. pose proof (cleanMarks_sameSet _ _ Hab) as Hc.
  exfalso. assert (Hb : cleanMarks b -> False).
  { intros Hb. rewrite (Hb m Hm) in Hs. done. }
  apply Hb. intros m' Hm'. 
  rewrite sameSet_sym in Hab. apply (cleanMarks_sameSet a b); [done|done|done].
Qed.

Lemma clean_not_isInSet (ms : list Mark) m :
  cleanMarks ms -> isSuggestionName (type_name m) = true -> isInSet m ms = false.
Proof.
  intros Hc Hs. destruct (isInSet m ms) eqn:Hin; [|done].
  apply isInSet_spec, list_elem_of_fmap in Hin as (m' & He & Hm').
  apply Hc in Hm'. change (type_name m') with (markSpec m').1 in Hm'.
  rewrite <- He in Hm'. cbn in Hm'. congruence.
Qed.

Section AddToSet.
Context `{Host}.

Lemma suggestionMarks_addToSet_loop (m : Mark) (ms : list Mark) (placed : bool) :
  cleanMarks ms -> isSuggestionName (type_name m) = true ->
  suggestionMarks (addToSet_loop m ms placed) = if placed then [] else [m].
Proof.
  intros Hc Hs. revert placed.
  induction ms as [|o ms IH]; intros placed; cbn [addToSet_loop].
  - unfold suggestionMarks. destruct placed; [done|].
    by rewrite filter_cons_True.
  - assert (Ho : isSuggestionName (type_name o) = false) by (apply Hc; left).
    assert (Hne : String.eqb (type_name m) (type_name o) = false).
    { apply String.eqb_neq. intros He. congruence. }
    assert (IH' : forall placed, suggestionMarks (addToSet_loop m ms placed)
                                 = if placed then [] else [m]).
    { apply IH. intros m' Hm'. apply Hc. by right. }
    rewrite Hne. unfold suggestionMarks in *.
    destruct (negb placed && _)%nat eqn:Hp.
    + apply andb_true_iff in Hp as [Hp _]. destruct placed; [done|].
      rewrite filter_cons_True by done.
      rewrite filter_cons_False by (by rewrite Ho). by rewrite IH'.
    + rewrite filter_cons_False by (by rewrite Ho). apply IH'.
Qed.

Lemma suggestionMarks_addToSet (m : Mark) (ms : list Mark) :
  cleanMarks ms -> isSuggestionName (type_name m) = true ->
  suggestionMarks (addToSet m ms) = [m].
Proof.
  intros Hc Hs. unfold addToSet. rewrite clean_not_isInSet by done.
  by rewrite suggestionMarks_addToSet_loop.
Qed.

Lemma addToSet_loop_spec (m : Mark) (ms ms' : list Mark) (placed : bool) :
  markSpec <$> ms = markSpec <$> ms' ->
  markSpec <$> addToSet_loop m ms placed = markSpec <$> addToSet_loop m ms' placed.
Proof.
  revert ms' placed. induction ms as [|o ms IH]; intros [|o' ms'] placed Heq;
    try done.
  rewrite !fmap_cons in Heq.
  assert (Ho : markSpec o = markSpec o') by congruence.
  assert (Heq' : markSpec <$> ms = markSpec <$> ms') by congruence.
  clear Heq. rename Heq' into Heq.
  assert (Hty : type_name o = type_name o').
  { change (type_name o) with (markSpec o).1. by rewrite Ho. }
  cbn [addToSet_loop]. rewrite Hty.
  destruct (String.eqb (type_name m) (type_name o')); [by apply IH|].
  destruct (negb placed && _)%nat.
  - rewrite !fmap_cons, Ho. do 2 f_equal. by apply IH.
  - rewrite !fmap_cons, Ho. f_equal. by apply IH.
Qed.

Lemma addToSet_sameSet (m : Mark) (ms ms' : list Mark) :
  sameSet ms ms' = true -> sameSet (addToSet m ms) (addToSet m ms') = true.
Proof.
  intros Hs%sameSet_spec. apply sameSet_spec. unfold addToSet.
  assert (Hin : isInSet m ms = isInSet m ms').
  { destruct (isInSet m ms) eqn:H1, (isInSet m ms') eqn:H2; try done.
    - apply isInSet_spec in H1. rewrite Hs in H1. apply isInSet_spec in H1. congruence.
    - apply isInSet_spec in H2. rewrite <- Hs in H2. apply isInSet_spec in H2. congruence. }
  rewrite <- Hin. destruct (isInSet m ms); [done|]. by apply addToSet_loop_spec.
Qed.

End AddToSet.


(** ** Typing under tracking *)

Lemma viewCell_sameSet (c c' : Cell) :
  viewCell c = viewCell c' -> sameSet c.2 c'.2 = true.
Proof. unfold viewCell. intros Hv. apply sameSet_spec. congruence. Qed.

Lemma viewCell_fst (cs : list Cell) : (viewCell <$> cs).*1 = cs.*1.
Proof. rewrite <- list_fmap_compose. by apply list_fmap_ext. Qed.

Lemma parts_take {A} (a b c : list A) (k : nat) :
  length a = k -> take k (a ++ b ++ c) = a.
Proof. intros <-. apply take_app_length. Qed.

Lemma parts_mid {A} (a b c : list A) (k n : nat) :
  length a = k -> length b = n -> drop k (take (k + n) (a ++ b ++ c)) = b.
Proof.
  intros Ha Hb. rewrite app_assoc, take_app_length' by (rewrite length_app; lia).
  by apply drop_app_length'.
Qed.

Lemma parts_drop {A} (a b c : list A) (k n : nat) :
  length a = k -> length b = n -> drop (k + n) (a ++ b ++ c) = c.
Proof.
  intros Ha Hb. rewrite app_assoc. apply drop_app_length'. rewrite length_app. lia.
Qed.

Section Typing.
Context `{Host}.

(** The document after text was inserted at [p] and the transformer marked
    it: the typed text is one node, wearing the new mark as its only
    suggestion mark, between what was before and what was after [p]. *)
Lemma typed_doc_borders (d : list Node) (p : Z) (txt : list N) (M : list Mark)
  (m1 : Mark) (t : Transaction) :
  0 <= p <= contentSize d -> txt <> [] -> cleanMarks M ->
  isSuggestionName (type_name m1) = true ->
  (forall (i : nat) c, cells d !! i = Some c ->
     Z.of_nat i = p - 1 -> cleanMarks c.2) ->
  (forall (i : nat) c, cells d !! i = Some c ->
     Z.of_nat i = p -> sameSet (addToSet m1 M) c.2 = false) ->
  tr_doc t = applyStep (ReplaceStep p p [{| text := txt; marks := M |}]) d ->
  exists L1 R1 A1,
    tr_doc (addMark p (p + Z.of_nat (length txt)) m1 t)
    = group L1 ++ [{| text := txt; marks := A1 |}] ++ group R1
    /\ viewCell <$> L1 = take (Z.to_nat p) (view d)
    /\ viewCell <$> R1 = drop (Z.to_nat p) (view d)
    /\ length L1 = Z.to_nat p
    /\ suggestionMarks A1 = [m1]
    /\ (forall c, last L1 = Some c -> cleanMarks c.2)
    /\ (forall c, head R1 = Some c ->
          exists c', cells d !! Z.to_nat p = Some c'
                     /\ sameSet c.2 c'.2 = true).
Proof.
  intros Hp Htxt HM Hm1 Hclean HnotR Hdoc.
  set (pn := Z.to_nat p). set (n := length txt).
  set (V := view d). set (T0 := (fun u => (u, M)) <$> txt).
  set (X' := cells (tr_doc t)).
  assert (HlenV : (pn <= length V)%nat).
  { pose proof (length_view d). unfold V, pn. lia. }
  assert (HlenA : length (take pn V) = pn) by (rewrite length_take; lia).
  assert (HlenT : length (viewCell <$> T0) = n).
  { unfold T0. by rewrite !length_fmap. }
  assert (HX : viewCell <$> X' = take pn V ++ (viewCell <$> T0) ++ drop pn V).
  { change (viewCell <$> X') with (view (tr_doc t)). rewrite Hdoc, view_replace.
    unfold replaceCells, view at 2. rewrite cells_cons. cbn [text marks cells flat_map].
    by rewrite app_nil_r. }
  assert (Hto : Z.to_nat (p + Z.of_nat n) = (pn + n)%nat) by (unfold pn; lia).
  set (L1 := take pn X'). set (mid := sliceList p (p + Z.of_nat n) X').
  set (R1 := drop (pn + n) X').
  assert (HvL : viewCell <$> L1 = take pn V).
  { unfold L1. rewrite fmap_take, HX. by apply parts_take. }
  assert (Hvmid : viewCell <$> mid = viewCell <$> T0).
  { unfold mid, sliceList. rewrite Hto. fold pn. rewrite fmap_drop, fmap_take, HX.
    by apply parts_mid. }
  assert (HvR : viewCell <$> R1 = drop pn V).
  { unfold R1. rewrite fmap_drop, HX. by apply parts_drop. }
  assert (HlenL : length L1 = pn).
  { rewrite <- (length_fmap viewCell), HvL. done. }
  assert (Hmidlen : length mid = n).
  { rewrite <- (length_fmap viewCell), Hvmid. done. }
  assert (Hmidsame : forall c, c ∈ mid -> sameSet c.2 M = true).
  { intros c Hc.
    assert (Hin : viewCell c ∈ viewCell <$> T0).
    { rewrite <- Hvmid. apply list_elem_of_fmap. by exists c. }
    apply list_elem_of_fmap in Hin as (c0 & Hv & Hc0).
    unfold T0 in Hc0. apply list_elem_of_fmap in Hc0 as (u & -> & _).
    by apply viewCell_sameSet in Hv. }
  assert (Hmidclean : forall c, c ∈ mid -> cleanMarks c.2).
  { intros c Hc. apply (cleanMarks_sameSet M); [|done].
    rewrite sameSet_sym. by apply Hmidsame. }
  assert (Hmidtext : mid.*1 = txt).
  { rewrite <- viewCell_fst, Hvmid, viewCell_fst. unfold T0.
    rewrite <- list_fmap_compose. by rewrite list_fmap_id. }
  assert (Hn : (0 < n)%nat).
  { unfold n. destruct txt; [done|]. cbn. lia. }
  destruct (last mid) as [cl|] eqn:Hlast.
  2:{ apply last_None in Hlast. rewrite Hlast in Hmidlen. cbn in Hmidlen. lia. }
  set (g := fun c : Cell => (c.1, addToSet m1 c.2)).
  set (A1 := addToSet m1 cl.2).
  assert (HA1 : suggestionMarks A1 = [m1]).
  { apply suggestionMarks_addToSet; [|done]. apply Hmidclean.
    by apply last_Some_elem_of. }
  assert (HA1in : m1 ∈ A1).
  { assert (Hin : m1 ∈ suggestionMarks A1) by (rewrite HA1; left).
    unfold suggestionMarks in Hin. by apply list_elem_of_filter in Hin as [_ ?]. }
  assert (HborderL : forall c, last L1 = Some c -> cleanMarks c.2).
  { intros c Hl. rewrite last_lookup, HlenL in Hl.
    destruct pn as [|k] eqn:Hpn; [by destruct L1|]. cbn [pred] in Hl.
    assert (Hv : (viewCell <$> L1) !! k = Some (viewCell c)).
    { by rewrite list_lookup_fmap, Hl. }
    rewrite HvL, lookup_take_lt in Hv by lia.
    unfold V, view in Hv. apply list_lookup_fmap_Some in Hv as (c' & Hv & Hc').
    apply (cleanMarks_sameSet c'.2).
    - symmetry in Hv. by apply viewCell_sameSet in Hv.
    - apply (Hclean k); [done|]. unfold pn in Hpn. lia. }
  assert (HborderR : forall c, head R1 = Some c ->
            exists c', cells d !! pn = Some c' /\ sameSet c.2 c'.2 = true).
  { intros c Hh. rewrite head_lookup in Hh.
    assert (Hv : (viewCell <$> R1) !! 0%nat = Some (viewCell c)).
    { by rewrite list_lookup_fmap, Hh. }
    rewrite HvR, lookup_drop, Nat.add_0_r in Hv.
    unfold V, view in Hv. apply list_lookup_fmap_Some in Hv as (c' & Hv & Hc').
    exists c'. split; [done|]. by apply viewCell_sameSet in Hv. }
  assert (HnextR : forall c, head R1 = Some c -> sameSet A1 c.2 = false).
  { intros c Hh. destruct (HborderR c Hh) as (c' & Hc' & Hsame).
    rewrite sameSet_sym in Hsame.
    apply (sameSet_trans_false _ c'.2); [|done].
    destruct (sameSet A1 c'.2) eqn:HA; [exfalso|done].
    assert (Hcl : sameSet (addToSet m1 M) A1 = true).
    { unfold A1. apply addToSet_sameSet. rewrite sameSet_sym.
      apply Hmidsame. by apply last_Some_elem_of. }
    pose proof (sameSet_trans _ _ _ Hcl HA) as Hjoin.
    rewrite (HnotR pn c' Hc') in Hjoin; [done|]. unfold pn. lia. }
  exists L1, R1, A1.
  split; [|by repeat split].
  (* the mark is added, and the nodes are rebuilt *)
  unfold addMark. fold X' n mid.
  assert (Hex : existsb (fun c : Cell => negb (isInSet m1 c.2)) mid = true).
  { apply existsb_exists. exists cl. split.
    - apply list_elem_of_In. by apply last_Some_elem_of.
    - rewrite clean_not_isInSet; [done| |done]. apply Hmidclean.
      by apply last_Some_elem_of. }
  rewrite Hex. cbn [step tr_doc]. unfold applyStep. cbn [applyStepCells].
  fold X' g. rewrite mapRange_split by lia. fold pn mid. rewrite Hto. fold R1 L1.
  assert (Hrun : group (g <$> mid) = [{| text := txt; marks := A1 |}]).
  { rewrite (group_run (g <$> mid) (g cl)).
    - cbn [snd g]. f_equal. f_equal. 
      rewrite <- list_fmap_compose. rewrite <- Hmidtext. by apply list_fmap_ext.
    - by rewrite fmap_last, Hlast.
    - intros c (c' & -> & Hc')%list_elem_of_fmap. cbn [g snd].
      apply addToSet_sameSet. apply (sameSet_trans _ M); [by apply Hmidsame|].
      rewrite sameSet_sym. apply Hmidsame. by apply last_Some_elem_of. }
  assert (HlastT : last (g <$> mid) = Some (g cl)) by (by rewrite fmap_last, Hlast).
  assert (HheadT : exists c0, head (g <$> mid) = Some (g c0) /\ c0 ∈ mid).
  { destruct mid as [|c0 mid']; [done|]. exists c0. split; [done|left]. }
  destruct HheadT as (c0 & HheadT & Hc0).
  rewrite group_app.
  - rewrite group_app, Hrun; [done|].
    intros c c' Hl Hh. rewrite HlastT in Hl. injection Hl as <-.
    cbn [g snd]. fold A1. by apply HnextR.
  - intros c c' Hl Hh. rewrite head_app, HheadT in Hh. injection Hh as <-.
    cbn [g snd].
    apply (clean_not_sameSet c.2 (addToSet m1 c0.2) m1); [by apply HborderL| |done].
    assert (Hin : m1 ∈ suggestionMarks (addToSet m1 c0.2)).
    { rewrite suggestionMarks_addToSet; [left| |done]. by apply Hmidclean. }
    unfold suggestionMarks in Hin. by apply list_elem_of_filter in Hin as [_ ?].
Qed.

(** The same where no pending mark touches the position. *)
Lemma typed_doc (d : list Node) (p : Z) (txt : list N) (M : list Mark)
  (m1 : Mark) (t : Transaction) :
  0 <= p <= contentSize d -> txt <> [] -> cleanMarks M ->
  isSuggestionName (type_name m1) = true ->
  (forall (i : nat) c, cells d !! i = Some c ->
     p - 1 <= Z.of_nat i <= p -> cleanMarks c.2) ->
  tr_doc t = applyStep (ReplaceStep p p [{| text := txt; marks := M |}]) d ->
  exists L1 R1 A1,
    tr_doc (addMark p (p + Z.of_nat (length txt)) m1 t)
    = group L1 ++ [{| text := txt; marks := A1 |}] ++ group R1
    /\ viewCell <$> L1 = take (Z.to_nat p) (view d)
    /\ viewCell <$> R1 = drop (Z.to_nat p) (view d)
    /\ length L1 = Z.to_nat p
    /\ suggestionMarks A1 = [m1]
    /\ (forall c, last L1 = Some c -> cleanMarks c.2)
    /\ (forall c, head R1 = Some c -> cleanMarks c.2).
Proof.
  intros Hp Htxt HM Hm1 Hclean Hdoc.
  assert (Hin : m1 ∈ addToSet m1 M).
  { assert (Hs : m1 ∈ suggestionMarks (addToSet m1 M)).
    { rewrite suggestionMarks_addToSet by done. left. }
    unfold suggestionMarks in Hs. by apply list_elem_of_filter in Hs as [_ ?]. }
  destruct (typed_doc_borders d p txt M m1 t Hp Htxt HM Hm1)
    as (L1 & R1 & A1 & Heq & HL & HR & Hlen & HA & HbL & HbR); [| |done|].
  - intros i c Hi Hr. apply (Hclean i c Hi). lia.
  - intros i c Hi Hr. rewrite sameSet_sym.
    apply (clean_not_sameSet c.2 (addToSet m1 M) m1); [|done|done].
    apply (Hclean i c Hi). lia.
  - exists L1, R1, A1. repeat split; try done.
    intros c Hh. destruct (HbR c Hh) as (c' & Hc' & Hsame).
    rewrite sameSet_sym in Hsame. apply (cleanMarks_sameSet c'.2); [done|].
    apply (Hclean (Z.to_nat p) c' Hc'). lia.
Qed.

End Typing.


Lemma find_clean (ms : list Mark) :
  cleanMarks ms -> find (fun m => isSuggestionName (type_name m)) ms = None.
Proof.
  induction ms as [|m ms IH]; intros Hc; [done|].
  cbn [find]. rewrite (Hc m) by left. apply IH. intros m' Hm'. apply Hc. by right.
Qed.

Lemma find_suggestionMarks (ms : list Mark) m :
  suggestionMarks ms = [m] ->
  find (fun m => isSuggestionName (type_name m)) ms = Some m.
Proof.
  unfold suggestionMarks. induction ms as [|o ms IH]; intros Hf; [done|].
  rewrite filter_cons in Hf. cbn [find].
  destruct (decide (isSuggestionName (type_name o) = true)) as [Ho|Ho].
  - rewrite Ho. congruence.
  - apply not_true_is_false in Ho. rewrite Ho. by apply IH.
Qed.

Lemma view_app (a b : list Node) : view (a ++ b) = view a ++ view b.
Proof. unfold view. by rewrite cells_app, fmap_app. Qed.

Lemma nodesBetween_at_before (X : list Node) : forall pos from to,
  pos + contentSize X <= from -> nodesBetween_at pos X from to = [].
Proof.
  induction X as [|n X IH]; intros pos from to Hle; [done|].
  rewrite contentSize_cons in Hle. pose proof (contentSize_nonneg X).
  pose proof (nodeSize_nonneg n). cbn [nodesBetween_at].
  destruct (pos <? to); [|done].
  destruct (Z.ltb_spec from (pos + nodeSize n)); [lia|].
  cbn [app]. apply IH. lia.
Qed.

Lemma nodesBetween_at_after (X : list Node) pos from to :
  to <= pos -> nodesBetween_at pos X from to = [].
Proof.
  intros Hle. destruct X as [|n X]; [done|]. cbn [nodesBetween_at].
  by destruct (Z.ltb_spec pos to); [lia|].
Qed.

Section TypingEditor.
Context `{Host}.

Lemma forEachIndexed_singleton {A S} (f : nat -> A -> S -> S) (x : A) (s : S) :
  forEachIndexed f [x] s = f 0%nat x s.
Proof. done. Qed.

Lemma appendTransaction_single (t : Transaction) (step_ : Step)
  (oldState newState : EditorState) (next : nat) :
  tr_history t = false -> tr_meta t = None -> tr_steps t = [step_] ->
  inSuggestionMode (plugin oldState) = true ->
  let l := processStep newState (mergeMeta (plugin oldState) None) [t] 0 0 step_
             {| tr := state_tr newState; changed := false;
                intermediateTr := doc oldState; lastStep := None; fresh := next |} in
  appendTransaction [t] oldState newState next
  = (if changed l then Some (tr l) else None, fresh l).
Proof.
  intros Hh Hm Hs Hon l. subst l. unfold appendTransaction, appendLoop.
  rewrite forEachIndexed_singleton. unfold processTransaction.
  rewrite Hh, Hm, Hs.
  assert (Hin : meta_inSuggestionMode (mergeMeta (plugin oldState) None) = true)
    by done.
  assert (Hskip : meta_skipSuggestionOperation (mergeMeta (plugin oldState) None)
                  = false) by done.
  rewrite Hin, Hskip. cbn [negb]. by rewrite forEachIndexed_singleton.
Qed.

(** What the transformer appends when text is typed where no suggestion is
    active: a new pending-insert mark over the typed range. *)
Lemma appendTransaction_typed (state newState : EditorState) (txt : list N)
  (p : Z) (next : nat) :
  txt <> [] -> inSuggestionMode (plugin state) = true ->
  cleanMarks (marksAt (doc state) p) ->
  appendTransaction [insertText txt p state] state newState next
  = (Some (addMark p (p + Z.of_nat (length txt))
                   (createMark next "suggestion_insert" (mergeMeta (plugin state) None))
                   (setMeta skipMeta (state_tr newState))),
     S next).
Proof.
  intros Htxt Hon Hclean. destruct txt as [|u us]; [done|].
  set (node := {| text := u :: us; marks := marksAt (doc state) p |}).
  rewrite (appendTransaction_single _ (ReplaceStep p p [node])) by done.
  unfold processStep.
  assert (Hex : existingSuggestionMarkOf
                  {| tr := state_tr newState; changed := false;
                     intermediateTr := doc state; lastStep := None; fresh := next |}
                  (ReplaceStep p p [node]) = None).
  { unfold existingSuggestionMarkOf, intermediateDoc.
    cbn [lastStep intermediateTr step_from]. by apply find_clean. }
  assert (Hrem : removedSliceOf
                   {| tr := state_tr newState; changed := false;
                      intermediateTr := doc state; lastStep := None; fresh := next |}
                   (ReplaceStep p p [node]) = []).
  { unfold removedSliceOf, docSlice. cbn [step_from step_to]. by rewrite Z.ltb_irrefl. }
  assert (Hadd : addedSliceSizeOf
                   {| tr := state_tr newState; changed := false;
                      intermediateTr := doc state; lastStep := None; fresh := next |}
                   (ReplaceStep p p [node]) = Z.of_nat (length (u :: us))).
  { unfold addedSliceSizeOf. cbn [isReplaceStep step_sliceSize].
    rewrite contentSize_cons. change (contentSize []) with 0. unfold nodeSize, node.
    cbn [text]. lia. }
  rewrite Hex, Hrem, Hadd. change (contentSize []) with 0.
  rewrite Z.ltb_irrefl. cbn [andb].
  destruct (Z.ltb_spec 0 (Z.of_nat (length (u :: us)))) as [_|Hle];
    [|cbn [length] in Hle; lia].
  cbn [tr changed fresh step_from]. by rewrite !Z.add_0_r.
Qed.

(** The editor after [txt] was typed at [p], where no suggestion is active,
    the character before wears no pending mark and the one after does not
    have the markup of the typed text. *)
Lemma typeText_doc_borders (e : Editor) (txt : list N) (p : Z) :
  inSuggestionMode (plugin (ed_state e)) = true ->
  txt <> [] -> 0 <= p <= contentSize (doc (ed_state e)) ->
  cleanMarks (marksAt (doc (ed_state e)) p) ->
  (forall (i : nat) c, cells (doc (ed_state e)) !! i = Some c ->
     Z.of_nat i = p - 1 -> cleanMarks c.2) ->
  (forall (i : nat) c, cells (doc (ed_state e)) !! i = Some c ->
     Z.of_nat i = p ->
     sameSet (addToSet (insertMarkOf e) (marksAt (doc (ed_state e)) p)) c.2 = false) ->
  exists L1 R1 A1,
    doc (ed_state (typeText txt p e))
    = group L1 ++ [{| text := txt; marks := A1 |}] ++ group R1
    /\ viewCell <$> L1 = take (Z.to_nat p) (view (doc (ed_state e)))
    /\ viewCell <$> R1 = drop (Z.to_nat p) (view (doc (ed_state e)))
    /\ length L1 = Z.to_nat p
    /\ suggestionMarks A1 = [insertMarkOf e]
    /\ (forall c, last L1 = Some c -> cleanMarks c.2)
    /\ (forall c, head R1 = Some c ->
          exists c', cells (doc (ed_state e)) !! Z.to_nat p = Some c'
                     /\ sameSet c.2 c'.2 = true)
    /\ plugin (ed_state (typeText txt p e)) = plugin (ed_state e)
    /\ ed_fresh (typeText txt p e) = S (ed_fresh e).
Proof.
  intros Hon Htxt Hp HM HL HR.
  unfold typeText, dispatchTransaction.
  rewrite appendTransaction_typed by done.
  cbn [ed_state ed_fresh applyPlain doc plugin].
  set (newState := applyPlain (insertText txt p (ed_state e)) (ed_state e)).
  destruct (typed_doc_borders (doc (ed_state e)) p txt (marksAt (doc (ed_state e)) p)
              (insertMarkOf e) (setMeta skipMeta (state_tr newState)))
    as (L1 & R1 & A1 & Hdoc & HvL & HvR & Hlen & HA & HbL & HbR); try done.
  { unfold newState. destruct txt; [done|]. reflexivity. }
  exists L1, R1, A1. unfold insertMarkOf in *. rewrite Hdoc.
  repeat split; try done.
  unfold pluginApply, addMark.
  destruct (existsb _ _); cbn [step setMeta state_tr tr_pluginMeta];
    unfold newState; destruct txt; done.
Qed.

(** The same where no pending mark touches the position. *)
Lemma typeText_doc (e : Editor) (txt : list N) (p : Z) :
  inSuggestionMode (plugin (ed_state e)) = true ->
  txt <> [] -> 0 <= p <= contentSize (doc (ed_state e)) ->
  cleanAround (doc (ed_state e)) p ->
  exists L1 R1 A1,
    doc (ed_state (typeText txt p e))
    = group L1 ++ [{| text := txt; marks := A1 |}] ++ group R1
    /\ viewCell <$> L1 = take (Z.to_nat p) (view (doc (ed_state e)))
    /\ viewCell <$> R1 = drop (Z.to_nat p) (view (doc (ed_state e)))
    /\ length L1 = Z.to_nat p
    /\ suggestionMarks A1 = [insertMarkOf e]
    /\ (forall c, last L1 = Some c -> cleanMarks c.2)
    /\ (forall c, head R1 = Some c -> cleanMarks c.2)
    /\ plugin (ed_state (typeText txt p e)) = plugin (ed_state e)
    /\ ed_fresh (typeText txt p e) = S (ed_fresh e).
Proof.
  intros Hon Htxt Hp [HM Hcells].
  assert (Hin : insertMarkOf e
                ∈ addToSet (insertMarkOf e) (marksAt (doc (ed_state e)) p)).
  { assert (Hs : insertMarkOf e
                 ∈ suggestionMarks
                     (addToSet (insertMarkOf e) (marksAt (doc (ed_state e)) p))).
    { rewrite suggestionMarks_addToSet by done. left. }
    unfold suggestionMarks in Hs. by apply list_elem_of_filter in Hs as [_ ?]. }
  destruct (typeText_doc_borders e txt p Hon Htxt Hp HM)
    as (L1 & R1 & A1 & Hdoc & HvL & HvR & Hlen & HA & HbL & HbR & Hplug & Hfresh).
  - intros i c Hi Hr. apply (Hcells i c Hi). lia.
  - intros i c Hi Hr. rewrite sameSet_sym.
    apply (clean_not_sameSet c.2 _ (insertMarkOf e)); [|done|done].
    apply (Hcells i c Hi). lia.
  - exists L1, R1, A1. repeat split; try done.
    intros c Hh. destruct (HbR c Hh) as (c' & Hc' & Hsame).
    rewrite sameSet_sym in Hsame. apply (cleanMarks_sameSet c'.2); [done|].
    apply (Hcells (Z.to_nat p) c' Hc'). lia.
Qed.

End TypingEditor.


Lemma cleanCells_view (a b : list Cell) :
  viewCell <$> a = viewCell <$> b -> cleanCells b -> cleanCells a.
Proof.
  intros Hv Hb c Hc.
  assert (Hin : viewCell c ∈ viewCell <$> b).
  { rewrite <- Hv. apply list_elem_of_fmap. by exists c. }
  apply list_elem_of_fmap in Hin as (c' & He & Hc').
  apply (cleanMarks_sameSet c'.2); [|by apply Hb].
  symmetry in He. by apply viewCell_sameSet.
Qed.

Lemma noSuggestions_cells (d : list Node) : noSuggestions d -> cleanCells (cells d).
Proof.
  intros Hno c Hc. apply list_elem_of_lookup in Hc as (i & Hi).
  destruct (cells_lookup_node _ _ _ Hi) as (j & n & Hj & -> & _).
  apply Hno. by eapply list_elem_of_lookup_2.
Qed.

Lemma noSuggestions_group (cs : list Cell) : cleanCells cs -> noSuggestions (group cs).
Proof.
  intros Hc n Hn.
  destruct (node_has_cell _ n (validDoc_group cs) Hn) as (p & c & Hp & <-).
  apply (cleanCells_view (cells (group cs)) cs); [apply view_group|done|].
  by eapply list_elem_of_lookup_2.
Qed.

Lemma cleanCells_take (cs : list Cell) k : cleanCells cs -> cleanCells (take k cs).
Proof. intros Hc c Hin. apply Hc. by eapply subseteq_take. Qed.

Lemma cleanCells_drop (cs : list Cell) k : cleanCells cs -> cleanCells (drop k cs).
Proof. intros Hc c Hin. apply Hc. by eapply subseteq_drop. Qed.

Lemma noSuggestions_cleanAround (d : list Node) (p : Z) :
  noSuggestions d -> cleanAround d p.
Proof.
  intros Hno. split; [by apply marksAt_clean|].
  intros i c Hi _. apply (noSuggestions_cells d Hno). by eapply list_elem_of_lookup_2.
Qed.

Lemma cleanMarksb_spec (ms : list Mark) : cleanMarksb ms = true -> cleanMarks ms.
Proof.
  unfold cleanMarksb, cleanMarks. rewrite forallb_forall. intros Hall m Hm.
  apply list_elem_of_In in Hm. specialize (Hall m Hm).
  by destruct (isSuggestionName (type_name m)).
Qed.

Lemma noSuggestionsb_spec (d : list Node) :
  noSuggestionsb d = true -> noSuggestions d.
Proof.
  unfold noSuggestionsb. rewrite forallb_forall. intros Hall n Hn.
  apply cleanMarksb_spec, Hall. by apply list_elem_of_In.
Qed.

Section TypingClaims.
Context `{Host}.

(** The locator finds the typed text, and only it, in the typed range. *)
Lemma typeText_found (e : Editor) (txt : list N) (p : Z) :
  inSuggestionMode (plugin (ed_state e)) = true ->
  txt <> [] -> 0 <= p <= contentSize (doc (ed_state e)) ->
  cleanMarks (marksAt (doc (ed_state e)) p) ->
  (forall (i : nat) c, cells (doc (ed_state e)) !! i = Some c ->
     Z.of_nat i = p - 1 -> cleanMarks c.2) ->
  (forall (i : nat) c, cells (doc (ed_state e)) !! i = Some c ->
     Z.of_nat i = p ->
     sameSet (addToSet (insertMarkOf e) (marksAt (doc (ed_state e)) p)) c.2 = false) ->
  findSuggestionsInRange (ed_state (typeText txt p e)) p (p + Z.of_nat (length txt))
  = [{| mr_mark := insertMarkOf e; mr_from := p;
        mr_to := p + Z.of_nat (length txt) |}].
Proof.
  intros Hon Htxt Hp HM HbL HbR.
  destruct (typeText_doc_borders e txt p Hon Htxt Hp HM HbL HbR)
    as (L1 & R1 & A1 & Hdoc & HL & HR & Hlen & HA & _).
  assert (Hn : 0 < Z.of_nat (length txt)) by (destruct txt; [done|cbn; lia]).
  unfold findSuggestionsInRange. rewrite Hdoc. unfold nodesBetween.
  rewrite nodesBetween_at_app, nodesBetween_at_before
    by (rewrite contentSize_group; lia).
  rewrite contentSize_group, Hlen. cbn [app nodesBetween_at].
  replace (0 + Z.of_nat (Z.to_nat p)) with p by lia.
  unfold nodeSize at 1 2. cbn [text].
  destruct (Z.ltb_spec p (p + Z.of_nat (length txt))); [|lia].
  rewrite nodesBetween_at_after by lia. cbn [app].
  pose proof (collect_single [] [] {| text := txt; marks := A1 |} p (insertMarkOf e))
    as Hone. cbn [app] in Hone. rewrite Hone; try done.
  - intros ? ? Hin. by apply elem_of_nil in Hin.
  - intros ? ? Hin. by apply elem_of_nil in Hin.
Qed.

(** In a document without empty text nodes, the marks active at a position
    behind the start of the document are those of the character before
    it. *)
Lemma marksAt_before (d : list Node) : forall (before : option Node) (p : Z) c,
  validDoc d = true -> 0 < p ->
  cells d !! Z.to_nat (p - 1) = Some c ->
  marksAt_from before d p = c.2.
Proof.
  induction d as [|n d IH]; intros before p c Hvalid Hp Hc; [done|].
  rewrite validDoc_cons in Hvalid. apply andb_true_iff in Hvalid as [Hn Hvalid].
  apply Z.ltb_lt in Hn. cbn [marksAt_from].
  destruct (Z.leb_spec p 0) as [?|_]; [lia|].
  rewrite cells_cons in Hc.
  assert (Hlen : Z.of_nat (length (map (fun u => (u, marks n)) (text n))) = nodeSize n).
  { rewrite length_map. done. }
  destruct (Z.ltb_spec p (nodeSize n)) as [Hlt|Hge].
  - rewrite lookup_app_l in Hc by lia.
    change (map ?g ?l) with (g <$> l) in Hc.
    by apply list_lookup_fmap_Some in Hc as (u & -> & _).
  - destruct (decide (p = nodeSize n)) as [->|Hne].
    + rewrite lookup_app_l in Hc by lia.
      change (map ?g ?l) with (g <$> l) in Hc.
      apply list_lookup_fmap_Some in Hc as (u & -> & _).
      rewrite Z.sub_diag. destruct d as [|n' d]; [done|]. done.
    + rewrite lookup_app_r in Hc by lia.
      apply IH; [done|lia|].
      rewrite <- Hc. f_equal. lia.
Qed.

(** C8, as the code has it.  Where no pending mark is active at the typing
    position and the character after it does not have the markup the typed
    text gets (the marks active at the position together with a mark equal
    to the new one), typing text under tracking wraps exactly the typed range
    in one new pending-insert mark, and rejecting that range gives back the
    content the document had before: the same code units with the same
    marks at every position. *)
Theorem typed_then_rejected (e : Editor) (txt : list N) (p : Z) :
  inSuggestionMode (plugin (ed_state e)) = true ->
  txt <> [] -> 0 <= p <= contentSize (doc (ed_state e)) ->
  validDoc (doc (ed_state e)) = true ->
  cleanMarksb (marksAt (doc (ed_state e)) p) = true ->
  joinsNext (doc (ed_state e)) p (insertMarkOf e) = false ->
  let to := p + Z.of_nat (length txt) in
  let typed := typeText txt p e in
  let result := runCommand (rejectSuggestionsInRange p to) true typed in
  findSuggestionsInRange (ed_state typed) p to
  = [{| mr_mark := insertMarkOf e; mr_from := p; mr_to := to |}]
  /\ type_name (insertMarkOf e) = "suggestion_insert"
  /\ docText (doc (ed_state typed))
     = take (Z.to_nat p) (docText (doc (ed_state e))) ++ txt
         ++ drop (Z.to_nat p) (docText (doc (ed_state e)))
  /\ result.1 = true
  /\ view (doc (ed_state result.2)) = view (doc (ed_state e))
  /\ docText (doc (ed_state result.2)) = docText (doc (ed_state e)).
Proof.
  intros Hon Htxt Hp Hvalid HM%cleanMarksb_spec Hjoin to typed result.
  assert (HbL : forall (i : nat) c, cells (doc (ed_state e)) !! i = Some c ->
            Z.of_nat i = p - 1 -> cleanMarks c.2).
  { intros i c Hi Hr.
    rewrite <- (marksAt_before (doc (ed_state e)) None p c); [done|done|lia|].
    rewrite <- Hi. f_equal. lia. }
  assert (HbR : forall (i : nat) c, cells (doc (ed_state e)) !! i = Some c ->
            Z.of_nat i = p ->
            sameSet (addToSet (insertMarkOf e) (marksAt (doc (ed_state e)) p)) c.2
            = false).
  { intros i c Hi Hr. unfold joinsNext in Hjoin.
    replace (Z.to_nat p) with i in Hjoin by lia. by rewrite Hi in Hjoin. }
  pose proof (typeText_found e txt p Hon Htxt Hp HM HbL HbR) as Hfound.
  destruct (typeText_doc_borders e txt p Hon Htxt Hp HM HbL HbR)
    as (L1 & R1 & A1 & Hdoc & HL & HR & Hlen & HA & _).
  fold typed to in Hfound, Hdoc.
  assert (Hview : view (doc (ed_state typed))
                  = take (Z.to_nat p) (view (doc (ed_state e)))
                      ++ view [{| text := txt; marks := A1 |}]
                      ++ drop (Z.to_nat p) (view (doc (ed_state e)))).
  { by rewrite Hdoc, !view_app, !view_group, HL, HR. }
  assert (Hlen1 : length (take (Z.to_nat p) (view (doc (ed_state e)))) = Z.to_nat p).
  { rewrite <- HL, length_fmap. done. }
  assert (Hlen2 : length (view [{| text := txt; marks := A1 |}]) = length txt).
  { unfold view. rewrite cells_cons. cbn [text cells flat_map].
    by rewrite app_nil_r, !length_fmap. }
  assert (Hresult : result
                    = (true, dispatchTransaction
                               (resolveSuggestions reject (ed_state typed)
                                  [{| mr_mark := insertMarkOf e; mr_from := p;
                                      mr_to := to |}]) typed)).
  { unfold result, runCommand, rejectSuggestionsInRange, processSuggestionsInRange.
    by rewrite Hfound. }
  assert (Hfinal : view (doc (ed_state result.2)) = view (doc (ed_state e))).
  { rewrite Hresult. cbn [snd].
    rewrite dispatchTransaction_skip by apply tr_meta_resolveSuggestions.
    cbn [ed_state applyPlain doc]. unfold resolveSuggestions. cbn [fold_left].
    unfold processSuggestion. cbn [mr_mark mr_from mr_to insertMarkOf createMark
                                    type_name markToDelete].
    rewrite String.eqb_refl. cbn [setMeta state_tr tr_mapping mapping_map fold_left].
    rewrite view_delete. cbn [setMeta state_tr tr_doc]. rewrite Hview.
    replace (Z.to_nat to) with (Z.to_nat p + length txt)%nat by (unfold to; lia).
    rewrite parts_take, parts_drop by done. apply take_drop. }
  split; [done|]. split; [done|]. split; [|split; [by rewrite Hresult|]].
  - rewrite !docText_view, Hview, !fmap_app, fmap_take, fmap_drop. do 2 f_equal.
    unfold view. rewrite cells_cons. cbn [text cells flat_map].
    rewrite app_nil_r, <- !list_fmap_compose. by rewrite list_fmap_id.
  - split; [done|]. by rewrite !docText_view, Hfinal.
Qed.

End TypingClaims.


Section TypingTwice.
Context `{Host}.

(** A character typed right behind a pending insertion is not marked again:
    the transformer appends nothing. *)
Lemma appendTransaction_inherited (state newState : EditorState) (u : N) (p : Z)
  (next : nat) (m : Mark) :
  inSuggestionMode (plugin state) = true ->
  suggestionMarks (marksAt (doc state) p) = [m] ->
  appendTransaction [insertText [u] p state] state newState next = (None, next).
Proof.
  intros Hon Hm.
  set (node := {| text := [u]; marks := marksAt (doc state) p |}).
  rewrite (appendTransaction_single _ (ReplaceStep p p [node])) by done.
  unfold processStep.
  assert (Hex : existingSuggestionMarkOf
                  {| tr := state_tr newState; changed := false;
                     intermediateTr := doc state; lastStep := None; fresh := next |}
                  (ReplaceStep p p [node]) = Some m).
  { unfold existingSuggestionMarkOf, intermediateDoc.
    cbn [lastStep intermediateTr step_from]. by apply find_suggestionMarks. }
  assert (Hadd : addedSliceSizeOf
                   {| tr := state_tr newState; changed := false;
                      intermediateTr := doc state; lastStep := None; fresh := next |}
                   (ReplaceStep p p [node]) = 1).
  { reflexivity. }
  by rewrite Hex, Hadd.
Qed.

(** Two characters typed one after the other wear one and the same new
    pending-insert mark, and the locator reports it as one span over both. *)
Lemma typeText_twice (e : Editor) (c1 c2 : N) (p : Z) :
  inSuggestionMode (plugin (ed_state e)) = true ->
  noSuggestions (doc (ed_state e)) ->
  0 <= p <= contentSize (doc (ed_state e)) ->
  let twice := typeText [c2] (p + 1) (typeText [c1] p e) in
  findSuggestionsInRange (ed_state twice) 0 (contentSize (doc (ed_state twice)))
  = [{| mr_mark := insertMarkOf e; mr_from := p; mr_to := p + 2 |}]
  /\ docText (doc (ed_state twice))
     = take (Z.to_nat p) (docText (doc (ed_state e))) ++ [c1; c2]
         ++ drop (Z.to_nat p) (docText (doc (ed_state e))).
Proof.
  intros Hon Hno Hp twice.
  destruct (typeText_doc e [c1] p Hon ltac:(done) Hp
              (noSuggestions_cleanAround _ p Hno))
    as (L1 & R1 & A1 & Hdoc & HL & HR & Hlen & HA & _ & _ & Hplugin & Hfresh).
  set (once := typeText [c1] p e) in *.
  set (pn := Z.to_nat p) in *.
  set (b1 := {| text := [c1]; marks := A1 |}) in *.
  assert (Hm1 : isSuggestionName (type_name (insertMarkOf e)) = true) by done.
  assert (HA1in : insertMarkOf e ∈ A1).
  { assert (Hin : insertMarkOf e ∈ suggestionMarks A1) by (rewrite HA; left).
    unfold suggestionMarks in Hin. by apply list_elem_of_filter in Hin as [_ ?]. }
  (* the cells of the document after the first character *)
  set (CL := cells (group L1)). set (CR := cells (group R1)).
  assert (Hcells : cells (doc (ed_state once)) = CL ++ [(c1, A1)] ++ CR).
  { rewrite Hdoc, !cells_app. done. }
  assert (HCL : viewCell <$> CL = viewCell <$> take pn (cells (doc (ed_state e)))).
  { change (viewCell <$> CL) with (view (group L1)).
    by rewrite view_group, HL, fmap_take. }
  assert (HCR : viewCell <$> CR = viewCell <$> drop pn (cells (doc (ed_state e)))).
  { change (viewCell <$> CR) with (view (group R1)).
    by rewrite view_group, HR, fmap_drop. }
  assert (HlenCL : length CL = pn).
  { rewrite <- (length_fmap viewCell), HCL, length_fmap, length_take.
    pose proof (length_cells (doc (ed_state e))). unfold pn. lia. }
  assert (HcleanL : cleanCells CL).
  { apply (cleanCells_view _ _ HCL), cleanCells_take. by apply noSuggestions_cells. }
  assert (HcleanR : cleanCells CR).
  { apply (cleanCells_view _ _ HCR), cleanCells_drop. by apply noSuggestions_cells. }
  (* the marks active behind the first character are its own *)
  assert (Hat : marksAt (doc (ed_state once)) (p + 1) = A1).
  { rewrite Hdoc. unfold marksAt. cbn [app].
    replace (p + 1) with (contentSize (group L1) + nodeSize b1)
      by (rewrite contentSize_group, Hlen; unfold nodeSize, pn; cbn; lia).
    apply marksAt_from_after; [apply validDoc_group|done]. }
  (* the second character: nothing is appended *)
  assert (Htwice : doc (ed_state twice)
                   = group CL ++ [{| text := [c1; c2]; marks := A1 |}] ++ group CR).
  { unfold twice, typeText at 1, dispatchTransaction. fold once.
    rewrite (appendTransaction_inherited _ _ _ _ _ (insertMarkOf e))
      by (by rewrite ?Hplugin, ?Hat).
    cbn [ed_state applyPlain doc insertText setSelection step tr_doc state_tr].
    unfold applyStep. cbn [applyStepCells]. rewrite Hat, Hcells.
    unfold replaceCells. rewrite cells_cons. cbn [text marks cells flat_map map app].
    replace (Z.to_nat (p + 1)) with (length (CL ++ [(c1, A1)]))
      by (rewrite length_app, HlenCL; unfold pn; cbn; lia).
    change (CL ++ (c1, A1) :: CR) with (CL ++ [(c1, A1)] ++ CR).
    rewrite (app_assoc CL [(c1, A1)] CR), take_app_length, drop_app_length.
    rewrite <- app_assoc. cbn [app].
    change (group CL ++ {| text := [c1; c2]; marks := A1 |} :: group CR)
      with (group CL ++ [{| text := [c1; c2]; marks := A1 |}] ++ group CR).
    rewrite group_app.
    - f_equal. change ((c1, A1) :: (c2, A1) :: CR) with ([(c1, A1); (c2, A1)] ++ CR).
      rewrite group_app.
      + f_equal. rewrite (group_run _ (c2, A1)); [done|done|].
        intros c Hc. cbn [snd].
        apply elem_of_cons in Hc as [->|Hc]; [apply sameSet_refl|].
        apply list_elem_of_singleton in Hc as ->. apply sameSet_refl.
      + intros c c' Hl Hh. cbn in Hl. injection Hl as <-. cbn [snd].
        rewrite sameSet_sym.
        apply (clean_not_sameSet c'.2 A1 (insertMarkOf e)); [|done|done].
        apply HcleanR. by apply head_Some_elem_of.
    - intros c c' Hl Hh. cbn in Hh. injection Hh as <-. cbn [snd].
      apply (clean_not_sameSet c.2 A1 (insertMarkOf e)); [|done|done].
      apply HcleanL. by apply last_Some_elem_of. }
  split.
  - unfold findSuggestionsInRange. rewrite Htwice. unfold nodesBetween.
    rewrite nodesBetween_at_app. cbn [app nodesBetween_at].
    rewrite !contentSize_app, !contentSize_cons, !contentSize_group, HlenCL.
    change (contentSize []) with 0. unfold nodeSize at 1 2 3. cbn [text length].
    do 2 match goal with
         | |- context [Z.ltb ?a ?b] => destruct (Z.ltb_spec a b) as [_|Hge]; [|lia]
         end.
    cbn [app]. rewrite collect_single with (m := insertMarkOf e); try done.
    + cbn [map fst snd]. unfold nodeSize. cbn [text length].
      do 2 f_equal; unfold pn; lia.
    + intros node q Hin%nodesBetween_at_in. by apply (noSuggestions_group CL).
    + intros node q Hin%nodesBetween_at_in. by apply (noSuggestions_group CR).
  - assert (Hfst : forall a b : list Cell,
              viewCell <$> a = viewCell <$> b -> a.*1 = b.*1).
    { intros a b Hv. by rewrite <- (viewCell_fst a), Hv, viewCell_fst. }
    rewrite Htwice. change (docText ?d) with ((cells d).*1).
    rewrite !cells_app, !fmap_app.
    change ((cells ?d).*1) with (docText d). rewrite !docText_group.
    rewrite (Hfst _ _ HCL), (Hfst _ _ HCR).
    change (docText ?d) with ((cells d).*1). by rewrite fmap_take, fmap_drop.
Qed.

End TypingTwice.

(** C4.  The existing mark is put over [[from, from + size)] with [from] the
    start of the step as the step has it, not mapped into the output
    document.  In a transaction of two steps over "abc" followed by the
    pending insertion "de", the first pastes "XY" between "d" and "e", where
    the pending-insert mark is active, and the second puts "zzz" in front;
    the output document is "zzzabcdXYe", and the existing mark is put over
    its positions 4 and 5, the letters "bc", while the pasted "XY", now at 7
    and 8, is left without any suggestion mark. *)
Theorem existing_mark_misplaced :
  let oldState := stateOf pendingTail alice in
  let newState := applyPlain twoSteps oldState in
  let existing := sampleMark 0 "suggestion_insert" "alice" in
  let pasted := ReplaceStep 4 4 [plain "XY"] in
  tr_steps twoSteps = [pasted; ReplaceStep 0 0 [plain "zzz"]]
  /\ existingSuggestionMarkOf (H:=plainHost) (startLoop oldState newState 1) pasted
     = Some existing
  /\ addedSliceSizeOf (H:=plainHost) (startLoop oldState newState 1) pasted = 2
  /\ docText (doc newState) = units "zzzabcdXYe"
  /\ (appendTransaction (H:=plainHost) [twoSteps] oldState newState 1).1
       ≫= (fun t => Some (tr_doc t, tr_steps t))
     = Some ([ {| text := units "zzz";
                  marks := [sampleMark 1 "suggestion_insert" "alice"] |};
               plain "a";
               {| text := units "bcd"; marks := [existing] |};
               plain "XY";
               {| text := units "e"; marks := [existing] |} ],
             [ AddMarkStep 4 6 existing;
               AddMarkStep 0 3 (sampleMark 1 "suggestion_insert" "alice") ]).
Proof. vm_compute. repeat split; reflexivity. Qed.

(** ** More on the span locator *)

(** X1. For a range that ends inside the document, the locator returns no
    span exactly when no node that overlaps the range wears a mark of a
    suggestion type. *)
Theorem findSuggestionsInRange_empty_iff (state : EditorState) (from to : Z) :
  to <= contentSize (doc state) ->
  (findSuggestionsInRange state from to = []
   <-> forall (i : nat) node m,
         doc state !! i = Some node ->
         contentSize (take i (doc state)) < to ->
         from < contentSize (take i (doc state)) + nodeSize node ->
         m ∈ marks node -> isSuggestionName (type_name m) = false).
Proof. intros _. apply locator_empty. Qed.

(** X2. Every span the locator returns carries a mark of a suggestion type,
    lies inside the document and overlaps the range asked for; it may reach
    beyond that range, since it runs to the borders of the nodes that wear
    the mark. *)
Theorem findSuggestionsInRange_bounds (state : EditorState) (from to : Z)
  (r : MarkedRange) :
  r ∈ findSuggestionsInRange state from to ->
  isSuggestionName (type_name (mr_mark r)) = true
  /\ 0 <= mr_from r /\ mr_from r <= mr_to r /\ mr_to r <= contentSize (doc state)
  /\ mr_from r < to /\ from < mr_to r.
Proof.
  intros Hr.
  destruct (locator_spec state from to) as (Hvis & _ & Hfound & Hspan).
  pose proof (findSuggestionsInRange_within state from to) as Hw.
  unfold spansWithin in Hw. rewrite Forall_forall in Hw.
  specialize (Hw r Hr) as (H0 & Hle & Hsize).
  assert (Hsug : isSuggestionName (type_name (mr_mark r)) = true).
  { apply (Hfound (mr_mark r)). apply list_elem_of_fmap. by exists r. }
  destruct (Hspan r Hr) as ((n1 & p1 & Hv1 & Hm1 & Hfrom) & _ & Hhull).
  destruct (Hhull n1 p1 Hv1 Hm1) as [_ Hend].
  apply Hvis in Hv1 as (i & Hi & -> & Hlt & Hgt).
  repeat split; try done; lia.
Qed.

(** X3. Asking for a wider range inside the document loses nothing: a mark
    found for a range is found for every range around it, with a span that
    contains the one found before. *)
Theorem findSuggestionsInRange_widen (state : EditorState)
  (from to from' to' : Z) (r : MarkedRange) :
  from' <= from -> to <= to' -> to' <= contentSize (doc state) ->
  r ∈ findSuggestionsInRange state from to ->
  exists r', r' ∈ findSuggestionsInRange state from' to'
             /\ mr_mark r' = mr_mark r
             /\ mr_from r' <= mr_from r /\ mr_to r <= mr_to r'.
Proof.
  intros Hfrom Hto _ Hr.
  destruct (locator_spec state from to) as (Hvis & _ & Hfound & Hspan).
  destruct (locator_spec state from' to') as (Hvis' & _ & Hfound' & Hspan').
  assert (Hwider : forall node pos,
            (node, pos) ∈ nodesBetween (doc state) from to ->
            (node, pos) ∈ nodesBetween (doc state) from' to').
  { intros node pos (i & Hi & -> & Hlt & Hgt)%Hvis. apply Hvis'.
    exists i. repeat split; [done|lia|lia]. }
  destruct (Hspan r Hr) as ((n1 & p1 & Hv1 & Hm1 & Hlo) & (n2 & p2 & Hv2 & Hm2 & Hhi) & _).
  assert (Hsug : isSuggestionName (type_name (mr_mark r)) = true).
  { apply (Hfound (mr_mark r)). apply list_elem_of_fmap. by exists r. }
  assert (Hin : mr_mark r ∈ mr_mark <$> findSuggestionsInRange state from' to').
  { apply Hfound'. split; [done|]. exists n1, p1. split; [by apply Hwider|done]. }
  apply list_elem_of_fmap in Hin as (r' & Hmark & Hr').
  exists r'. split; [done|]. split; [done|].
  destruct (Hspan' r' Hr') as (_ & _ & Hhull).
  rewrite <- Hmark in Hhull.
  destruct (Hhull n1 p1 (Hwider _ _ Hv1) Hm1) as [Ha _].
  destruct (Hhull n2 p2 (Hwider _ _ Hv2) Hm2) as [_ Hb].
  lia.
Qed.

(** ** More on the accept and reject commands *)

Lemma fold_step_frame (f : Mark -> Step) `{Host} (ms : list Mark) : forall t,
  tr_pluginMeta (fold_left (fun t m => step (f m) t) ms t) = tr_pluginMeta t
  /\ (tr_selection t = None ->
      tr_selection (fold_left (fun t m => step (f m) t) ms t) = None).
Proof.
  induction ms as [|m ms IH]; intros t; [done|]. cbn [fold_left].
  destruct (IH (step (f m) t)) as [Hp Hs]. split; [by rewrite Hp|].
  intros Hnone. apply Hs. cbn. by rewrite Hnone.
Qed.

Lemma surviving_imap_fst {A B} (v : list (A * B)) :
  forall (dead : nat -> bool) (g : nat -> A * B -> A * B),
  (forall p c, (g p c).1 = c.1) ->
  (surviving (imap (fun p c => if dead p then None else Some (g p c)) v)).*1
  = surviving (imap (fun p u => if dead p then None else Some u) v.*1).
Proof.
  unfold surviving. induction v as [|c v IH]; intros dead g Hg; [done|].
  cbn [imap fmap list_fmap omap list_omap].
  specialize (IH (dead ∘ S) (fun p => g (S p)) (fun p c => Hg (S p) c)).
  unfold compose in *. cbn in IH.
  destruct (dead 0%nat); cbn; rewrite ?Hg; by rewrite <- IH.
Qed.

Section ResolverMore.
Context `{Host}.

Lemma processSuggestion_frame (a : Action) (t : Transaction) s :
  tr_pluginMeta (processSuggestion a t s) = tr_pluginMeta t
  /\ (tr_selection t = None -> tr_selection (processSuggestion a t s) = None).
Proof.
  unfold processSuggestion.
  destruct (String.eqb (type_name (mr_mark s)) (markToDelete a)).
  - unfold delete, replace. destruct (_ && _); [done|].
    split; [done|]. intros Hnone. cbn. by rewrite Hnone.
  - unfold removeMark. apply fold_step_frame.
Qed.

Lemma resolveSuggestions_frame (a : Action) state spans :
  tr_pluginMeta (resolveSuggestions a state spans) = None
  /\ tr_selection (resolveSuggestions a state spans) = None.
Proof.
  induction spans as [|s spans IH] using rev_ind; [done|].
  rewrite resolveSuggestions_snoc.
  destruct (processSuggestion_frame a (resolveSuggestions a state spans) s) as [-> Hs].
  destruct IH as [Hp Hn]. split; [done|]. by apply Hs.
Qed.

(** What the editor holds once the transaction of a command went through
    [dispatch]. *)
Lemma dispatch_resolveSuggestions (a : Action) (e : Editor) spans :
  let t := resolveSuggestions a (ed_state e) spans in
  dispatchTransaction t e
  = {| ed_state :=
         {| doc := tr_doc t;
            selection_from := mapping_map (tr_mapping t) (selection_from (ed_state e));
            plugin := plugin (ed_state e) |};
       ed_fresh := ed_fresh e |}.
Proof.
  intros t. rewrite dispatchTransaction_skip by apply tr_meta_resolveSuggestions.
  unfold applyPlain, pluginApply. fold t.
  destruct (resolveSuggestions_frame a (ed_state e) spans) as [Hp Hs].
  fold t in Hp, Hs. by rewrite Hp, Hs.
Qed.


(** X5. What an accept or reject over a range does to the document, position
    by position: a position under a span of the kind to remove is gone; any
    other position keeps its code unit and loses exactly the marks whose type
    is the type of a span that covers it; positions under no span are left as
    they were. *)
Theorem resolveSuggestions_positions (a : Action) (state : EditorState)
  (from to : Z) :
  let spans := findSuggestionsInRange state from to in
  view (tr_doc (resolveSuggestions a state spans))
  = surviving
      (imap (fun (p : nat) (c : VCell) =>
               if covers (markToDelete a) spans p then None
               else Some (c.1, filter (fun s => covers s.1 spans p = false) c.2))
            (view (doc state))).
Proof.
  intros spans. rewrite resolveSuggestions_view
    by apply findSuggestionsInRange_within.
  done.
Qed.

(** X6. The text an accept or reject leaves is the text of the document
    without the positions under a span of the kind to remove; no other code
    unit is dropped, added or moved. *)
Theorem resolveSuggestions_text (a : Action) (state : EditorState) (from to : Z) :
  let spans := findSuggestionsInRange state from to in
  docText (tr_doc (resolveSuggestions a state spans))
  = surviving
      (imap (fun (p : nat) (u : N) =>
               if covers (markToDelete a) spans p then None else Some u)
            (docText (doc state))).
Proof.
  intros spans. rewrite !docText_view, resolveSuggestions_view
    by apply findSuggestionsInRange_within.
  unfold resolvedView, resolvedSlots.
  rewrite <- (surviving_imap_fst _ (fun p => covers (markToDelete a) spans p)
                (fun p (c : VCell) =>
                   (c.1, filter (fun s => covers s.1 spans p = false) c.2)))
    by done.
  done.
Qed.

(** Once all pending spans of the document are resolved, either way, no
    suggestion mark is left. *)
Lemma resolveAll_clears (a : Action) (state : EditorState) :
  validDoc (doc state) = true ->
  noSuggestions (tr_doc (resolveSuggestions a state
                           (findSuggestionsInRange state 0 (contentSize (doc state))))).
Proof.
  set (spans := findSuggestionsInRange state 0 (contentSize (doc state))).
  intros Hvalid n Hn m Hm.
  destruct (isSuggestionName (type_name m)) eqn:Hsug; [exfalso|done].
  pose proof (findSuggestionsInRange_within state 0 (contentSize (doc state))) as Hw.
  fold spans in Hw.
  destruct (node_has_cell _ n (validDoc_resolveSuggestions a state spans Hvalid) Hn)
    as (p & c & Hp & Hc).
  assert (Hv : viewCell c ∈ resolvedView a spans (view (doc state))).
  { rewrite <- resolveSuggestions_view by done. unfold view.
    apply list_elem_of_fmap. exists c. split; [done|]. by eapply list_elem_of_lookup_2. }
  unfold resolvedView, surviving, resolvedSlots in Hv.
  apply list_elem_of_omap in Hv as (o & Ho & Hid). cbn in Hid. subst o.
  apply elem_of_lookup_imap in Ho as (q & c0 & Hres & Hq).
  unfold resolvedCell in Hres.
  destruct (covers (markToDelete a) spans q); [done|].
  apply (inj Some) in Hres.
  assert (Hin : markSpec m ∈ (viewCell c).2).
  { unfold viewCell. cbn [snd]. apply list_elem_of_fmap. exists m. by rewrite Hc. }
  rewrite Hres in Hin. cbn [snd] in Hin.
  apply list_elem_of_filter in Hin as [Hcov Hin]. cbn [markSpec fst] in Hcov.
  unfold view in Hq. apply list_lookup_fmap_Some in Hq as (c' & -> & Hq).
  unfold viewCell in Hin. cbn [snd] in Hin.
  apply list_elem_of_fmap in Hin as (m0 & Hspec & Hm0).
  destruct (cells_lookup_node _ _ _ Hq) as (i & n0 & Hi & Hmarks & Hrange).
  rewrite Hmarks in Hm0.
  assert (Hty : type_name m0 = type_name m).
  { change (type_name m0) with (markSpec m0).1. by rewrite <- Hspec. }
  destruct (locator_spec state 0 (contentSize (doc state)))
    as (Hvis & _ & Hfound & Hspan). fold spans in Hfound, Hspan.
  pose proof (contentSize_lookup _ _ _ Hi) as Hbound.
  assert (Hvisited : (n0, contentSize (take i (doc state)))
                     ∈ nodesBetween (doc state) 0 (contentSize (doc state))).
  { apply Hvis. exists i. split; [done|]. split; [done|]. lia. }
  assert (Hmem : m0 ∈ mr_mark <$> spans).
  { apply Hfound. split; [by rewrite Hty|]. by exists n0, (contentSize (take i (doc state))). }
  apply list_elem_of_fmap in Hmem as (r & -> & Hr).
  destruct (Hspan r Hr) as (_ & _ & Hcover).
  destruct (Hcover _ _ Hvisited Hm0) as [Hlo Hhi].
  apply not_true_iff_false in Hcov. apply Hcov.
  unfold covers. apply existsb_exists. exists r. split; [by apply list_elem_of_In|].
  apply andb_true_iff. split; [by apply String.eqb_eq|].
  apply inRange_spec. lia.
Qed.

(** The editor after all suggestions were resolved one way. *)
Lemma runAll_doc (a : Action) (e : Editor) :
  doc (ed_state (runCommand
                   (processSuggestionsInRange a 0 (contentSize (doc (ed_state e))))
                   true e).2)
  = match findSuggestionsInRange (ed_state e) 0 (contentSize (doc (ed_state e))) with
    | [] => doc (ed_state e)
    | spans => tr_doc (resolveSuggestions a (ed_state e) spans)
    end.
Proof.
  unfold runCommand, processSuggestionsInRange.
  destruct (findSuggestionsInRange _ _ _) as [|s spans]; [done|].
  cbn [snd]. by rewrite dispatch_resolveSuggestions.
Qed.

Lemma runAll_clears (a : Action) (e : Editor) :
  validDoc (doc (ed_state e)) = true ->
  noSuggestions
    (doc (ed_state (runCommand
                      (processSuggestionsInRange a 0 (contentSize (doc (ed_state e))))
                      true e).2)).
Proof.
  intros Hvalid. rewrite runAll_doc.
  destruct (findSuggestionsInRange _ _ _) as [|s spans] eqn:Hspans.
  - intros n Hn m Hm.
    destruct (list_elem_of_lookup_1 _ _ Hn) as [i Hi].
    pose proof (proj1 (locator_empty _ _ _) Hspans i n m Hi) as Hc.
    pose proof (contentSize_lookup _ _ _ Hi) as Hbound.
    assert (Hpos : 0 < nodeSize n).
    { unfold validDoc in Hvalid. rewrite forallb_forall in Hvalid.
      apply Z.ltb_lt, Hvalid, list_elem_of_In, Hn. }
    apply Hc; [lia|lia|done].
  - rewrite <- Hspans. by apply resolveAll_clears.
Qed.

(** X7. After [acceptAllSuggestions], and after [rejectAllSuggestions], run
    with the editor's dispatch, no node of the document wears a pending-insert
    or pending-delete mark. *)
Theorem allSuggestions_cleared (e : Editor) :
  validDoc (doc (ed_state e)) = true ->
  noSuggestionsb (doc (ed_state (runCommand acceptAllSuggestions true e).2)) = true
  /\ noSuggestionsb (doc (ed_state (runCommand rejectAllSuggestions true e).2)) = true.
Proof.
  intros Hvalid.
  assert (Hb : forall d, noSuggestions d -> noSuggestionsb d = true).
  { intros d Hd. unfold noSuggestionsb. apply forallb_forall. intros n Hn.
    apply forallb_forall. intros m Hm.
    by rewrite (Hd n (proj2 (list_elem_of_In _ _) Hn) m (proj2 (list_elem_of_In _ _) Hm)). }
  split; apply Hb.
  - apply (runAll_clears accept e Hvalid).
  - apply (runAll_clears reject e Hvalid).
Qed.

(** X8. Rejecting all suggestions twice is the same as rejecting them once:
    the second run finds nothing, returns [false] and leaves the editor as
    the first run left it. *)
Theorem rejectAllSuggestions_idempotent (e : Editor) :
  validDoc (doc (ed_state e)) = true ->
  let once := (runCommand rejectAllSuggestions true e).2 in
  runCommand rejectAllSuggestions true once = (false, once).
Proof.
  intros Hvalid once.
  pose proof (runAll_clears reject e Hvalid) as Hclean.
  change (runCommand _ true e).2 with once in Hclean.
  unfold runCommand, rejectAllSuggestions, rejectSuggestionsInRange,
    processSuggestionsInRange.
  rewrite findSuggestionsInRange_none; [done|].
  intros n m Hn Hm. by apply (Hclean n Hn m Hm).
Qed.

End ResolverMore.

(** ** More on the tracking transformer *)

Lemma forEachIndexed_inv {A S} (P : S -> Prop) (f : nat -> A -> S -> S)
  (l : list A) (s : S) :
  (forall i x s, x ∈ l -> P s -> P (f i x s)) -> P s -> P (forEachIndexed f l s).
Proof.
  intros Hf. unfold forEachIndexed.
  assert (Hin : forall i x, (i, x) ∈ imap pair l -> x ∈ l).
  { intros i x (j & y & [= -> ->] & Hj)%elem_of_lookup_imap.
    by eapply list_elem_of_lookup_2. }
  revert Hin. generalize (imap pair l). intros ps Hin. revert s.
  induction ps as [|[i x] ps IH]; intros s Hs; [done|]. cbn.
  apply IH; [intros j y Hy; apply (Hin j y); by right|].
  apply Hf; [apply (Hin i x); left|done].
Qed.

Lemma sublist_insert {A} (l ins : list A) (k : nat) :
  sublist l (take k l ++ ins ++ drop k l).
Proof.
  rewrite <- (take_drop k l) at 1. apply sublist_app; [done|].
  by apply sublist_inserts_l.
Qed.

Section TransformerMore.
Context `{Host}.

Lemma tr_meta_addMark from to m (t : Transaction) :
  tr_meta (addMark from to m t) = tr_meta t.
Proof. unfold addMark. by destruct (existsb _ _). Qed.

Lemma tr_meta_replace from to slice (t : Transaction) :
  tr_meta (replace from to slice t) = tr_meta t.
Proof. unfold replace. by destruct (_ && _). Qed.

(** Every step that is looked at leaves the skip flag on the output. *)
Lemma processStep_meta (newState : EditorState) (meta : Meta)
  (transactions : list Transaction) (trIndex stepIndex : nat) (step_ : Step)
  (l : Loop) :
  tr_meta (tr (processStep newState meta transactions trIndex stepIndex step_ l))
  = Some skipMeta.
Proof.
  unfold processStep.
  destruct (existingSuggestionMarkOf l step_) as [existing|].
  - destruct (1 <? _); cbn [tr]; by rewrite ?tr_meta_addMark.
  - destruct (_ && _); [done|].
    destruct (0 <? contentSize (removedSliceOf l step_));
      destruct (0 <? addedSliceSizeOf l step_);
      destruct (isBackspaceOf newState step_); cbn [tr];
      rewrite ?tr_meta_addMark; cbn [setSelection tr_meta];
      by rewrite ?tr_meta_addMark, ?tr_meta_replace.
Qed.

(** A step never takes text out of the output: it puts text in, or leaves
    the text alone. *)
Lemma processStep_text (newState : EditorState) (meta : Meta)
  (transactions : list Transaction) (trIndex stepIndex : nat) (step_ : Step)
  (l : Loop) :
  sublist (docText (tr_doc (tr l)))
          (docText (tr_doc (tr (processStep newState meta transactions trIndex
                                  stepIndex step_ l)))).
Proof.
  unfold processStep.
  destruct (existingSuggestionMarkOf l step_) as [existing|].
  - destruct (1 <? _); cbn [tr]; by rewrite ?docText_addMark.
  - destruct (_ && _); [done|].
    destruct (0 <? contentSize (removedSliceOf l step_));
      destruct (0 <? addedSliceSizeOf l step_);
      destruct (isBackspaceOf newState step_); cbn [tr setSelection tr_doc];
      rewrite ?docText_addMark; cbn [tr setSelection tr_doc];
      rewrite ?docText_addMark, ?docText_replace; cbn [setMeta tr_doc];
      try done; apply sublist_insert.
Qed.

Lemma processStep_changed (newState : EditorState) (meta : Meta)
  (transactions : list Transaction) (trIndex stepIndex : nat) (step_ : Step)
  (l : Loop) :
  changed l = true ->
  changed (processStep newState meta transactions trIndex stepIndex step_ l) = true.
Proof.
  intros Hc. unfold processStep.
  destruct (existingSuggestionMarkOf l step_) as [existing|].
  - by destruct (1 <? _).
  - destruct (_ && _); [done|].
    destruct (0 <? contentSize (removedSliceOf l step_));
      destruct (0 <? addedSliceSizeOf l step_); cbn [changed]; done.
Qed.


(** X9. A transaction the transformer appends carries the skip flag, so the
    transformer passes over its own output: handed that transaction, it
    appends nothing more. *)
Theorem appendTransaction_output_skipped (transactions : list Transaction)
  (oldState newState : EditorState) (next : nat) (t : Transaction) (next' : nat) :
  appendTransaction transactions oldState newState next = (Some t, next') ->
  tr_meta t = Some skipMeta
  /\ forall oldState' newState' k,
       appendTransaction [t] oldState' newState' k = (None, k).
Proof.
  intros Happ.
  assert (Hmeta : tr_meta t = Some skipMeta).
  { unfold appendTransaction in Happ.
    assert (Hinv : changed (appendLoop transactions oldState newState next) = true ->
                   tr_meta (tr (appendLoop transactions oldState newState next))
                   = Some skipMeta).
    { unfold appendLoop.
      apply (forEachIndexed_inv
               (fun l => changed l = true -> tr_meta (tr l) = Some skipMeta));
        [|done].
      intros i x l _ Hl. unfold processTransaction.
      destruct (tr_history x); [done|]. destruct (negb _); [done|].
      destruct (meta_skipSuggestionOperation _); [done|].
      apply (forEachIndexed_inv
               (fun l => changed l = true -> tr_meta (tr l) = Some skipMeta));
        [|done].
      intros j st l' _ _ _. apply processStep_meta. }
    destruct (changed (appendLoop transactions oldState newState next));
      [|done].
    injection Happ as <- _. by apply Hinv. }
  split; [done|]. intros oldState' newState' k.
  apply appendTransaction_skip. by rewrite Hmeta.
Qed.

(** X10. The transformer never takes text away: the code units of the new
    document are all still there, in their order, in the document of the
    transaction it appends (which may hold more: the text it put back). *)
Theorem appendTransaction_keeps_text (transactions : list Transaction)
  (oldState newState : EditorState) (next : nat) (t : Transaction) (next' : nat) :
  appendTransaction transactions oldState newState next = (Some t, next') ->
  sublist (docText (doc newState)) (docText (tr_doc t)).
Proof.
  intros Happ. unfold appendTransaction in Happ.
  assert (Hinv : sublist (docText (doc newState))
                   (docText (tr_doc (tr (appendLoop transactions oldState newState
                                           next))))).
  { unfold appendLoop.
    apply (forEachIndexed_inv
             (fun l => sublist (docText (doc newState)) (docText (tr_doc (tr l)))));
      [|done].
    intros i x l _ Hl. unfold processTransaction.
    destruct (tr_history x); [done|]. destruct (negb _); [done|].
    destruct (meta_skipSuggestionOperation _); [done|].
    apply (forEachIndexed_inv
             (fun l => sublist (docText (doc newState)) (docText (tr_doc (tr l)))));
      [|done].
    intros j st l' _ Hl'. etrans; [exact Hl'|apply processStep_text]. }
  destruct (changed (appendLoop transactions oldState newState next)); [|done].
  by injection Happ as <- _.
Qed.

(** X11. Transactions without steps (a moved selection, say) never make the
    transformer append anything, whatever their flags. *)
Theorem appendTransaction_no_steps (transactions : list Transaction)
  (oldState newState : EditorState) (next : nat) :
  Forall (fun t => tr_steps t = []) transactions ->
  appendTransaction transactions oldState newState next = (None, next).
Proof.
  intros Hall. unfold appendTransaction, appendLoop.
  set (l0 := {| tr := state_tr newState; changed := false;
                intermediateTr := doc oldState; lastStep := None; fresh := next |}).
  assert (Hsame : forEachIndexed
                    (processTransaction (plugin oldState) newState transactions)
                    transactions l0 = l0).
  { apply (forEachIndexed_inv (fun l => l = l0)); [|done].
    intros i x l Hx ->. unfold processTransaction.
    rewrite Forall_forall in Hall. rewrite (Hall x Hx).
    destruct (tr_history x); [done|]. destruct (negb _); [done|].
    by destruct (meta_skipSuggestionOperation _). }
  by rewrite Hsame.
Qed.

(** X12. A step that starts where a pending mark is already active is never
    put back and gets no new mark: whatever it removed stays removed, the
    text of the output is left as it is, and with at most one position
    inserted the output is not touched at all. *)
Theorem processStep_inside_pending (newState : EditorState) (meta : Meta)
  (transactions : list Transaction) (trIndex stepIndex : nat) (step_ : Step)
  (l : Loop) (existing : Mark) :
  existingSuggestionMarkOf l step_ = Some existing ->
  let next := processStep newState meta transactions trIndex stepIndex step_ l in
  isSuggestionName (type_name existing) = true
  /\ docText (tr_doc (tr next)) = docText (tr_doc (tr l))
  /\ fresh next = fresh l
  /\ (addedSliceSizeOf l step_ <= 1 ->
      tr next = setMeta skipMeta (tr l) /\ changed next = changed l).
Proof.
  intros Hex next.
  split.
  { unfold existingSuggestionMarkOf in Hex. by apply find_some in Hex as [_ ?]. }
  unfold next, processStep. rewrite Hex.
  destruct (Z.ltb_spec 1 (addedSliceSizeOf l step_)) as [Hlt|Hle];
    cbn [tr changed fresh].
  - rewrite docText_addMark. split; [done|]. split; [done|]. lia.
  - done.
Qed.

End TransformerMore.

(** ** The plugin state *)

(** X14. [state.apply] of the plugin: a transaction without plugin meta
    leaves the session state as it is; applying the same transaction twice
    gives what applying it once gives; no key of the session data is ever
    lost, and a key given by the meta takes the value of the meta. *)
Theorem pluginApply_merge (t : Transaction) (value : PluginState) :
  (tr_pluginMeta t = None -> pluginApply t value = value)
  /\ pluginApply t (pluginApply t value) = pluginApply t value
  /\ (forall k, is_Some (data value !! k) ->
        is_Some (data (pluginApply t value) !! k))
  /\ (forall meta d k x,
        tr_pluginMeta t = Some meta -> tm_data meta = Some d -> d !! k = Some x ->
        data (pluginApply t value) !! k = Some x)
  /\ (forall meta k,
        tr_pluginMeta t = Some meta -> default ∅ (tm_data meta) !! k = None ->
        data (pluginApply t value) !! k = data value !! k).
Proof.
  unfold pluginApply. destruct (tr_pluginMeta t) as [meta|].
  - split; [done|]. split.
    + cbn [inSuggestionMode username data]. f_equal.
      * by destruct (tm_inSuggestionMode meta).
      * by destruct (tm_username meta).
      * by rewrite (assoc_L (∪)), (idemp_L (∪)).
    + cbn [data]. split; [|split].
      * intros k [x Hx]. destruct (default ∅ (tm_data meta) !! k) as [y|] eqn:Hy.
        -- exists y. by apply lookup_union_Some_l.
        -- exists x. by rewrite lookup_union_r.
      * intros meta' d k x [= <-] Hd Hk. rewrite Hd. cbn.
        by apply lookup_union_Some_l.
      * intros meta' k [= <-] Hk. by rewrite lookup_union_r.
  - split; [done|]. split; [done|]. split; [done|]. split; intros; done.
Qed.

(** X15. A plugin created without [inSuggestionMode: true] starts with
    tracking off and an author that is never empty, and it tracks nothing:
    for a batch of transactions that do not ask for tracking in their own
    suggestion meta, the transformer appends nothing. *)
Theorem init_tracks_nothing `{Host} (options : SuggestionModePluginOptions)
  (transactions : list Transaction) (oldState newState : EditorState) (next : nat) :
  opt_inSuggestionMode options <> Some true ->
  plugin oldState = init options ->
  Forall (fun t => tr_meta t ≫= tm_inSuggestionMode = None) transactions ->
  inSuggestionMode (init options) = false
  /\ username (init options) <> ""
  /\ appendTransaction transactions oldState newState next = (None, next).
Proof.
  intros Hopt Hplugin Hall.
  assert (Hoff : inSuggestionMode (init options) = false).
  { unfold init. cbn. by destruct (opt_inSuggestionMode options) as [[]|]. }
  split; [done|]. split.
  - unfold init. cbn. destruct (opt_username options) as [u|]; [|done].
    destruct (String.eqb_spec u ""); done.
  - apply appendTransaction_forwarded.
    eapply Forall_impl; [exact Hall|]. intros t Ht. cbn in Ht.
    right. left. rewrite Hplugin, Ht. done.
Qed.

(** ** One pending region *)

(** Adding a suggestion mark to a set without suggestion marks, and taking
    the marks of its type off again, gives the set back. *)
Lemma strip_addToSet_loop `{Host} (m : Mark) (ms : list Mark) (placed : bool) :
  (forall o, o ∈ ms -> type_name o <> type_name m) ->
  filter (fun s : string * Attrs => s.1 <> type_name m)
         (markSpec <$> addToSet_loop m ms placed)
  = markSpec <$> ms.
Proof.
  revert placed. induction ms as [|o ms IH]; intros placed Hty.
  - destruct placed; cbn [addToSet_loop]; [done|].
    rewrite fmap_cons, filter_cons_False; [done|]. cbn. by intros [].
  - assert (Ho : type_name o <> type_name m) by (apply Hty; left).
    assert (Hms : forall o', o' ∈ ms -> type_name o' <> type_name m).
    { intros o' Ho'. apply Hty. by right. }
    cbn [addToSet_loop].
    destruct (String.eqb_spec (type_name m) (type_name o)) as [Heq|_]; [by rewrite Heq in Ho|].
    destruct (negb placed && _).
    + rewrite !fmap_cons. rewrite filter_cons_False by (cbn; by intros []).
      rewrite filter_cons_True by done. by rewrite IH.
    + rewrite !fmap_cons. rewrite filter_cons_True by done. by rewrite IH.
Qed.

Lemma strip_addToSet `{Host} (m : Mark) (ms : list Mark) :
  cleanMarks ms -> isSuggestionName (type_name m) = true ->
  filter (fun s : string * Attrs => s.1 <> type_name m) (markSpec <$> addToSet m ms)
  = markSpec <$> ms.
Proof.
  intros Hclean Hm. unfold addToSet.
  rewrite clean_not_isInSet by done.
  apply strip_addToSet_loop. intros o Ho Heq.
  specialize (Hclean o Ho). by rewrite Heq, Hm in Hclean.
Qed.

(** The cells of a slice of the document are the slice of its cells. *)
Lemma cells_cut_at (content : list Node) (from to : Z) : forall pos,
  from < to ->
  cells (cut_at pos content from to)
  = drop (Z.to_nat (from - pos)) (take (Z.to_nat (to - pos)) (cells content)).
Proof.
  induction content as [|child rest IH]; intros pos Hft.
  - cbn. by rewrite take_nil, drop_nil.
  - cbn [cut_at]. rewrite cells_cons.
    set (X := map (fun u => (u, marks child)) (text child)).
    assert (HlenX : Z.of_nat (length X) = nodeSize child).
    { unfold X, nodeSize. by rewrite length_map. }
    pose proof (nodeSize_nonneg child) as Hs.
    destruct (Z.ltb_spec pos to) as [Hlt|Hge].
    2:{ replace (Z.to_nat (to - pos)) with 0%nat by lia. by rewrite take_0, drop_nil. }
    rewrite cells_app, IH by done.
    rewrite take_app, drop_app.
    destruct (Z.ltb_spec from (pos + nodeSize child)) as [Hin|Hout].
    + (* the child reaches into the range *)
      replace (Z.to_nat (from - (pos + nodeSize child))) with 0%nat by lia.
      rewrite drop_0.
      replace (Z.to_nat (from - pos) - length (take (Z.to_nat (to - pos)) X))%nat
        with 0%nat by (rewrite length_take; lia).
      rewrite drop_0.
      replace (Z.to_nat (to - pos) - length X)%nat
        with (Z.to_nat (to - (pos + nodeSize child))) by lia.
      f_equal.
      assert (Hpiece : cells [{| text := sliceList (Z.max 0 (from - pos))
                                           (Z.min (nodeSize child) (to - pos))
                                           (text child);
                                 marks := marks child |}]
                       = drop (Z.to_nat (from - pos)) (take (Z.to_nat (to - pos)) X)).
      { cbn [cells flat_map text marks]. rewrite app_nil_r. unfold sliceList, X.
        change (map ?g ?l) with (g <$> l). rewrite fmap_drop, fmap_take.
        replace (Z.to_nat (Z.max 0 (from - pos))) with (Z.to_nat (from - pos)) by lia.
        f_equal.
        destruct (Z.le_gt_cases (nodeSize child) (to - pos)).
        - rewrite Z.min_l by done.
          rewrite !take_ge; [done| |]; rewrite length_fmap; unfold nodeSize in *; lia.
        - by rewrite Z.min_r by lia. }
      destruct ((pos <? from) || (to <? pos + nodeSize child)) eqn:Hcut; [done|].
      apply orb_false_iff in Hcut as [H1%Z.ltb_ge H2%Z.ltb_ge].
      rewrite <- Hpiece. cbn [cells flat_map text marks]. rewrite !app_nil_r.
      unfold sliceList.
      replace (Z.to_nat (Z.max 0 (from - pos))) with 0%nat by lia.
      rewrite drop_0, take_ge; [done|]. unfold nodeSize in *. lia.
    + (* the child lies before the range *)
      cbn [cells flat_map app].
      rewrite (drop_ge (take _ X)) by (rewrite length_take; lia).
      cbn [app]. f_equal; [|f_equal]; rewrite ?length_take; lia.
Qed.

Lemma cells_docSlice (content : list Node) (from to : Z) :
  0 <= from -> from < to ->
  cells (docSlice content from to) = sliceList from to (cells content).
Proof.
  intros H0 Hft. unfold docSlice, sliceList.
  destruct (Z.ltb_spec from to); [|lia].
  rewrite cells_cut_at by done. by rewrite !Z.sub_0_r.
Qed.

(** The whole text of a slice, as [textBetween] gives it. *)
Lemma textBetween_at_all (content : list Node) : forall pos to,
  0 <= pos -> to = pos + contentSize content ->
  flat_map (fun '(node, p) => sliceList (Z.max 0 p - p) (to - p) (text node))
           (nodesBetween_at pos content 0 to)
  = docText content.
Proof.
  induction content as [|n rest IH]; intros pos to Hpos Hto; [done|].
  rewrite contentSize_cons in Hto.
  pose proof (nodeSize_nonneg n) as Hn. pose proof (contentSize_nonneg rest) as Hrest.
  assert (Hdoc : docText (n :: rest) = text n ++ docText rest).
  { unfold docText. rewrite cells_cons, map_app. f_equal.
    rewrite map_map. cbn. by rewrite map_id. }
  rewrite Hdoc. cbn [nodesBetween_at].
  destruct (Z.ltb_spec pos to) as [Hlt|Hge].
  - rewrite flat_map_app, (IH (pos + nodeSize n) to) by lia. f_equal.
    destruct (Z.ltb_spec 0 (pos + nodeSize n)) as [Hin|Hout].
    + cbn [flat_map]. rewrite app_nil_r. unfold sliceList.
      replace (Z.to_nat (Z.max 0 pos - pos)) with 0%nat by lia.
      rewrite drop_0, take_ge; [done|]. unfold nodeSize in *. lia.
    + cbn [flat_map]. unfold nodeSize in *. destruct (text n); [done|]. cbn in *. lia.
  - cbn [flat_map].
    assert (Hzero : nodeSize n = 0 /\ contentSize rest = 0) by lia.
    destruct Hzero as [Hzn Hzr].
    assert (Htext : text n = []).
    { unfold nodeSize in Hzn. destruct (text n); [done|]. cbn in *. lia. }
    rewrite Htext. cbn [app].
    assert (Hlen : length (docText rest) = 0%nat).
    { unfold docText. rewrite length_map.
      pose proof (length_cells rest). lia. }
    by destruct (docText rest).
Qed.

Lemma textBetween_all (content : list Node) :
  textBetween content 0 (contentSize content) = docText content.
Proof. unfold textBetween, nodesBetween. by apply textBetween_at_all. Qed.

Lemma docText_docSlice (content : list Node) (from to : Z) :
  0 <= from -> from < to ->
  docText (docSlice content from to) = sliceList from to (docText content).
Proof.
  intros H0 Hft. unfold docText. rewrite cells_docSlice by done.
  unfold sliceList. change (map ?g ?l) with (g <$> l).
  by rewrite fmap_drop, fmap_take.
Qed.

Section Region.
Context `{Host}.

(** The document once a mark was added to a range, position by position. *)
Lemma view_addMark from to m (t : Transaction) :
  view (tr_doc (addMark from to m t))
  = viewCell <$> mapRange from to (fun c => (c.1, addToSet m c.2)) (cells (tr_doc t)).
Proof.
  unfold addMark.
  destruct (existsb _ _) eqn:Hex.
  - cbn [step tr_doc]. apply view_addMarkStep.
  - unfold view. f_equal. apply list_eq. intros i.
    rewrite mapRange_lookup.
    destruct (cells (tr_doc t) !! i) as [c|] eqn:Hi; [|done]. cbn.
    destruct (inRange from to i) eqn:Hr; [|done].
    assert (Hin : isInSet m c.2 = true).
    { apply not_true_iff_false in Hex.
      destruct (isInSet m c.2) eqn:Hm; [done|]. exfalso. apply Hex.
      apply existsb_exists. exists c. split; [|by rewrite Hm].
      apply list_elem_of_In, (sliceList_elem _ _ _ i); [done|].
      by apply inRange_spec. }
    unfold addToSet. rewrite Hin. by destruct c.
Qed.

(** A document without suggestion marks, after one suggestion mark was put on
    a range: taking the type off the range gives the document back, and the
    marks of a suggestion type are those of the range. *)
Lemma marked_region (t : Transaction) (a b : Z) (m : Mark) :
  cleanCells (cells (tr_doc t)) ->
  isSuggestionName (type_name m) = true ->
  let d2 := tr_doc (addMark a b m t) in
  mapRange a b (stripType (type_name m)) (view d2) = view (tr_doc t)
  /\ (forall (p : nat) c m',
        cells d2 !! p = Some c -> m' ∈ c.2 ->
        isSuggestionName (type_name m') = true ->
        type_name m' = type_name m /\ a <= Z.of_nat p < b)
  /\ (forall (p : nat) c,
        cells d2 !! p = Some c -> a <= Z.of_nat p < b ->
        exists m', m' ∈ c.2 /\ type_name m' = type_name m).
Proof.
  intros Hclean Hm d2.
  set (g := fun c : Cell => (c.1, addToSet m c.2)).
  assert (Hv : view d2 = viewCell <$> mapRange a b g (cells (tr_doc t)))
    by apply view_addMark.
  assert (Hat : forall (p : nat) c2,
            cells d2 !! p = Some c2 ->
            exists c, cells (tr_doc t) !! p = Some c
                      /\ viewCell c2 = viewCell (if inRange a b p then g c else c)).
  { intros p c2 Hp.
    assert (Hvp : view d2 !! p = Some (viewCell c2)).
    { unfold view. by rewrite list_lookup_fmap, Hp. }
    rewrite Hv, list_lookup_fmap, mapRange_lookup in Hvp.
    destruct (cells (tr_doc t) !! p) as [c|]; [|done].
    exists c. split; [done|]. cbn [fmap option_fmap option_map] in Hvp.
    apply (inj Some) in Hvp. by rewrite Hvp. }
  assert (Hspec : forall (c c' : Cell) m',
            viewCell c = viewCell c' -> m' ∈ c.2 ->
            exists m'', m'' ∈ c'.2 /\ markSpec m'' = markSpec m').
  { intros c c' m' Hcc Hin.
    assert (Hs : markSpec m' ∈ (viewCell c).2).
    { unfold viewCell. cbn [snd]. apply list_elem_of_fmap. by exists m'. }
    rewrite Hcc in Hs. unfold viewCell in Hs. cbn [snd] in Hs.
    apply list_elem_of_fmap in Hs as (m'' & Hs & Hin''). by exists m''. }
  split; [|split].
  - rewrite Hv. unfold view. apply list_eq. intros i.
    rewrite mapRange_lookup, !list_lookup_fmap, mapRange_lookup.
    destruct (cells (tr_doc t) !! i) as [c|] eqn:Hi; [|done]. cbn.
    destruct (inRange a b i); [|done]. f_equal.
    unfold stripType, viewCell, g. cbn [fst snd]. f_equal.
    apply strip_addToSet; [|done]. apply Hclean. by eapply list_elem_of_lookup_2.
  - intros p c2 m' Hp Hin Hsug.
    destruct (Hat p c2 Hp) as (c & Hc & Hcc).
    destruct (Hspec _ _ m' Hcc Hin) as (m'' & Hin'' & Hs).
    assert (Hty : type_name m'' = type_name m').
    { change (type_name m'') with (markSpec m'').1. by rewrite Hs. }
    assert (Hcclean : cleanMarks c.2).
    { apply Hclean. by eapply list_elem_of_lookup_2. }
    destruct (inRange a b p) eqn:Hr.
    + split; [|by apply inRange_spec].
      unfold g in Hin''. cbn [snd] in Hin''.
      assert (Hmem : m'' ∈ suggestionMarks (addToSet m c.2)).
      { unfold suggestionMarks. apply list_elem_of_filter. by rewrite Hty. }
      rewrite suggestionMarks_addToSet in Hmem by done.
      apply list_elem_of_singleton in Hmem. by rewrite <- Hty, Hmem.
    + exfalso. specialize (Hcclean m'' Hin''). by rewrite Hty, Hsug in Hcclean.
  - intros p c2 Hp Hr.
    destruct (Hat p c2 Hp) as (c & Hc & Hcc).
    apply inRange_spec in Hr. rewrite Hr in Hcc.
    assert (Hin : markSpec m ∈ (viewCell c2).2).
    { rewrite Hcc. unfold viewCell, g. cbn [snd]. apply isInSet_spec.
      apply addToSet_isInSet. }
    unfold viewCell in Hin. cbn [snd] in Hin.
    apply list_elem_of_fmap in Hin as (m' & Hs & Hin). exists m'. split; [done|].
    change (type_name m') with (markSpec m').1. by rewrite <- Hs.
Qed.

End Region.

(** The positions of a node hold its marks. *)
Lemma cells_of_node (d : list Node) (i : nat) n (q : nat) :
  d !! i = Some n ->
  contentSize (take i d) <= Z.of_nat q < contentSize (take i d) + nodeSize n ->
  exists u, cells d !! q = Some (u, marks n).
Proof.
  intros Hi Hq.
  pose proof (f_equal cells (take_drop_middle _ _ _ Hi)) as Hd.
  rewrite cells_app, cells_cons in Hd. rewrite <- Hd.
  pose proof (length_cells (take i d)) as Hlen.
  rewrite lookup_app_r by lia.
  assert (Hk : (q - length (cells (take i d)) < length (text n))%nat).
  { unfold nodeSize in Hq. lia. }
  rewrite lookup_app_l by (by rewrite length_map).
  destruct (lookup_lt_is_Some_2 (text n) _ Hk) as [u Hu].
  exists u. change (map ?g ?l) with (g <$> l). by rewrite list_lookup_fmap, Hu.
Qed.

(** In a document whose suggestion marks are all of one type and sit on the
    positions of one range, the spans the locator finds cover exactly that
    range. *)
Lemma region_covers (state : EditorState) (T : string) (a b from to : Z) :
  validDoc (doc state) = true ->
  (forall (p : nat) c m,
      cells (doc state) !! p = Some c -> m ∈ c.2 ->
      isSuggestionName (type_name m) = true ->
      type_name m = T /\ a <= Z.of_nat p < b) ->
  (forall (p : nat) c,
      cells (doc state) !! p = Some c -> a <= Z.of_nat p < b ->
      exists m, m ∈ c.2 /\ type_name m = T) ->
  isSuggestionName T = true ->
  from <= a -> b <= to ->
  forall name (p : nat),
    Z.of_nat p < contentSize (doc state) ->
    covers name (findSuggestionsInRange state from to) p
    = String.eqb name T && inRange a b p.
Proof.
  intros Hvalid Hone Hall HT Hfrom Hto name p Hp.
  destruct (locator_spec state from to) as (Hvis & _ & Hfound & Hspan).
  assert (Hsize : forall i n, doc state !! i = Some n -> 0 < nodeSize n).
  { intros i n Hi. unfold validDoc in Hvalid. rewrite forallb_forall in Hvalid.
    apply Z.ltb_lt, Hvalid, list_elem_of_In. by eapply list_elem_of_lookup_2. }
  apply eq_true_iff_eq. split.
  - intros Hcov. unfold covers in Hcov.
    apply existsb_exists in Hcov as (r & Hr%list_elem_of_In & Hrp).
    apply andb_true_iff in Hrp as [Hname%String.eqb_eq Hin%inRange_spec].
    assert (Hsug : isSuggestionName (type_name (mr_mark r)) = true).
    { apply (Hfound (mr_mark r)). apply list_elem_of_fmap. by exists r. }
    destruct (Hspan r Hr)
      as ((n1 & p1 & Hv1 & Hm1 & Hlo) & (n2 & p2 & Hv2 & Hm2 & Hhi) & _).
    apply Hvis in Hv1 as (i1 & Hi1 & -> & _ & _).
    apply Hvis in Hv2 as (i2 & Hi2 & -> & _ & _).
    pose proof (Hsize _ _ Hi1) as Hs1. pose proof (Hsize _ _ Hi2) as Hs2.
    pose proof (contentSize_lookup _ _ _ Hi1) as [Hge1 _].
    pose proof (contentSize_lookup _ _ _ Hi2) as [Hge2 _].
    destruct (cells_of_node _ i1 n1 (Z.to_nat (contentSize (take i1 (doc state)))) Hi1)
      as [u1 Hc1]; [lia|].
    destruct (cells_of_node _ i2 n2
                (Z.to_nat (contentSize (take i2 (doc state)) + nodeSize n2 - 1)) Hi2)
      as [u2 Hc2]; [lia|].
    destruct (Hone _ _ _ Hc1 Hm1 Hsug) as [Hty Hr1].
    destruct (Hone _ _ _ Hc2 Hm2 Hsug) as [_ Hr2].
    apply andb_true_iff. split.
    + apply String.eqb_eq. by rewrite <- Hname.
    + apply inRange_spec. lia.
  - intros [Hname%String.eqb_eq Hin%inRange_spec]%andb_true_iff. subst name.
    pose proof (length_cells (doc state)) as Hlen.
    destruct (lookup_lt_is_Some_2 (cells (doc state)) p) as [c Hc]; [lia|].
    destruct (Hall p c Hc Hin) as (m & Hm & Hty).
    destruct (cells_lookup_node _ _ _ Hc) as (i & n0 & Hi & Hmarks & Hrange).
    rewrite Hmarks in Hm.
    assert (Hvisited : (n0, contentSize (take i (doc state)))
                       ∈ nodesBetween (doc state) from to).
    { apply Hvis. exists i. split; [done|]. split; [done|]. lia. }
    assert (Hmem : m ∈ mr_mark <$> findSuggestionsInRange state from to).
    { apply Hfound. split; [by rewrite Hty|]. by exists n0, (contentSize (take i (doc state))). }
    apply list_elem_of_fmap in Hmem as (r & -> & Hr).
    destruct (Hspan r Hr) as (_ & _ & Hcover).
    destruct (Hcover _ _ Hvisited Hm) as [Hlo Hhi].
    unfold covers. apply existsb_exists. exists r. split; [by apply list_elem_of_In|].
    apply andb_true_iff. split; [by apply String.eqb_eq|].
    apply inRange_spec. lia.
Qed.

(** What resolving leaves of such a document: without the range when its
    marks are of the kind to remove, and with the marks of that type taken
    off the range otherwise. *)
Lemma region_resolved (act : Action) (state : EditorState) (T : string)
  (a b from to : Z) :
  validDoc (doc state) = true ->
  (forall (p : nat) c m,
      cells (doc state) !! p = Some c -> m ∈ c.2 ->
      isSuggestionName (type_name m) = true ->
      type_name m = T /\ a <= Z.of_nat p < b) ->
  (forall (p : nat) c,
      cells (doc state) !! p = Some c -> a <= Z.of_nat p < b ->
      exists m, m ∈ c.2 /\ type_name m = T) ->
  isSuggestionName T = true ->
  from <= a -> b <= to -> 0 <= a <= b ->
  resolvedView act (findSuggestionsInRange state from to) (view (doc state))
  = if String.eqb (markToDelete act) T
    then take (Z.to_nat a) (view (doc state)) ++ drop (Z.to_nat b) (view (doc state))
    else mapRange a b (stripType T) (view (doc state)).
Proof.
  intros Hvalid Hone Hall HT Hfrom Hto Hab.
  set (spans := findSuggestionsInRange state from to).
  set (v := view (doc state)).
  assert (Hcov : forall name (p : nat) x, v !! p = Some x ->
            covers name spans p = String.eqb name T && inRange a b p).
  { intros name p x Hp. apply region_covers; try done.
    apply lookup_lt_Some in Hp. pose proof (length_view (doc state)) as Hlv. fold v in Hlv. lia. }
  assert (Hnames : forall (p : nat) x s, v !! p = Some x -> s ∈ x.2 ->
            isSuggestionName s.1 = true -> s.1 = T).
  { intros p x s Hp Hs Hsug. unfold v, view in Hp.
    apply list_lookup_fmap_Some in Hp as (c & -> & Hc).
    unfold viewCell in Hs. cbn [snd] in Hs.
    apply list_elem_of_fmap in Hs as (m & -> & Hm).
    by destruct (Hone p c m Hc Hm Hsug). }
  unfold resolvedView, resolvedSlots.
  assert (Hslots : imap (resolvedCell act spans) v
                   = imap (fun (p : nat) (x : VCell) =>
                             if String.eqb (markToDelete act) T && inRange a b p
                             then None
                             else Some (if inRange a b p then stripType T x else x)) v).
  { apply imap_ext. intros p x Hp. unfold resolvedCell.
    rewrite (Hcov _ p x Hp).
    destruct (String.eqb (markToDelete act) T && inRange a b p); [done|]. f_equal.
    destruct (inRange a b p) eqn:Hr.
    - unfold stripType. f_equal. apply filter_ext_in. intros s Hs.
      rewrite (Hcov _ p x Hp), Hr, andb_true_r.
      destruct (String.eqb_spec s.1 T); split; intros; done.
    - destruct x as [u ms]. cbn [fst snd]. f_equal. apply filter_all. intros s Hs.
      by rewrite (Hcov _ p (u, ms) Hp), Hr, andb_false_r. }
  rewrite Hslots.
  destruct (String.eqb (markToDelete act) T).
  - assert (Hmr : imap (fun (p : nat) (x : VCell) =>
                          if true && inRange a b p then None
                          else Some (if inRange a b p then stripType T x else x)) v
                  = mapRange a b (fun _ => None) (Some <$> v)).
    { apply list_eq. intros i. rewrite mapRange_lookup, list_lookup_imap, list_lookup_fmap.
      destruct (v !! i); [|done]. cbn. by destruct (inRange a b i). }
    rewrite Hmr, mapRange_split by done. unfold sliceList.
    rewrite <- fmap_take, <- fmap_drop, !surviving_app, !surviving_some.
    rewrite surviving_none by done. done.
  - assert (Hmr : imap (fun (p : nat) (x : VCell) =>
                          if false && inRange a b p then None
                          else Some (if inRange a b p then stripType T x else x)) v
                  = Some <$> mapRange a b (stripType T) v).
    { apply list_eq. intros i. rewrite list_lookup_imap, list_lookup_fmap, mapRange_lookup.
      by destruct (v !! i). }
    by rewrite Hmr, surviving_some.
Qed.

(** ** Typing and deleting under tracking, then resolving everything *)

Section RoundTrips.
Context `{Host}.

Lemma contentSize_docSlice (content : list Node) (a b : Z) :
  0 <= a -> a < b -> b <= contentSize content ->
  contentSize (docSlice content a b) = b - a.
Proof.
  intros H0 Hab Hb. rewrite <- length_cells, cells_docSlice by done.
  unfold sliceList. rewrite length_drop, length_take.
  pose proof (length_cells content). lia.
Qed.

(** What the transformer appends to the deletion of a range that holds more
    than white space, in a place without pending marks: the removed slice,
    put back where it was, under a new pending-delete mark. *)
Lemma appendTransaction_deleted (state newState : EditorState) (a b : Z)
  (next : nat) :
  inSuggestionMode (plugin state) = true ->
  0 <= a -> a < b -> b <= contentSize (doc state) ->
  cleanMarks (marksAt (doc state) a) ->
  stripWhitespace (sliceList a b (docText (doc state))) <> [] ->
  findNonStartingPos (doc newState) a = a ->
  let deleteMark :=
    createMark next "suggestion_delete" (mergeMeta (plugin state) None) in
  let marked :=
    addMark a b deleteMark
      (replace a a (docSlice (doc state) a b)
               (setMeta skipMeta (state_tr newState))) in
  appendTransaction [delete a b (state_tr state)] state newState next
  = (Some (if selection_from newState =? a then setSelection a marked else marked),
     S next).
Proof.
  intros Hon H0 Hab Hb Hclean Htext Hpos deleteMark marked.
  set (step_ := ReplaceStep a b []).
  assert (Ht : delete a b (state_tr state) = step step_ (state_tr state)).
  { unfold delete, replace. destruct (Z.eqb_spec a b); [lia|done]. }
  rewrite Ht.
  rewrite (appendTransaction_single _ step_) by done.
  set (l0 := {| tr := state_tr newState; changed := false;
                intermediateTr := doc state; lastStep := None; fresh := next |}).
  assert (Hex : existingSuggestionMarkOf l0 step_ = None).
  { unfold existingSuggestionMarkOf, intermediateDoc. cbn [lastStep l0 intermediateTr step_from step_].
    by apply find_clean. }
  assert (Hrem : removedSliceOf l0 step_ = docSlice (doc state) a b) by done.
  assert (Hsize : contentSize (removedSliceOf l0 step_) = b - a).
  { rewrite Hrem. by apply contentSize_docSlice. }
  assert (Hrt : removedTextOf l0 step_ = sliceList a b (docText (doc state))).
  { unfold removedTextOf. rewrite Hrem, textBetween_all. by apply docText_docSlice. }
  assert (Hadd : addedSliceSizeOf l0 step_ = 0) by done.
  assert (Hfrom : reinsertPos [step step_ (state_tr state)] 0 0 step_
                    (setMeta skipMeta (tr l0)) = a).
  { unfold reinsertPos, mapToNewDocPos. cbn [tr l0 drop imap tr_steps step state_tr app concat map
      getMap step_ step_from setMeta tr_mapping tr_doc mapping_map fold_left contentSize
      fold_right].
    rewrite Z.sub_0_r || idtac. 
    replace (stepMap_map [(a, b - a, 0)] a) with a
      by (rewrite stepMap_map_delete by done; destruct (Z.ltb_spec a a); [lia|];
          destruct (Z.leb_spec a b); lia).
    done. }
  unfold processStep. rewrite Hex, Hsize, Hrt, Hadd, Hfrom.
  destruct (Z.ltb_spec 0 (b - a)) as [_|?]; [|lia].
  destruct (stripWhitespace (sliceList a b (docText (doc state)))) as [|u rest];
    [done|].
  cbn [length Nat.eqb andb]. change (0 <? 0) with false. cbn iota.
  rewrite Hrem. replace (a + (b - a)) with b by lia.
  cbn [changed tr fresh l0].
  unfold isBackspaceOf. cbn [isReplaceStep step_ orb step_sliceSize contentSize
    fold_right step_from andb]. change (0 =? 0) with true. cbn [andb].
  done.
Qed.

(** The document the editor holds once the transformer appended something. *)
Lemma dispatch_appended (t appended : Transaction) (e : Editor) (next' : nat) :
  appendTransaction [t] (ed_state e) (applyPlain t (ed_state e)) (ed_fresh e)
  = (Some appended, next') ->
  doc (ed_state (dispatchTransaction t e)) = tr_doc appended.
Proof. intros Happ. unfold dispatchTransaction. by rewrite Happ. Qed.

Lemma validDoc_addMark from to m (t : Transaction) :
  validDoc (tr_doc t) = true -> validDoc (tr_doc (addMark from to m t)) = true.
Proof.
  intros Hv. unfold addMark. destruct (existsb _ _); [apply validDoc_step|done].
Qed.

(** Resolving everything in a document whose pending marks are one region
    of one type. *)
Lemma runAll_region (act : Action) (e2 : Editor) (T : string) (a b : Z) :
  validDoc (doc (ed_state e2)) = true ->
  (forall (p : nat) c m,
      cells (doc (ed_state e2)) !! p = Some c -> m ∈ c.2 ->
      isSuggestionName (type_name m) = true ->
      type_name m = T /\ a <= Z.of_nat p < b) ->
  (forall (p : nat) c,
      cells (doc (ed_state e2)) !! p = Some c -> a <= Z.of_nat p < b ->
      exists m, m ∈ c.2 /\ type_name m = T) ->
  isSuggestionName T = true ->
  0 <= a -> a < b -> b <= contentSize (doc (ed_state e2)) ->
  let result :=
    runCommand (processSuggestionsInRange act 0 (contentSize (doc (ed_state e2))))
               true e2 in
  result.1 = true
  /\ view (doc (ed_state result.2))
     = if String.eqb (markToDelete act) T
       then take (Z.to_nat a) (view (doc (ed_state e2)))
              ++ drop (Z.to_nat b) (view (doc (ed_state e2)))
       else mapRange a b (stripType T) (view (doc (ed_state e2))).
Proof.
  intros Hvalid Hone Hall HT H0 Hab Hb result.
  set (size := contentSize (doc (ed_state e2))) in *.
  set (spans := findSuggestionsInRange (ed_state e2) 0 size).
  assert (Hcov : covers T spans (Z.to_nat a) = true).
  { unfold spans. rewrite (region_covers _ T a b 0 size) by (try done; lia).
    rewrite String.eqb_refl. apply inRange_spec. lia. }
  assert (Hres : resolvedView act spans (view (doc (ed_state e2)))
                 = if String.eqb (markToDelete act) T
                   then take (Z.to_nat a) (view (doc (ed_state e2)))
                          ++ drop (Z.to_nat b) (view (doc (ed_state e2)))
                   else mapRange a b (stripType T) (view (doc (ed_state e2)))).
  { apply region_resolved; try done; lia. }
  rewrite <- Hres.
  unfold result, runCommand, processSuggestionsInRange. fold size spans.
  destruct spans as [|s rest] eqn:Hspans; [done|].
  cbn [fst snd]. split; [done|].
  rewrite dispatch_resolveSuggestions. cbn [ed_state doc].
  rewrite <- Hspans. apply resolveSuggestions_view.
  unfold spans. apply findSuggestionsInRange_within.
Qed.

(** The editor after text was typed in a document without pending marks. *)
Lemma typeText_region (e : Editor) (txt : list N) (p : Z) :
  inSuggestionMode (plugin (ed_state e)) = true ->
  txt <> [] -> 0 <= p <= contentSize (doc (ed_state e)) ->
  noSuggestions (doc (ed_state e)) ->
  let d2 := doc (ed_state (typeText txt p e)) in
  let to := p + Z.of_nat (length txt) in
  let plain := view (tr_doc (insertText txt p (ed_state e))) in
  validDoc d2 = true
  /\ contentSize d2 = contentSize (doc (ed_state e)) + Z.of_nat (length txt)
  /\ plain = take (Z.to_nat p) (view (doc (ed_state e)))
              ++ ((fun u => (u, markSpec <$> marksAt (doc (ed_state e)) p)) <$> txt)
              ++ drop (Z.to_nat p) (view (doc (ed_state e)))
  /\ mapRange p to (stripType "suggestion_insert") (view d2) = plain
  /\ (forall (q : nat) c m,
        cells d2 !! q = Some c -> m ∈ c.2 ->
        isSuggestionName (type_name m) = true ->
        type_name m = "suggestion_insert" /\ p <= Z.of_nat q < to)
  /\ (forall (q : nat) c,
        cells d2 !! q = Some c -> p <= Z.of_nat q < to ->
        exists m, m ∈ c.2 /\ type_name m = "suggestion_insert").
Proof.
  intros Hon Htxt Hp Hno d2 to plain.
  set (state := ed_state e) in *.
  set (t := insertText txt p state).
  set (newState := applyPlain t state).
  set (m1 := createMark (ed_fresh e) "suggestion_insert" (mergeMeta (plugin state) None)).
  set (t0 := setMeta skipMeta (state_tr newState)).
  set (node := {| text := txt; marks := marksAt (doc state) p |}).
  assert (Ht : tr_doc t = applyStep (ReplaceStep p p [node]) (doc state)).
  { unfold t, insertText. by destruct txt. }
  assert (Hd2 : d2 = tr_doc (addMark p to m1 t0)).
  { unfold d2, typeText. apply (dispatch_appended _ _ _ (S (ed_fresh e))).
    apply appendTransaction_typed; [done|done|]. by apply marksAt_clean. }
  assert (Hplain : plain = take (Z.to_nat p) (view (doc state))
                            ++ ((fun u => (u, markSpec <$> marksAt (doc state) p)) <$> txt)
                            ++ drop (Z.to_nat p) (view (doc state))).
  { unfold plain. fold t. rewrite Ht, view_replace. unfold replaceCells. f_equal. f_equal.
    unfold view. rewrite cells_cons. cbn [cells flat_map text marks node].
    rewrite app_nil_r. change (map ?g ?l) with (g <$> l).
    rewrite <- list_fmap_compose. by apply list_fmap_ext. }
  assert (Hclean0 : cleanCells (cells (tr_doc t0))).
  { change (tr_doc t0) with (tr_doc t). rewrite Ht. unfold applyStep.
    apply noSuggestions_cells, noSuggestions_group. cbn [applyStepCells].
    unfold replaceCells. intros c Hc.
    apply elem_of_app in Hc as [Hc|Hc]; [|apply elem_of_app in Hc as [Hc|Hc]].
    - by apply (cleanCells_take _ (Z.to_nat p) (noSuggestions_cells _ Hno)).
    - rewrite cells_cons in Hc. cbn [cells flat_map text marks node] in Hc.
      rewrite app_nil_r in Hc. change (map ?g ?l) with (g <$> l) in Hc.
      apply list_elem_of_fmap in Hc as (u & -> & _). cbn [snd].
      by apply marksAt_clean.
    - by apply (cleanCells_drop _ (Z.to_nat p) (noSuggestions_cells _ Hno)). }
  destruct (marked_region t0 p to m1 Hclean0 eq_refl) as (Hstrip & Hone & Hall).
  rewrite <- Hd2 in Hstrip, Hone, Hall.
  change (tr_doc t0) with (tr_doc t) in Hstrip.
  split.
  { rewrite Hd2. apply validDoc_addMark. change (tr_doc t0) with (tr_doc t).
    rewrite Ht. apply validDoc_group. }
  split.
  { rewrite <- !length_view.
    rewrite <- (length_mapRange p to (stripType "suggestion_insert") (view d2)).
    change (type_name m1) with "suggestion_insert" in Hstrip. rewrite Hstrip.
    change (view (tr_doc t)) with plain. rewrite Hplain, !length_app, length_take, length_drop, length_fmap.
    pose proof (length_view (doc state)). lia. }
  split; [done|]. split; [done|]. split; [done|done].
Qed.

(** The editor after a range that holds more than white space was deleted
    from a document without pending marks. *)
Lemma deleteText_region (e : Editor) (a b : Z) :
  inSuggestionMode (plugin (ed_state e)) = true ->
  0 <= a -> a < b -> b <= contentSize (doc (ed_state e)) ->
  noSuggestions (doc (ed_state e)) ->
  stripWhitespace (sliceList a b (docText (doc (ed_state e)))) <> [] ->
  findNonStartingPos (tr_doc (delete a b (state_tr (ed_state e)))) a = a ->
  let d2 := doc (ed_state (deleteText a b e)) in
  validDoc d2 = true
  /\ contentSize d2 = contentSize (doc (ed_state e))
  /\ mapRange a b (stripType "suggestion_delete") (view d2) = view (doc (ed_state e))
  /\ (forall (q : nat) c m,
        cells d2 !! q = Some c -> m ∈ c.2 ->
        isSuggestionName (type_name m) = true ->
        type_name m = "suggestion_delete" /\ a <= Z.of_nat q < b)
  /\ (forall (q : nat) c,
        cells d2 !! q = Some c -> a <= Z.of_nat q < b ->
        exists m, m ∈ c.2 /\ type_name m = "suggestion_delete").
Proof.
  intros Hon H0 Hab Hb Hno Htext Hpos d2.
  set (state := ed_state e) in *.
  set (t := delete a b (state_tr state)) in *.
  set (newState := applyPlain t state).
  set (m1 := createMark (ed_fresh e) "suggestion_delete" (mergeMeta (plugin state) None)).
  set (t1 := replace a a (docSlice (doc state) a b) (setMeta skipMeta (state_tr newState))).
  assert (Hd2 : d2 = tr_doc (addMark a b m1 t1)).
  { pose proof (appendTransaction_deleted state newState a b (ed_fresh e) Hon H0 Hab Hb
                  (marksAt_clean _ _ Hno) Htext Hpos) as Happ.
    cbv zeta in Happ.
    unfold d2, deleteText.
    etrans; [exact (dispatch_appended _ _ _ _ Happ)|].
    by destruct (selection_from newState =? a). }
  assert (Hview1 : view (tr_doc t1) = view (doc state)).
  { unfold t1, replace.
    rewrite contentSize_docSlice by done.
    destruct (Z.eqb_spec (b - a) 0); [lia|]. rewrite andb_false_r.
    cbn [step tr_doc setMeta state_tr]. rewrite view_replace.
    change (doc newState) with (tr_doc t). unfold t. rewrite view_delete.
    cbn [state_tr tr_doc]. unfold replaceCells.
    pose proof (length_view (doc state)) as Hlen.
    rewrite take_app_length' by (rewrite length_take; lia).
    rewrite drop_app_length' by (rewrite length_take; lia).
    unfold view at 2. rewrite cells_docSlice by done.
    unfold sliceList. rewrite fmap_drop, fmap_take. fold (view (doc state)).
    symmetry. apply split3. lia. }
  assert (Hclean1 : cleanCells (cells (tr_doc t1))).
  { apply (cleanCells_view _ (cells (doc state))); [exact Hview1|].
    by apply noSuggestions_cells. }
  assert (Hvalid1 : validDoc (tr_doc t1) = true).
  { unfold t1, replace. rewrite contentSize_docSlice by done.
    destruct (Z.eqb_spec (b - a) 0); [lia|]. rewrite andb_false_r.
    apply validDoc_step. }
  destruct (marked_region t1 a b m1 Hclean1 eq_refl) as (Hstrip & Hone & Hall).
  rewrite <- Hd2 in Hstrip, Hone, Hall.
  change (type_name m1) with "suggestion_delete" in Hstrip, Hone, Hall.
  rewrite Hview1 in Hstrip.
  split; [rewrite Hd2; by apply validDoc_addMark|].
  split.
  { rewrite <- !length_view.
    rewrite <- (length_mapRange a b (stripType "suggestion_delete") (view d2)).
    by rewrite Hstrip. }
  done.
Qed.

Lemma mapRange_outside {A} (a b : Z) (g : A -> A) (v2 v : list A) :
  mapRange a b g v2 = v -> 0 <= a <= b -> b <= Z.of_nat (length v2) ->
  take (Z.to_nat a) v2 = take (Z.to_nat a) v
  /\ drop (Z.to_nat b) v2 = drop (Z.to_nat b) v.
Proof.
  intros Hmap Hab Hb. rewrite mapRange_split in Hmap by done. subst v.
  assert (Hl1 : length (take (Z.to_nat a) v2) = Z.to_nat a)
    by (rewrite length_take; lia).
  assert (Hl2 : length (g <$> sliceList a b v2) = (Z.to_nat b - Z.to_nat a)%nat).
  { unfold sliceList. rewrite length_fmap, length_drop, length_take. lia. }
  split.
  - by rewrite (parts_take _ _ _ (Z.to_nat a)).
  - replace (Z.to_nat b) with (Z.to_nat a + (Z.to_nat b - Z.to_nat a))%nat at 2 by lia.
    by rewrite (parts_drop _ _ _ (Z.to_nat a) (Z.to_nat b - Z.to_nat a)).
Qed.

Lemma mapRange_fst {A B} (a b : Z) (g : A * B -> A * B) (v : list (A * B)) :
  (forall x, (g x).1 = x.1) -> (mapRange a b g v).*1 = v.*1.
Proof.
  intros Hg. apply list_eq. intros i.
  rewrite !list_lookup_fmap, mapRange_lookup.
  destruct (v !! i); [|done]. cbn. destruct (inRange a b i); by rewrite ?Hg.
Qed.

(** X16. Two characters typed one after the other, in a document without
    pending marks, end up under one pending-insert mark: the locator finds a
    single span, and it runs over both characters. *)
Theorem typed_twice_one_span (e : Editor) (c1 c2 : N) (p : Z) :
  inSuggestionMode (plugin (ed_state e)) = true ->
  noSuggestionsb (doc (ed_state e)) = true ->
  0 <= p <= contentSize (doc (ed_state e)) ->
  let twice := typeText [c2] (p + 1) (typeText [c1] p e) in
  findSuggestionsInRange (ed_state twice) 0 (contentSize (doc (ed_state twice)))
  = [{| mr_mark := insertMarkOf e; mr_from := p; mr_to := p + 2 |}]
  /\ type_name (insertMarkOf e) = "suggestion_insert"
  /\ docText (doc (ed_state twice))
     = take (Z.to_nat p) (docText (doc (ed_state e))) ++ [c1; c2]
         ++ drop (Z.to_nat p) (docText (doc (ed_state e))).
Proof.
  intros Hon Hno%noSuggestionsb_spec Hp twice.
  destruct (typeText_twice e c1 c2 p Hon Hno Hp) as [Hfound Htext].
  by repeat split.
Qed.

(** X17. Typing under tracking and then accepting all suggestions gives the
    document that typing without tracking gives: the typed text is there with
    the marks it took over at the caret, and the rest is as it was. *)
Theorem typed_then_accepted_all (e : Editor) (txt : list N) (p : Z) :
  inSuggestionMode (plugin (ed_state e)) = true ->
  txt <> [] -> 0 <= p <= contentSize (doc (ed_state e)) ->
  noSuggestionsb (doc (ed_state e)) = true ->
  let typed := typeText txt p e in
  let result := runCommand acceptAllSuggestions true typed in
  result.1 = true
  /\ view (doc (ed_state result.2)) = view (tr_doc (insertText txt p (ed_state e)))
  /\ docText (doc (ed_state result.2))
     = take (Z.to_nat p) (docText (doc (ed_state e))) ++ txt
         ++ drop (Z.to_nat p) (docText (doc (ed_state e))).
Proof.
  intros Hon Htxt Hp Hno%noSuggestionsb_spec typed result.
  destruct (typeText_region e txt p Hon Htxt Hp Hno)
    as (Hvalid & Hsize & Hplain & Hstrip & Hone & Hall).
  fold typed in Hvalid, Hsize, Hstrip, Hone, Hall.
  assert (Hlen : (0 < length txt)%nat) by (destruct txt; [done|cbn; lia]).
  destruct (runAll_region accept typed "suggestion_insert" p
              (p + Z.of_nat (length txt)) Hvalid Hone Hall eq_refl)
    as [Htrue Hview]; [lia|lia|lia|].
  change (runCommand _ true typed) with result in Htrue, Hview.
  cbn [markToDelete String.eqb Ascii.eqb Bool.eqb] in Hview.
  rewrite Hstrip in Hview.
  split; [done|]. split; [done|].
  rewrite docText_view, Hview, Hplain, !fmap_app, !fmap_take, !fmap_drop.
  rewrite <- !docText_view. f_equal. f_equal.
  rewrite <- list_fmap_compose. cbn. by rewrite list_fmap_id.
Qed.

(** X18. Deleting under tracking keeps the text: in a document without
    pending marks, after a range holding more than white space was deleted,
    the document has the text it had, every position of the range wears a
    pending-delete mark, and no other suggestion mark is there; rejecting all
    suggestions then gives back the document as it was before, text and
    marks. *)
Theorem deleted_then_rejected_all (e : Editor) (a b : Z) :
  inSuggestionMode (plugin (ed_state e)) = true ->
  0 <= a -> a < b -> b <= contentSize (doc (ed_state e)) ->
  noSuggestionsb (doc (ed_state e)) = true ->
  stripWhitespace (sliceList a b (docText (doc (ed_state e)))) <> [] ->
  findNonStartingPos (tr_doc (delete a b (state_tr (ed_state e)))) a = a ->
  let deleted := deleteText a b e in
  let result := runCommand rejectAllSuggestions true deleted in
  docText (doc (ed_state deleted)) = docText (doc (ed_state e))
  /\ (forall (q : nat) c,
        cells (doc (ed_state deleted)) !! q = Some c ->
        (a <= Z.of_nat q < b ->
         exists m, m ∈ c.2 /\ type_name m = "suggestion_delete")
        /\ (forall m, m ∈ c.2 -> isSuggestionName (type_name m) = true ->
              type_name m = "suggestion_delete" /\ a <= Z.of_nat q < b))
  /\ result.1 = true
  /\ view (doc (ed_state result.2)) = view (doc (ed_state e)).
Proof.
  intros Hon H0 Hab Hb Hno%noSuggestionsb_spec Htext Hpos deleted result.
  destruct (deleteText_region e a b Hon H0 Hab Hb Hno Htext Hpos)
    as (Hvalid & Hsize & Hstrip & Hone & Hall).
  fold deleted in Hvalid, Hsize, Hstrip, Hone, Hall.
  destruct (runAll_region reject deleted "suggestion_delete" a b
              Hvalid Hone Hall eq_refl)
    as [Htrue Hview]; [lia|lia|lia|].
  change (runCommand _ true deleted) with result in Htrue, Hview.
  cbn [markToDelete String.eqb Ascii.eqb Bool.eqb] in Hview.
  rewrite Hstrip in Hview.
  split.
  { rewrite !docText_view, <- Hstrip. symmetry. by apply mapRange_fst. }
  split; [|done].
  intros q c Hq. split; [by apply Hall|]. intros m Hm Hsug. by apply (Hone q c m).
Qed.

(** X19. Deleting under tracking and then accepting all suggestions gives
    the document that deleting without tracking gives: the range is gone and
    the rest is as it was. *)
Theorem deleted_then_accepted_all (e : Editor) (a b : Z) :
  inSuggestionMode (plugin (ed_state e)) = true ->
  0 <= a -> a < b -> b <= contentSize (doc (ed_state e)) ->
  noSuggestionsb (doc (ed_state e)) = true ->
  stripWhitespace (sliceList a b (docText (doc (ed_state e)))) <> [] ->
  findNonStartingPos (tr_doc (delete a b (state_tr (ed_state e)))) a = a ->
  let deleted := deleteText a b e in
  let result := runCommand acceptAllSuggestions true deleted in
  result.1 = true
  /\ view (doc (ed_state result.2))
     = view (tr_doc (delete a b (state_tr (ed_state e))))
  /\ docText (doc (ed_state result.2))
     = take (Z.to_nat a) (docText (doc (ed_state e)))
         ++ drop (Z.to_nat b) (docText (doc (ed_state e))).
Proof.
  intros Hon H0 Hab Hb Hno%noSuggestionsb_spec Htext Hpos deleted result.
  destruct (deleteText_region e a b Hon H0 Hab Hb Hno Htext Hpos)
    as (Hvalid & Hsize & Hstrip & Hone & Hall).
  fold deleted in Hvalid, Hsize, Hstrip, Hone, Hall.
  destruct (runAll_region accept deleted "suggestion_delete" a b
              Hvalid Hone Hall eq_refl)
    as [Htrue Hview]; [lia|lia|lia|].
  change (runCommand _ true deleted) with result in Htrue, Hview.
  cbn [markToDelete String.eqb Ascii.eqb Bool.eqb] in Hview.
  pose proof (length_view (doc (ed_state deleted))) as Hlen.
  destruct (mapRange_outside _ _ _ _ _ Hstrip) as [Htake Hdrop]; [lia|lia|].
  rewrite Htake, Hdrop in Hview.
  split; [done|].
  assert (Hplain : view (doc (ed_state result.2))
                   = view (tr_doc (delete a b (state_tr (ed_state e))))).
  { rewrite Hview, view_delete. done. }
  split; [done|].
  rewrite docText_view, Hview, fmap_app, fmap_take, fmap_drop.
  by rewrite <- docText_view.
Qed.

End RoundTrips.

(** ** The order of the spans *)

Lemma ascending_weaken (b b' : Z) (ps : list Z) :
  b' <= b -> ascending b ps -> ascending b' ps.
Proof. destruct ps as [|p ps]; [done|]. cbn. intros Hb [Hp Hps]. split; [lia|done]. Qed.

Lemma ascending_snoc (b x : Z) (ps : list Z) :
  ascending b ps -> b <= x -> (forall y, y ∈ ps -> y <= x) -> ascending b (ps ++ [x]).
Proof.
  revert b. induction ps as [|p ps IH]; intros b Hps Hb Hle; [done|].
  destruct Hps as [Hp Hps]. cbn. split; [done|].
  apply IH; [done| |].
  - apply Hle. left.
  - intros y Hy. apply Hle. by right.
Qed.

Lemma ascending_app (b c : Z) (ps qs : list Z) :
  ascending b ps -> (forall y, y ∈ ps -> y <= c) -> b <= c -> ascending c qs ->
  ascending b (ps ++ qs).
Proof.
  revert b. induction ps as [|p ps IH]; intros b Hps Hle Hb Hqs.
  - cbn. by apply (ascending_weaken c).
  - destruct Hps as [Hp Hps]. cbn. split; [done|].
    apply IH; [done| | |done].
    + intros y Hy. apply Hle. by right.
    + apply Hle. left.
Qed.

Lemma mapSet_absent k v (m : MarkMap) :
  mapGet k m = None -> mapSet k v m = m ++ [(k, v)].
Proof.
  induction m as [|[k' v'] m IH]; [done|]. cbn.
  destruct (bool_decide (k' = k)); [done|]. intros Hm. by rewrite IH.
Qed.

Lemma mapSet_present k v v0 (m : MarkMap) :
  mapGet k m = Some v0 -> v.1 = v0.1 ->
  (fun e : Mark * (Z * Z) => e.2.1) <$> mapSet k v m
  = (fun e : Mark * (Z * Z) => e.2.1) <$> m.
Proof.
  induction m as [|[k' v'] m IH]; [done|]. cbn.
  destruct (bool_decide (k' = k)).
  - intros [= ->] Hv. cbn. by rewrite Hv.
  - intros Hm Hv. cbn. by rewrite IH.
Qed.

(** The walk meets the nodes in the order of their positions. *)
Lemma markEvents_ascending (content : list Node) (from to : Z) : forall pos,
  ascending pos
    ((fun e : Mark * Z * Z => e.1.2) <$> markEvents (nodesBetween_at pos content from to)).
Proof.
  induction content as [|child rest IH]; intros pos; [done|].
  cbn [nodesBetween_at]. destruct (pos <? to); [|done].
  unfold markEvents. rewrite flat_map_app, fmap_app.
  pose proof (nodeSize_nonneg child) as Hs.
  apply (ascending_app pos (pos + nodeSize child)); [| |lia|apply IH].
  - destruct (from <? pos + nodeSize child); [|done].
    cbn [flat_map]. rewrite app_nil_r.
    induction (marks child) as [|m ms IHm]; [done|]. cbn. split; [lia|].
    exact IHm.
  - intros y Hy. destruct (from <? pos + nodeSize child); [|by apply elem_of_nil in Hy].
    cbn [flat_map] in Hy. rewrite app_nil_r in Hy.
    apply list_elem_of_fmap in Hy as ([[m q] sz] & -> & Hin).
    change (map ?g ?l) with (g <$> l) in Hin.
    apply list_elem_of_fmap in Hin as (m' & [= -> -> ->] & _). cbn. lia.
Qed.

Lemma noteEvent_ascending (evs : list (Mark * Z * Z)) : forall (acc : MarkMap) (b : Z),
  0 <= b ->
  ascending 0 ((fun e : Mark * (Z * Z) => e.2.1) <$> acc) ->
  (forall f, f ∈ (fun e : Mark * (Z * Z) => e.2.1) <$> acc -> f <= b) ->
  ascending b ((fun e : Mark * Z * Z => e.1.2) <$> evs) ->
  ascending 0 ((fun e : Mark * (Z * Z) => e.2.1) <$> fold_left noteEvent evs acc).
Proof.
  induction evs as [|[[m pos] size] evs IH]; intros acc b Hb Hacc Hle Hevs; [done|].
  cbn [fold_left]. destruct Hevs as [Hpos Hevs]. cbn in Hpos.
  apply (IH _ pos); [lia| | |done].
  - unfold noteEvent, noteMark. cbn [fst snd].
    destruct (isSuggestionName (type_name m)); [|done].
    destruct (mapGet m acc) as [[f0 t0]|] eqn:Hget.
    + erewrite mapSet_present; [done|exact Hget|]. cbn.
      assert (Hf0 : f0 <= b).
      { apply Hle. apply mapGet_Some in Hget. apply list_elem_of_fmap.
        by exists (m, (f0, t0)). }
      lia.
    + rewrite mapSet_absent by done. rewrite fmap_app. cbn.
      rewrite Z.min_id. apply ascending_snoc; [done|lia|].
      intros y Hy. specialize (Hle y Hy). lia.
  - intros f Hf. unfold noteEvent, noteMark in Hf. cbn [fst snd] in Hf.
    destruct (isSuggestionName (type_name m)); [|specialize (Hle f Hf); lia].
    destruct (mapGet m acc) as [[f0 t0]|] eqn:Hget.
    + erewrite mapSet_present in Hf; [|exact Hget|].
      * specialize (Hle f Hf). lia.
      * cbn. assert (Hf0 : f0 <= b).
        { apply Hle. apply mapGet_Some in Hget. apply list_elem_of_fmap.
          by exists (m, (f0, t0)). }
        lia.
    + rewrite mapSet_absent in Hf by done. rewrite fmap_app in Hf. cbn in Hf.
      apply elem_of_app in Hf as [Hf|Hf]; [specialize (Hle f Hf); lia|].
      apply list_elem_of_singleton in Hf. lia.
Qed.

(** X20. The spans come in the order of their starts: no span starts before
    a span that precedes it in the list the locator returns. *)
Theorem findSuggestionsInRange_ascending (state : EditorState) (from to : Z) :
  ascending 0 (mr_from <$> findSuggestionsInRange state from to).
Proof.
  unfold findSuggestionsInRange. change (map ?g ?l) with (g <$> l).
  rewrite <- list_fmap_compose.
  assert (Hext : (mr_from ∘ (fun '(mark, range) =>
                    {| mr_mark := mark; mr_from := range.1; mr_to := range.2 |}))
                   <$> collectSuggestions (nodesBetween (doc state) from to)
                 = (fun e : Mark * (Z * Z) => e.2.1)
                   <$> collectSuggestions (nodesBetween (doc state) from to)).
  { apply list_fmap_ext. by intros i [m r]. }
  rewrite Hext, collectSuggestions_events.
  apply (noteEvent_ascending _ [] 0); [lia|done| |].
  - intros f Hf. by apply elem_of_nil in Hf.
  - apply markEvents_ascending.
Qed.

(** ** More on what is kept *)

Section KeptMore.
Context `{Host}.

Lemma covers_suggestion (state : EditorState) (from to : Z) name (p : nat) :
  covers name (findSuggestionsInRange state from to) p = true ->
  isSuggestionName name = true.
Proof.
  intros Hcov. unfold covers in Hcov.
  apply existsb_exists in Hcov as (r & Hr%list_elem_of_In & Hrp).
  apply andb_true_iff in Hrp as [<-%String.eqb_eq _].
  destruct (locator_spec state from to) as (_ & _ & Hfound & _).
  apply (Hfound (mr_mark r)). apply list_elem_of_fmap. by exists r.
Qed.

(** X21. An accept or reject never touches a mark that is not a suggestion
    mark: with the suggestion marks left aside, what it leaves is the
    document with the removed positions taken out. *)
Theorem resolveSuggestions_other_marks (a : Action) (state : EditorState)
  (from to : Z) :
  let spans := findSuggestionsInRange state from to in
  let others := fun c : VCell =>
                  (c.1, filter (fun s => isSuggestionName s.1 = false) c.2) in
  others <$> view (tr_doc (resolveSuggestions a state spans))
  = surviving
      (imap (fun (p : nat) (c : VCell) =>
               if covers (markToDelete a) spans p then None else Some (others c))
            (view (doc state))).
Proof.
  intros spans others.
  rewrite resolveSuggestions_view by apply findSuggestionsInRange_within.
  unfold resolvedView, resolvedSlots. rewrite <- surviving_fmap. f_equal.
  apply list_eq. intros i.
  rewrite list_lookup_fmap, !list_lookup_imap.
  destruct (view (doc state) !! i) as [c|]; [|done]. cbn [fmap option_fmap option_map].
  unfold resolvedCell. fold spans.
  destruct (covers (markToDelete a) spans i); [done|].
  cbn [fmap option_fmap option_map]. unfold others. cbn [fst snd].
  rewrite list_filter_filter. apply (f_equal (fun x => Some (Some (c.1, x)))).
  apply filter_ext_in. intros s Hs. split; [by intros [? _]|].
  intros Hno. split; [done|].
  destruct (covers s.1 spans i) eqn:Hcov; [|done].
  apply covers_suggestion in Hcov. by rewrite Hcov in Hno.
Qed.

Lemma processStep_intermediate (newState : EditorState) (meta : Meta)
  (transactions : list Transaction) (trIndex stepIndex : nat) (step_ : Step)
  (l : Loop) :
  intermediateDoc (processStep newState meta transactions trIndex stepIndex step_ l)
  = applyStep step_ (intermediateDoc l).
Proof.
  unfold processStep.
  destruct (existingSuggestionMarkOf l step_) as [existing|].
  - by destruct (1 <? _).
  - destruct (_ && _); [done|].
    by destruct (0 <? contentSize (removedSliceOf l step_));
      destruct (0 <? addedSliceSizeOf l step_).
Qed.

(** X22. Inside a tracked transaction every step is read against the
    document the steps before it produced: once the loop went over some
    steps, its intermediate document is the one it started from with those
    steps applied. *)
Theorem intermediateDoc_replays (newState : EditorState) (meta : Meta)
  (transactions : list Transaction) (trIndex : nat) (steps : list Step) (l : Loop) :
  intermediateDoc
    (forEachIndexed (processStep newState meta transactions trIndex) steps l)
  = applySteps steps (intermediateDoc l).
Proof.
  unfold forEachIndexed, applySteps.
  assert (Hgen : forall (ps : list (nat * Step)) l0,
            intermediateDoc
              (fold_left (fun s '(i, x) =>
                            processStep newState meta transactions trIndex i x s) ps l0)
            = fold_left (fun d s => applyStep s d) ps.*2 (intermediateDoc l0)).
  { induction ps as [|[i s] ps IH]; intros l0; [done|].
    cbn [fold_left fmap list_fmap snd]. by rewrite IH, processStep_intermediate. }
  rewrite Hgen. f_equal.
  apply list_eq. intros i. rewrite list_lookup_fmap, list_lookup_imap.
  by destruct (steps !! i).
Qed.

(** X23. A transaction of one step that puts more than one position in
    where a pending mark is active: the transformer appends one transaction
    that puts that same mark over the range of the new document that holds
    the inserted slice; no new mark is made, and the text is left alone. *)
Theorem replaced_inside_pending (state : EditorState) (f t : Z)
  (slice : list Node) (existing : Mark) (next : nat) :
  inSuggestionMode (plugin state) = true ->
  0 <= f -> f <= t -> t <= contentSize (doc state) ->
  find (fun m => isSuggestionName (type_name m)) (marksAt (doc state) f)
  = Some existing ->
  1 < contentSize slice ->
  let tr1 := step (ReplaceStep f t slice) (state_tr state) in
  let newState := applyPlain tr1 state in
  let to := f + contentSize slice in
  let appended := addMark f to existing (setMeta skipMeta (state_tr newState)) in
  appendTransaction [tr1] state newState next = (Some appended, next)
  /\ sliceList f to (docText (doc newState)) = docText slice
  /\ (forall (i : nat) c,
        cells (tr_doc appended) !! i = Some c ->
        f <= Z.of_nat i < to -> isInSet existing c.2 = true)
  /\ docText (tr_doc appended) = docText (doc newState).
Proof.
  intros Hon H0 Hft Ht Hex Hsize tr1 newState to appended.
  set (step_ := ReplaceStep f t slice).
  set (l0 := {| tr := state_tr newState; changed := false;
                intermediateTr := doc state; lastStep := None; fresh := next |}).
  assert (Hex0 : existingSuggestionMarkOf l0 step_ = Some existing) by done.
  destruct (processStep_extends newState (mergeMeta (plugin state) None) [tr1] 0 0
              step_ l0 existing Hex0) as (Hfresh & Hmore & _).
  change (addedSliceSizeOf l0 step_) with (contentSize slice) in Hmore.
  destruct (Hmore Hsize) as (Htr & Hch & Hcov).
  split; [|split; [|split]].
  - rewrite (appendTransaction_single tr1 step_) by done.
    fold l0. cbv zeta. by rewrite Hch, Htr, Hfresh.
  - change (doc newState) with (applyStep (ReplaceStep f t slice) (doc state)).
    rewrite (docText_view (applyStep _ _)), view_replace. unfold replaceCells.
    rewrite !fmap_app, fmap_take, fmap_drop, <- !docText_view.
    unfold sliceList, to.
    pose proof (length_cells (doc state)) as Hlen.
    pose proof (length_cells slice) as Hlens.
    assert (Hl1 : length (take (Z.to_nat f) (docText (doc state))) = Z.to_nat f).
    { unfold docText. rewrite length_take, length_map. lia. }
    assert (Hl2 : length (docText slice) = Z.to_nat (contentSize slice)).
    { unfold docText. rewrite length_map. lia. }
    replace (Z.to_nat (f + contentSize slice))
      with (Z.to_nat f + Z.to_nat (contentSize slice))%nat by lia.
    by apply parts_mid.
  - intros i c Hi Hr. apply (Hcov i c); [|done]. by rewrite Htr.
  - unfold appended. by rewrite docText_addMark.
Qed.

End KeptMore.

(** ** Two pending regions: text replaced under tracking *)

(** In a document whose suggestion marks of each type sit on the positions
    of one range, the spans the locator finds for the whole document cover,
    for each type, exactly that range. *)
Lemma regions_covers (state : EditorState) (rg : string -> Z * Z) :
  validDoc (doc state) = true ->
  (forall (p : nat) c m,
      cells (doc state) !! p = Some c -> m ∈ c.2 ->
      isSuggestionName (type_name m) = true ->
      (rg (type_name m)).1 <= Z.of_nat p < (rg (type_name m)).2) ->
  (forall (p : nat) c name,
      cells (doc state) !! p = Some c -> (rg name).1 <= Z.of_nat p < (rg name).2 ->
      isSuggestionName name = true /\ exists m, m ∈ c.2 /\ type_name m = name) ->
  forall name (p : nat),
    Z.of_nat p < contentSize (doc state) ->
    covers name (findSuggestionsInRange state 0 (contentSize (doc state))) p
    = inRange (rg name).1 (rg name).2 p.
Proof.
  intros Hvalid Hone Hall name p Hp.
  set (size := contentSize (doc state)) in *.
  destruct (locator_spec state 0 size) as (Hvis & _ & Hfound & Hspan).
  assert (Hsize : forall i n, doc state !! i = Some n -> 0 < nodeSize n).
  { intros i n Hi. unfold validDoc in Hvalid. rewrite forallb_forall in Hvalid.
    apply Z.ltb_lt, Hvalid, list_elem_of_In. by eapply list_elem_of_lookup_2. }
  apply eq_true_iff_eq. split.
  - intros Hcov. unfold covers in Hcov.
    apply existsb_exists in Hcov as (r & Hr%list_elem_of_In & Hrp).
    apply andb_true_iff in Hrp as [Hname%String.eqb_eq Hin%inRange_spec].
    assert (Hsug : isSuggestionName (type_name (mr_mark r)) = true).
    { apply (Hfound (mr_mark r)). apply list_elem_of_fmap. by exists r. }
    destruct (Hspan r Hr)
      as ((n1 & p1 & Hv1 & Hm1 & Hlo) & (n2 & p2 & Hv2 & Hm2 & Hhi) & _).
    apply Hvis in Hv1 as (i1 & Hi1 & -> & _ & _).
    apply Hvis in Hv2 as (i2 & Hi2 & -> & _ & _).
    pose proof (Hsize _ _ Hi1) as Hs1. pose proof (Hsize _ _ Hi2) as Hs2.
    pose proof (contentSize_lookup _ _ _ Hi1) as [Hge1 _].
    pose proof (contentSize_lookup _ _ _ Hi2) as [Hge2 _].
    destruct (cells_of_node _ i1 n1 (Z.to_nat (contentSize (take i1 (doc state)))) Hi1)
      as [u1 Hc1]; [lia|].
    destruct (cells_of_node _ i2 n2
                (Z.to_nat (contentSize (take i2 (doc state)) + nodeSize n2 - 1)) Hi2)
      as [u2 Hc2]; [lia|].
    pose proof (Hone _ _ _ Hc1 Hm1 Hsug) as Hr1.
    pose proof (Hone _ _ _ Hc2 Hm2 Hsug) as Hr2.
    rewrite Hname in Hr1, Hr2. apply inRange_spec. lia.
  - intros Hin%inRange_spec.
    pose proof (length_cells (doc state)) as Hlen.
    destruct (lookup_lt_is_Some_2 (cells (doc state)) p) as [c Hc]; [fold size in Hlen; lia|].
    destruct (Hall p c name Hc Hin) as (Hsug & m & Hm & Hty).
    destruct (cells_lookup_node _ _ _ Hc) as (i & n0 & Hi & Hmarks & Hrange).
    rewrite Hmarks in Hm.
    pose proof (contentSize_lookup _ _ _ Hi) as Hbound.
    assert (Hvisited : (n0, contentSize (take i (doc state)))
                       ∈ nodesBetween (doc state) 0 size).
    { apply Hvis. exists i. split; [done|]. split; [done|]. fold size in Hbound. lia. }
    assert (Hmem : m ∈ mr_mark <$> findSuggestionsInRange state 0 size).
    { apply Hfound. split; [by rewrite Hty|]. by exists n0, (contentSize (take i (doc state))). }
    apply list_elem_of_fmap in Hmem as (r & -> & Hr).
    destruct (Hspan r Hr) as (_ & _ & Hcover).
    destruct (Hcover _ _ Hvisited Hm) as [Hlo Hhi].
    unfold covers. apply existsb_exists. exists r. split; [by apply list_elem_of_In|].
    apply andb_true_iff. split; [by apply String.eqb_eq|].
    apply inRange_spec. lia.
Qed.

(** What resolving everything leaves of such a document: the positions of
    the range of the kind to remove are cut out of the document in which
    every position lost the marks whose range holds it. *)
Lemma regions_resolved (act : Action) (state : EditorState) (rg : string -> Z * Z) :
  validDoc (doc state) = true ->
  (forall (p : nat) c m,
      cells (doc state) !! p = Some c -> m ∈ c.2 ->
      isSuggestionName (type_name m) = true ->
      (rg (type_name m)).1 <= Z.of_nat p < (rg (type_name m)).2) ->
  (forall (p : nat) c name,
      cells (doc state) !! p = Some c -> (rg name).1 <= Z.of_nat p < (rg name).2 ->
      isSuggestionName name = true /\ exists m, m ∈ c.2 /\ type_name m = name) ->
  0 <= (rg (markToDelete act)).1 <= (rg (markToDelete act)).2 ->
  let stripped :=
    imap (fun (p : nat) (x : VCell) =>
            (x.1, filter (fun s => inRange (rg s.1).1 (rg s.1).2 p = false) x.2))
         (view (doc state)) in
  resolvedView act (findSuggestionsInRange state 0 (contentSize (doc state)))
               (view (doc state))
  = take (Z.to_nat (rg (markToDelete act)).1) stripped
      ++ drop (Z.to_nat (rg (markToDelete act)).2) stripped.
Proof.
  intros Hvalid Hone Hall Hdel stripped.
  set (spans := findSuggestionsInRange state 0 (contentSize (doc state))).
  set (v := view (doc state)) in *.
  assert (Hcov : forall name (p : nat) x, v !! p = Some x ->
            covers name spans p = inRange (rg name).1 (rg name).2 p).
  { intros name p x Hp. apply regions_covers; try done.
    apply lookup_lt_Some in Hp. pose proof (length_view (doc state)) as Hlv.
    fold v in Hlv. lia. }
  unfold resolvedView, resolvedSlots.
  assert (Hslots : imap (resolvedCell act spans) v
                   = mapRange (rg (markToDelete act)).1 (rg (markToDelete act)).2
                              (fun _ => None) (Some <$> stripped)).
  { apply list_eq. intros i. unfold stripped.
    rewrite mapRange_lookup, list_lookup_fmap, !list_lookup_imap.
    destruct (v !! i) as [x|] eqn:Hi; [|done]. cbn [fmap option_fmap option_map].
    unfold resolvedCell. rewrite (Hcov _ i x Hi).
    destruct (inRange _ _ i); [done|].
    apply (f_equal (fun y => Some (Some (x.1, y)))).
    apply filter_ext_in. intros s Hs. by rewrite (Hcov _ i x Hi). }
  rewrite Hslots, mapRange_split by done. unfold sliceList.
  rewrite <- fmap_take, <- fmap_drop, !surviving_app, !surviving_some.
  by rewrite surviving_none.
Qed.

Lemma viewCell_mem (c c' : Cell) m :
  viewCell c = viewCell c' -> m ∈ c.2 ->
  exists m', m' ∈ c'.2 /\ markSpec m' = markSpec m.
Proof.
  intros Hcc Hin.
  assert (Hs : markSpec m ∈ (viewCell c).2).
  { unfold viewCell. cbn [snd]. apply list_elem_of_fmap. by exists m. }
  rewrite Hcc in Hs. unfold viewCell in Hs. cbn [snd] in Hs.
  apply list_elem_of_fmap in Hs as (m' & Hs & Hin'). by exists m'.
Qed.

Lemma viewCell_clean (c c' : Cell) :
  viewCell c = viewCell c' -> cleanMarks c'.2 -> cleanMarks c.2.
Proof.
  intros Hcc Hclean m Hm.
  destruct (viewCell_mem _ _ m Hcc Hm) as (m' & Hm' & Hs).
  change (type_name m) with (markSpec m).1. rewrite <- Hs. by apply Hclean.
Qed.

Section Replaced.
Context `{Host}.

Lemma viewCell_addToSet (c c' : Cell) m :
  viewCell c = viewCell c' ->
  viewCell (c.1, addToSet m c.2) = viewCell (c'.1, addToSet m c'.2).
Proof.
  intros Hcc. pose proof (viewCell_sameSet _ _ Hcc) as Hsame.
  apply (addToSet_sameSet m) in Hsame. apply sameSet_spec in Hsame.
  unfold viewCell in *. cbn [fst snd] in *. congruence.
Qed.

(** The cells of the document once a mark was added to a range. *)
Lemma addMark_cells from to m (t : Transaction) (p : nat) c2 :
  cells (tr_doc (addMark from to m t)) !! p = Some c2 ->
  exists c, cells (tr_doc t) !! p = Some c
            /\ viewCell c2
               = viewCell (if inRange from to p then (c.1, addToSet m c.2) else c).
Proof.
  intros Hp.
  assert (Hvp : view (tr_doc (addMark from to m t)) !! p = Some (viewCell c2)).
  { unfold view. by rewrite list_lookup_fmap, Hp. }
  rewrite view_addMark, list_lookup_fmap, mapRange_lookup in Hvp.
  destruct (cells (tr_doc t) !! p) as [c|]; [|done].
  exists c. split; [done|]. cbn [fmap option_fmap option_map] in Hvp.
  apply (inj Some) in Hvp. by rewrite Hvp.
Qed.

(** What the transformer appends when a range that holds more than white
    space is replaced by a slice, in a place without pending marks: the
    removed slice put back in front of the new text under a new
    pending-delete mark, and a new pending-insert mark on the new text. *)
Lemma appendTransaction_replaced (state newState : EditorState) (a b : Z)
  (slice : list Node) (next : nat) :
  inSuggestionMode (plugin state) = true ->
  0 <= a -> a < b -> b <= contentSize (doc state) ->
  0 < contentSize slice ->
  cleanMarks (marksAt (doc state) a) ->
  stripWhitespace (sliceList a b (docText (doc state))) <> [] ->
  findNonStartingPos (doc newState) a = a ->
  let meta := mergeMeta (plugin state) None in
  let reinserted :=
    addMark a b (createMark next "suggestion_delete" meta)
      (replace a a (docSlice (doc state) a b)
               (setMeta skipMeta (state_tr newState))) in
  appendTransaction [replace a b slice (state_tr state)] state newState next
  = (Some (addMark b (b + contentSize slice)
                   (createMark (S next) "suggestion_insert" meta) reinserted),
     S (S next)).
Proof.
  intros Hon H0 Hab Hb Hn Hclean Htext Hpos meta reinserted.
  set (step_ := ReplaceStep a b slice).
  assert (Ht : replace a b slice (state_tr state) = step step_ (state_tr state)).
  { unfold replace. destruct (Z.eqb_spec a b); [lia|done]. }
  rewrite Ht.
  rewrite (appendTransaction_single _ step_) by done.
  set (l0 := {| tr := state_tr newState; changed := false;
                intermediateTr := doc state; lastStep := None; fresh := next |}).
  assert (Hex : existingSuggestionMarkOf l0 step_ = None).
  { unfold existingSuggestionMarkOf, intermediateDoc.
    cbn [lastStep l0 intermediateTr step_from step_]. by apply find_clean. }
  assert (Hrem : removedSliceOf l0 step_ = docSlice (doc state) a b) by done.
  assert (Hsize : contentSize (removedSliceOf l0 step_) = b - a).
  { rewrite Hrem. by apply contentSize_docSlice. }
  assert (Hrt : removedTextOf l0 step_ = sliceList a b (docText (doc state))).
  { unfold removedTextOf. rewrite Hrem, textBetween_all. by apply docText_docSlice. }
  assert (Hadd : addedSliceSizeOf l0 step_ = contentSize slice) by done.
  assert (Hfrom : reinsertPos [step step_ (state_tr state)] 0 0 step_
                    (setMeta skipMeta (tr l0)) = a).
  { unfold reinsertPos, mapToNewDocPos. cbn [tr l0 drop imap tr_steps step state_tr app
      concat map getMap step_ step_from setMeta tr_mapping tr_doc mapping_map fold_left].
    assert (Hmap : stepMap_map [(a, b - a, contentSize slice)] a = a).
    { unfold stepMap_map. cbn [stepMap_map_at].
      destruct (Z.ltb_spec a a); [lia|].
      destruct (Z.leb_spec a (a + (b - a))); [|lia].
      destruct (Z.eqb_spec (b - a) 0); [lia|].
      rewrite Z.eqb_refl. cbn. lia. }
    by rewrite Hmap. }
  assert (Hback : isBackspaceOf newState step_ = false).
  { unfold isBackspaceOf. cbn [isReplaceStep step_ orb step_sliceSize andb].
    destruct (Z.eqb_spec (contentSize slice) 0); [lia|done]. }
  unfold processStep. rewrite Hex, Hsize, Hrt, Hadd, Hfrom, Hback.
  destruct (Z.ltb_spec 0 (b - a)) as [_|?]; [|lia].
  destruct (stripWhitespace (sliceList a b (docText (doc state)))) as [|u rest];
    [done|].
  cbn [length Nat.eqb andb].
  destruct (Z.ltb_spec 0 (contentSize slice)) as [_|?]; [|lia].
  rewrite Hrem. replace (a + (b - a)) with b by lia. rewrite Z.add_0_r.
  done.
Qed.

Lemma inRange_pendingRange (a b c : Z) name (p : nat) :
  inRange (pendingRange a b c name).1 (pendingRange a b c name).2 p
  = (String.eqb name "suggestion_delete" && inRange a b p)
    || (negb (String.eqb name "suggestion_delete")
        && String.eqb name "suggestion_insert" && inRange b c p).
Proof.
  unfold pendingRange.
  destruct (String.eqb name "suggestion_delete"); cbn [fst snd andb orb negb].
  - by rewrite orb_false_r.
  - destruct (String.eqb name "suggestion_insert"); cbn [fst snd andb]; [done|].
    unfold inRange. destruct (Z.leb_spec 0 (Z.of_nat p)), (Z.ltb_spec (Z.of_nat p) 0);
      cbn; lia || done.
Qed.

(** The editor after a range that holds more than white space was replaced
    by a slice, in a document without pending marks. *)
Lemma replaceText_region (e : Editor) (a b : Z) (slice : list Node) :
  inSuggestionMode (plugin (ed_state e)) = true ->
  0 <= a -> a < b -> b <= contentSize (doc (ed_state e)) ->
  0 < contentSize slice ->
  noSuggestions (doc (ed_state e)) -> noSuggestions slice ->
  stripWhitespace (sliceList a b (docText (doc (ed_state e)))) <> [] ->
  findNonStartingPos (tr_doc (replace a b slice (state_tr (ed_state e)))) a = a ->
  let d2 := doc (ed_state (replaceText a b slice e)) in
  let c := b + contentSize slice in
  let rg := pendingRange a b c in
  let vd := view (doc (ed_state e)) in
  validDoc d2 = true
  /\ contentSize d2 = contentSize (doc (ed_state e)) + contentSize slice
  /\ (forall (p : nat) c2 m,
        cells d2 !! p = Some c2 -> m ∈ c2.2 ->
        isSuggestionName (type_name m) = true ->
        (rg (type_name m)).1 <= Z.of_nat p < (rg (type_name m)).2)
  /\ (forall (p : nat) c2 name,
        cells d2 !! p = Some c2 -> (rg name).1 <= Z.of_nat p < (rg name).2 ->
        isSuggestionName name = true /\ exists m, m ∈ c2.2 /\ type_name m = name)
  /\ imap (fun (p : nat) (x : VCell) =>
             (x.1, filter (fun s => inRange (rg s.1).1 (rg s.1).2 p = false) x.2))
          (view d2)
     = take (Z.to_nat a) vd ++ sliceList a b vd ++ view slice ++ drop (Z.to_nat b) vd.
Proof.
  intros Hon H0 Hab Hb Hn Hno Hslice Htext Hpos d2 c rg vd.
  set (state := ed_state e) in *.
  set (newState := applyPlain (replace a b slice (state_tr state)) state).
  set (meta := mergeMeta (plugin state) None).
  set (m1 := createMark (ed_fresh e) "suggestion_delete" meta).
  set (m2 := createMark (S (ed_fresh e)) "suggestion_insert" meta).
  set (t1 := replace a a (docSlice (doc state) a b) (setMeta skipMeta (state_tr newState))).
  set (t2 := addMark a b m1 t1).
  pose proof (length_view (doc state)) as Hlenvd. fold vd in Hlenvd.
  pose proof (length_cells slice) as Hlens.
  assert (Hd2 : d2 = tr_doc (addMark b c m2 t2)).
  { pose proof (appendTransaction_replaced state newState a b slice (ed_fresh e)
                  Hon H0 Hab Hb Hn (marksAt_clean _ _ Hno) Htext Hpos) as Happ.
    cbv zeta in Happ. unfold d2, replaceText.
    exact (dispatch_appended _ _ _ _ Happ). }
  set (vboth := take (Z.to_nat a) vd ++ sliceList a b vd ++ view slice
                  ++ drop (Z.to_nat b) vd).
  assert (Hnew : view (doc newState)
                 = take (Z.to_nat a) vd ++ view slice ++ drop (Z.to_nat b) vd).
  { unfold newState, replace. destruct (Z.eqb_spec a b); [lia|]. cbn [andb].
    cbn [applyPlain doc step tr_doc state_tr]. apply view_replace. }
  assert (Hview1 : view (tr_doc t1) = vboth).
  { unfold t1, replace. rewrite contentSize_docSlice by done.
    destruct (Z.eqb_spec (b - a) 0); [lia|]. rewrite andb_false_r.
    cbn [step tr_doc setMeta state_tr]. rewrite view_replace, Hnew.
    unfold replaceCells, vboth.
    rewrite take_app_length' by (rewrite length_take; lia).
    rewrite drop_app_length' by (rewrite length_take; lia).
    unfold view at 1. rewrite cells_docSlice by done.
    unfold sliceList. by rewrite fmap_drop, fmap_take. }
  assert (Hclean1 : cleanCells (cells (tr_doc t1))).
  { apply (cleanCells_view _ (take (Z.to_nat a) (cells (doc state))
                               ++ sliceList a b (cells (doc state))
                               ++ cells slice
                               ++ drop (Z.to_nat b) (cells (doc state)))).
    - change (viewCell <$> cells (tr_doc t1)) with (view (tr_doc t1)).
      rewrite Hview1. unfold vboth, vd, view, sliceList.
      by rewrite !fmap_app, !fmap_drop, !fmap_take.
    - pose proof (noSuggestions_cells _ Hno) as Hcd.
      intros x Hx.
      apply elem_of_app in Hx as [Hx|Hx];
        [exact (cleanCells_take _ (Z.to_nat a) Hcd x Hx)|].
      apply elem_of_app in Hx as [Hx|Hx].
      { unfold sliceList in Hx.
        exact (cleanCells_drop _ (Z.to_nat a)
                 (cleanCells_take _ (Z.to_nat b) Hcd) x Hx). }
      apply elem_of_app in Hx as [Hx|Hx]; [by apply (noSuggestions_cells _ Hslice)|].
      exact (cleanCells_drop _ (Z.to_nat b) Hcd x Hx). }
  assert (Hcells : forall (p : nat) c2,
            cells d2 !! p = Some c2 ->
            exists c0, cells (tr_doc t1) !! p = Some c0 /\ cleanMarks c0.2
              /\ viewCell c2
                 = viewCell (c0.1, if inRange a b p then addToSet m1 c0.2
                                   else if inRange b c p then addToSet m2 c0.2
                                   else c0.2)).
  { intros p c2 Hp. rewrite Hd2 in Hp.
    destruct (addMark_cells _ _ _ _ _ _ Hp) as (c' & Hc' & Hv2).
    destruct (addMark_cells _ _ _ _ _ _ Hc') as (c0 & Hc0 & Hv1).
    exists c0. split; [done|]. split; [apply Hclean1; by eapply list_elem_of_lookup_2|].
    destruct (inRange a b p) eqn:Hr1.
    - assert (Hr2 : inRange b c p = false).
      { apply inRange_spec in Hr1. apply not_true_iff_false. intros Hr2%inRange_spec. lia. }
      rewrite Hr2 in Hv2. by rewrite Hv2.
    - destruct (inRange b c p).
      + rewrite Hv2. by apply viewCell_addToSet.
      + rewrite Hv2, Hv1. by destruct c0. }
  assert (Hin1 : forall ms, cleanMarks ms -> forall m', m' ∈ addToSet m1 ms ->
            isSuggestionName (type_name m') = true -> m' = m1).
  { intros ms Hms m' Hm' Hsug.
    assert (Hmem : m' ∈ suggestionMarks (addToSet m1 ms)).
    { unfold suggestionMarks. by apply list_elem_of_filter. }
    rewrite suggestionMarks_addToSet in Hmem by done.
    by apply list_elem_of_singleton in Hmem. }
  assert (Hin2 : forall ms, cleanMarks ms -> forall m', m' ∈ addToSet m2 ms ->
            isSuggestionName (type_name m') = true -> m' = m2).
  { intros ms Hms m' Hm' Hsug.
    assert (Hmem : m' ∈ suggestionMarks (addToSet m2 ms)).
    { unfold suggestionMarks. by apply list_elem_of_filter. }
    rewrite suggestionMarks_addToSet in Hmem by done.
    by apply list_elem_of_singleton in Hmem. }
  assert (Hlen2 : length (view d2) = length vboth).
  { rewrite Hd2, view_addMark, length_fmap, length_mapRange.
    change (length (cells (tr_doc t2))) with (length (viewCell <$> cells (tr_doc t2)))
      || rewrite <- (length_fmap viewCell).
    change (viewCell <$> cells (tr_doc t2)) with (view (tr_doc t2)).
    unfold t2. rewrite view_addMark, length_fmap, length_mapRange.
    rewrite <- (length_fmap viewCell).
    change (viewCell <$> cells (tr_doc t1)) with (view (tr_doc t1)). by rewrite Hview1. }
  assert (Hlenboth : Z.of_nat (length vboth) = contentSize (doc state) + contentSize slice).
  { unfold vboth, sliceList. rewrite !length_app, length_take, length_drop, length_take,
      length_drop. unfold view at 1. rewrite length_fmap. lia. }
  split.
  { rewrite Hd2. apply validDoc_addMark. unfold t2. apply validDoc_addMark.
    unfold t1, replace. rewrite contentSize_docSlice by done.
    destruct (Z.eqb_spec (b - a) 0); [lia|]. rewrite andb_false_r.
    apply validDoc_step. }
  split.
  { rewrite <- (length_view d2), Hlen2. done. }
  split; [|split].
  - intros p c2 m Hp Hm Hsug.
    destruct (Hcells p c2 Hp) as (c0 & Hc0 & Hclean0 & Hv).
    destruct (viewCell_mem _ _ m Hv Hm) as (m' & Hm' & Hs).
    assert (Hty : type_name m' = type_name m).
    { change (type_name m') with (markSpec m').1. by rewrite Hs. }
    cbn [snd] in Hm'. rewrite <- Hty in Hsug |- *.
    destruct (inRange a b p) eqn:Hr1.
    + rewrite (Hin1 _ Hclean0 m' Hm' Hsug). by apply inRange_spec in Hr1.
    + destruct (inRange b c p) eqn:Hr2.
      * rewrite (Hin2 _ Hclean0 m' Hm' Hsug). by apply inRange_spec in Hr2.
      * specialize (Hclean0 m' Hm'). by rewrite Hsug in Hclean0.
  - intros p c2 name Hp Hr.
    destruct (Hcells p c2 Hp) as (c0 & Hc0 & Hclean0 & Hv).
    apply inRange_spec in Hr. unfold rg in Hr. rewrite inRange_pendingRange in Hr.
    assert (Hhas : forall m0 ms, viewCell c2 = viewCell (c0.1, addToSet m0 ms) ->
              exists m, m ∈ c2.2 /\ type_name m = type_name m0).
    { intros m0 ms Hv0.
      assert (Hin : markSpec m0 ∈ (viewCell c2).2).
      { rewrite Hv0. unfold viewCell. cbn [snd]. apply isInSet_spec.
        apply addToSet_isInSet. }
      unfold viewCell in Hin. cbn [snd] in Hin.
      apply list_elem_of_fmap in Hin as (m & Hs & Hin). exists m. split; [done|].
      change (type_name m) with (markSpec m).1. by rewrite <- Hs. }
    apply orb_true_iff in Hr as [Hr|Hr].
    + apply andb_true_iff in Hr as [Hname%String.eqb_eq Hr1]. subst name.
      split; [done|]. rewrite Hr1 in Hv. by apply (Hhas m1 c0.2).
    + apply andb_true_iff in Hr as [Hr Hr2]. apply andb_true_iff in Hr as [_ Hname%String.eqb_eq].
      subst name. split; [done|].
      assert (Hr1 : inRange a b p = false).
      { apply inRange_spec in Hr2. apply not_true_iff_false. intros Hr1%inRange_spec. lia. }
      rewrite Hr1, Hr2 in Hv. by apply (Hhas m2 c0.2).
  - apply list_eq. intros p. rewrite list_lookup_imap.
    destruct (view d2 !! p) as [x|] eqn:Hx.
    2:{ cbn. symmetry. apply lookup_ge_None. apply lookup_ge_None in Hx. lia. }
    cbn [fmap option_fmap option_map].
    unfold view in Hx. apply list_lookup_fmap_Some in Hx as (c2 & -> & Hp).
    destruct (Hcells p c2 Hp) as (c0 & Hc0 & Hclean0 & Hv).
    assert (Hboth : vboth !! p = Some (viewCell c0)).
    { rewrite <- Hview1. unfold view. by rewrite list_lookup_fmap, Hc0. }
    fold vboth. rewrite Hboth. f_equal. rewrite Hv.
    unfold viewCell at 2. unfold viewCell at 1. cbn [fst snd].
    apply (f_equal (fun y => (c0.1, y))).
    assert (Hstrip : forall m0 (T : string),
              type_name m0 = T -> isSuggestionName T = true ->
              (forall s : string * Attrs,
                  inRange (rg s.1).1 (rg s.1).2 p = false <-> s.1 <> T) ->
              filter (fun s : string * Attrs => inRange (rg s.1).1 (rg s.1).2 p = false)
                     (markSpec <$> addToSet m0 c0.2)
              = markSpec <$> c0.2).
    { intros m0 T HT Hsug Hiff. rewrite <- (strip_addToSet m0 c0.2) by (by rewrite ?HT).
      apply filter_ext_in. intros s _. by rewrite Hiff, HT. }
    destruct (inRange a b p) eqn:Hr1.
    + assert (Hr2 : inRange b c p = false).
      { apply inRange_spec in Hr1. apply not_true_iff_false. intros Hr2%inRange_spec. lia. }
      apply (Hstrip m1 "suggestion_delete"); [done|done|].
      intros s. unfold rg. rewrite inRange_pendingRange, Hr1, Hr2, !andb_true_r, andb_false_r, orb_false_r.
      destruct (String.eqb_spec s.1 "suggestion_delete"); split; intros; done.
    + destruct (inRange b c p) eqn:Hr2.
      * apply (Hstrip m2 "suggestion_insert"); [done|done|].
        intros s. unfold rg. rewrite inRange_pendingRange, Hr1, Hr2, !andb_true_r, andb_false_r.
        cbn [orb].
        destruct (String.eqb_spec s.1 "suggestion_delete") as [Heq|Hne];
          destruct (String.eqb_spec s.1 "suggestion_insert") as [Heq'|Hne'];
          cbn; split; intros; try done; congruence.
      * apply filter_all. intros s _. unfold rg.
        by rewrite inRange_pendingRange, Hr1, Hr2, !andb_false_r.
Qed.

(** Resolving everything in such a document. *)
Lemma runAll_regions (act : Action) (e2 : Editor) (rg : string -> Z * Z)
  (name : string) (q : nat) :
  validDoc (doc (ed_state e2)) = true ->
  (forall (p : nat) c m,
      cells (doc (ed_state e2)) !! p = Some c -> m ∈ c.2 ->
      isSuggestionName (type_name m) = true ->
      (rg (type_name m)).1 <= Z.of_nat p < (rg (type_name m)).2) ->
  (forall (p : nat) c name,
      cells (doc (ed_state e2)) !! p = Some c ->
      (rg name).1 <= Z.of_nat p < (rg name).2 ->
      isSuggestionName name = true /\ exists m, m ∈ c.2 /\ type_name m = name) ->
  0 <= (rg (markToDelete act)).1 <= (rg (markToDelete act)).2 ->
  Z.of_nat q < contentSize (doc (ed_state e2)) ->
  (rg name).1 <= Z.of_nat q < (rg name).2 ->
  let result :=
    runCommand (processSuggestionsInRange act 0 (contentSize (doc (ed_state e2))))
               true e2 in
  let stripped :=
    imap (fun (p : nat) (x : VCell) =>
            (x.1, filter (fun s => inRange (rg s.1).1 (rg s.1).2 p = false) x.2))
         (view (doc (ed_state e2))) in
  result.1 = true
  /\ view (doc (ed_state result.2))
     = take (Z.to_nat (rg (markToDelete act)).1) stripped
         ++ drop (Z.to_nat (rg (markToDelete act)).2) stripped.
Proof.
  intros Hvalid Hone Hall Hdel Hq Hin result stripped.
  set (size := contentSize (doc (ed_state e2))) in *.
  set (spans := findSuggestionsInRange (ed_state e2) 0 size).
  assert (Hcov : covers name spans q = true).
  { unfold spans, size. rewrite (regions_covers _ rg) by done. by apply inRange_spec. }
  pose proof (regions_resolved act (ed_state e2) rg Hvalid Hone Hall Hdel) as Hres.
  cbv zeta in Hres. fold size spans stripped in Hres. rewrite <- Hres.
  unfold result, runCommand, processSuggestionsInRange. fold size spans.
  destruct spans as [|s rest] eqn:Hspans; [done|].
  cbn [fst snd]. split; [done|].
  rewrite dispatch_resolveSuggestions. cbn [ed_state doc].
  rewrite <- Hspans. apply resolveSuggestions_view.
  unfold spans. apply findSuggestionsInRange_within.
Qed.

Lemma imap_fst {A B} (g : nat -> A * B -> B) (v : list (A * B)) :
  (imap (fun p x => (x.1, g p x)) v).*1 = v.*1.
Proof.
  apply list_eq. intros i. rewrite !list_lookup_fmap, list_lookup_imap.
  by destruct (v !! i).
Qed.

(** X24. Round trip for replacements: in a document without pending marks,
    replacing a range that holds more than white space by new text under
    tracking keeps the old text in front of the new one; rejecting all
    suggestions then gives back the document as it was before, text and
    marks. *)
Theorem replaced_then_rejected_all (e : Editor) (a b : Z) (slice : list Node) :
  inSuggestionMode (plugin (ed_state e)) = true ->
  0 <= a -> a < b -> b <= contentSize (doc (ed_state e)) ->
  0 < contentSize slice ->
  noSuggestionsb (doc (ed_state e)) = true -> noSuggestionsb slice = true ->
  stripWhitespace (sliceList a b (docText (doc (ed_state e)))) <> [] ->
  findNonStartingPos (tr_doc (replace a b slice (state_tr (ed_state e)))) a = a ->
  let replaced := replaceText a b slice e in
  let result := runCommand rejectAllSuggestions true replaced in
  docText (doc (ed_state replaced))
  = take (Z.to_nat a) (docText (doc (ed_state e)))
      ++ sliceList a b (docText (doc (ed_state e)))
      ++ docText slice
      ++ drop (Z.to_nat b) (docText (doc (ed_state e)))
  /\ result.1 = true
  /\ view (doc (ed_state result.2)) = view (doc (ed_state e)).
Proof.
  intros Hon H0 Hab Hb Hn Hno%noSuggestionsb_spec Hslice%noSuggestionsb_spec
    Htext Hpos replaced result.
  destruct (replaceText_region e a b slice Hon H0 Hab Hb Hn Hno Hslice Htext Hpos)
    as (Hvalid & Hsize & Hone & Hall & Hstripped).
  fold replaced in Hvalid, Hsize, Hone, Hall, Hstripped.
  set (c := b + contentSize slice) in *. set (rg := pendingRange a b c) in *.
  set (vd := view (doc (ed_state e))) in *.
  pose proof (length_view (doc (ed_state e))) as Hlenvd. fold vd in Hlenvd.
  pose proof (length_view slice) as Hlens.
  assert (HlenA : length (take (Z.to_nat a) vd) = Z.to_nat a)
    by (rewrite length_take; lia).
  assert (HlenB : length (sliceList a b vd) = (Z.to_nat b - Z.to_nat a)%nat).
  { unfold sliceList. rewrite length_drop, length_take. lia. }
  split.
  { pose proof (f_equal (fmap fst) Hstripped) as Hfst.
    rewrite (imap_fst
               (fun (p : nat) (x : VCell) =>
                  filter (fun s : string * Attrs =>
                            inRange (rg s.1).1 (rg s.1).2 p = false) x.2)) in Hfst.
    rewrite docText_view, Hfst, !fmap_app. unfold sliceList.
    rewrite !fmap_drop, !fmap_take. unfold vd. by rewrite <- !docText_view. }
  destruct (runAll_regions reject replaced rg "suggestion_delete" (Z.to_nat a)
              Hvalid Hone Hall) as [Htrue Hview].
  { unfold rg. cbn. lia. }
  { lia. }
  { unfold rg. cbn. lia. }
  change (runCommand _ true replaced) with result in Htrue, Hview.
  split; [done|].
  rewrite Hview. fold rg. rewrite Hstripped.
  change (rg (markToDelete reject)) with (b, c). cbn [fst snd].
  rewrite (app_assoc (take _ vd) (sliceList a b vd)).
  rewrite take_app_length' by (rewrite length_app; lia).
  rewrite (app_assoc _ (view slice)).
  rewrite drop_app_length' by (rewrite !length_app; unfold c; lia).
  rewrite <- app_assoc. symmetry. apply split3. lia.
Qed.

(** X25. Replacing a range under tracking and then accepting all
    suggestions gives the same content as replacing it without tracking. *)
Theorem replaced_then_accepted_all (e : Editor) (a b : Z) (slice : list Node) :
  inSuggestionMode (plugin (ed_state e)) = true ->
  0 <= a -> a < b -> b <= contentSize (doc (ed_state e)) ->
  0 < contentSize slice ->
  noSuggestionsb (doc (ed_state e)) = true -> noSuggestionsb slice = true ->
  stripWhitespace (sliceList a b (docText (doc (ed_state e)))) <> [] ->
  findNonStartingPos (tr_doc (replace a b slice (state_tr (ed_state e)))) a = a ->
  let result := runCommand acceptAllSuggestions true (replaceText a b slice e) in
  result.1 = true
  /\ view (doc (ed_state result.2))
     = view (tr_doc (replace a b slice (state_tr (ed_state e)))).
Proof.
  intros Hon H0 Hab Hb Hn Hno%noSuggestionsb_spec Hslice%noSuggestionsb_spec
    Htext Hpos result.
  set (replaced := replaceText a b slice e) in *.
  destruct (replaceText_region e a b slice Hon H0 Hab Hb Hn Hno Hslice Htext Hpos)
    as (Hvalid & Hsize & Hone & Hall & Hstripped).
  fold replaced in Hvalid, Hsize, Hone, Hall, Hstripped.
  set (c := b + contentSize slice) in *. set (rg := pendingRange a b c) in *.
  set (vd := view (doc (ed_state e))) in *.
  pose proof (length_view (doc (ed_state e))) as Hlenvd. fold vd in Hlenvd.
  assert (HlenA : length (take (Z.to_nat a) vd) = Z.to_nat a)
    by (rewrite length_take; lia).
  assert (HlenB : length (sliceList a b vd) = (Z.to_nat b - Z.to_nat a)%nat).
  { unfold sliceList. rewrite length_drop, length_take. lia. }
  destruct (runAll_regions accept replaced rg "suggestion_delete" (Z.to_nat a)
              Hvalid Hone Hall) as [Htrue Hview].
  { unfold rg. cbn. lia. }
  { lia. }
  { unfold rg. cbn. lia. }
  change (runCommand _ true replaced) with result in Htrue, Hview.
  split; [done|].
  rewrite Hview. fold rg. rewrite Hstripped.
  change (rg (markToDelete accept)) with (a, b). cbn [fst snd].
  rewrite take_app_length' by done.
  replace (Z.to_nat b) with (Z.to_nat a + (Z.to_nat b - Z.to_nat a))%nat at 1 by lia.
  rewrite (parts_drop _ _ _ (Z.to_nat a) (Z.to_nat b - Z.to_nat a)) by done.
  unfold replace. destruct (Z.eqb_spec a b); [lia|]. cbn [andb step tr_doc state_tr].
  by rewrite view_replace.
Qed.

(** X26. A range of white space only, deleted or replaced under tracking, is
    not tracked at all: the transformer appends nothing, so the removed white
    space is not put back and the text that replaced it gets no
    pending-insert mark. *)
Theorem whitespace_replaced_untracked (e : Editor) (a b : Z) (slice : list Node) :
  inSuggestionMode (plugin (ed_state e)) = true ->
  0 <= a -> a < b -> b <= contentSize (doc (ed_state e)) ->
  cleanMarksb (marksAt (doc (ed_state e)) a) = true ->
  stripWhitespace (sliceList a b (docText (doc (ed_state e)))) = [] ->
  let t := replace a b slice (state_tr (ed_state e)) in
  appendTransaction [t] (ed_state e) (applyPlain t (ed_state e)) (ed_fresh e)
  = (None, ed_fresh e)
  /\ replaceText a b slice e
     = {| ed_state := applyPlain t (ed_state e); ed_fresh := ed_fresh e |}.
Proof.
  intros Hon H0 Hab Hb Hclean%cleanMarksb_spec Htext t.
  set (state := ed_state e) in *. set (newState := applyPlain t state).
  set (step_ := ReplaceStep a b slice).
  assert (Ht : t = step step_ (state_tr state)).
  { unfold t, replace. destruct (Z.eqb_spec a b); [lia|done]. }
  assert (Happ : appendTransaction [t] state newState (ed_fresh e) = (None, ed_fresh e)).
  { rewrite Ht. rewrite (appendTransaction_single _ step_) by done.
    set (l0 := {| tr := state_tr newState; changed := false;
                  intermediateTr := doc state; lastStep := None;
                  fresh := ed_fresh e |}).
    assert (Hex : existingSuggestionMarkOf l0 step_ = None).
    { unfold existingSuggestionMarkOf, intermediateDoc.
      cbn [lastStep l0 intermediateTr step_from step_]. by apply find_clean. }
    assert (Hrem : removedSliceOf l0 step_ = docSlice (doc state) a b) by done.
    assert (Hsize : contentSize (removedSliceOf l0 step_) = b - a).
    { rewrite Hrem. by apply contentSize_docSlice. }
    assert (Hrt : removedTextOf l0 step_ = sliceList a b (docText (doc state))).
    { unfold removedTextOf. rewrite Hrem, textBetween_all. by apply docText_docSlice. }
    unfold processStep. rewrite Hex, Hsize, Hrt, Htext.
    destruct (Z.ltb_spec 0 (b - a)) as [_|?]; [|lia]. done. }
  split; [done|]. unfold replaceText, dispatchTransaction. fold state t newState.
  by rewrite Happ.
Qed.

(** X27. After a tracked deletion made with the caret in or at a border of
    the deleted range (Backspace, Delete), the caret is left at the start of
    the range, in front of the text that was put back. *)
Theorem deleted_caret (e : Editor) (a b : Z) :
  inSuggestionMode (plugin (ed_state e)) = true ->
  0 <= a -> a < b -> b <= contentSize (doc (ed_state e)) ->
  cleanMarksb (marksAt (doc (ed_state e)) a) = true ->
  stripWhitespace (sliceList a b (docText (doc (ed_state e)))) <> [] ->
  findNonStartingPos (tr_doc (delete a b (state_tr (ed_state e)))) a = a ->
  a <= selection_from (ed_state e) <= b ->
  selection_from (ed_state (deleteText a b e)) = a.
Proof.
  intros Hon H0 Hab Hb Hclean%cleanMarksb_spec Htext Hpos Hsel.
  set (state := ed_state e) in *.
  set (newState := applyPlain (delete a b (state_tr state)) state).
  assert (Hcaret : selection_from newState = a).
  { unfold newState, delete, replace. destruct (Z.eqb_spec a b); [lia|].
    cbn [andb applyPlain selection_from step tr_selection state_tr tr_mapping app
           getMap contentSize fold_right mapping_map fold_left].
    rewrite Z.sub_0_r || idtac.
    rewrite stepMap_map_delete by done.
    destruct (Z.ltb_spec (selection_from state) a); [lia|].
    destruct (Z.leb_spec (selection_from state) b); [done|lia]. }
  pose proof (appendTransaction_deleted state newState a b (ed_fresh e) Hon H0 Hab Hb
                Hclean Htext Hpos) as Happ.
  cbv zeta in Happ. rewrite Hcaret, Z.eqb_refl in Happ.
  unfold deleteText, dispatchTransaction. fold state newState.
  by rewrite Happ.
Qed.

End Replaced.

(** ** What a command leaves of the spans, and running it twice *)

Lemma surviving_all_none {A} (l : list (option A)) :
  (forall o, o ∈ l -> o = None) -> surviving l = [].
Proof.
  induction l as [|o l IH]; intros Hall; [done|].
  unfold surviving in *. cbn. rewrite (Hall o) by left. cbn.
  apply IH. intros o' Ho'. apply Hall. by right.
Qed.

Lemma surviving_lookup {A} (l : list (option A)) (p : nat) (x : A) :
  l !! p = Some (Some x) ->
  surviving l !! length (surviving (take p l)) = Some x.
Proof.
  intros Hp.
  assert (Hl : surviving l
               = surviving (take p l) ++ x :: surviving (drop (S p) l)).
  { pose proof (take_drop_middle l p (Some x) Hp) as Hmid.
    rewrite <- Hmid at 1. by rewrite surviving_app. }
  rewrite Hl, lookup_app_r by lia. by rewrite Nat.sub_diag.
Qed.

Lemma markToDelete_kind (a : Action) :
  markToDelete a
  = match a with accept => "suggestion_delete" | reject => "suggestion_insert" end.
Proof. by destruct a. Qed.

Section Outcome.
Context `{Host}.

Lemma resolveSuggestions_docText (a : Action) (state : EditorState) spans :
  spansWithin (contentSize (doc state)) spans ->
  docText (tr_doc (resolveSuggestions a state spans))
  = surviving
      (imap (fun (p : nat) (u : N) =>
               if covers (markToDelete a) spans p then None else Some u)
            (docText (doc state))).
Proof.
  intros Hw. rewrite !docText_view, resolveSuggestions_view by done.
  unfold resolvedView, resolvedSlots.
  rewrite <- (surviving_imap_fst _ (fun p => covers (markToDelete a) spans p)
                (fun p (c : VCell) =>
                   (c.1, filter (fun s => covers s.1 spans p = false) c.2)))
    by done.
  done.
Qed.

Lemma processSuggestionsInRange_some {World : Type} (a : Action) (from to : Z)
  (state : EditorState) (dispatch : Transaction -> World -> World) (w : World) :
  findSuggestionsInRange state from to <> [] ->
  processSuggestionsInRange a from to state (Some dispatch) w
  = (true,
     dispatch (resolveSuggestions a state (findSuggestionsInRange state from to)) w).
Proof.
  intros Hsome. unfold processSuggestionsInRange.
  by destruct (findSuggestionsInRange state from to).
Qed.

(** C1, as the code has it.  The command, given a [dispatch], dispatches
    one transaction for the spans it found.  Of the text of the document it
    drops the positions under a span of the kind to remove (pending-delete
    when accepting, pending-insert when rejecting) and nothing else.  So a
    span of the kind to remove has its range emptied.  A span of the other
    kind keeps the code unit of each of its positions that no span of the
    kind to remove covers; such a position is found where the transaction
    maps it, without the marks of the type of the span (and of any other
    span over it), its other marks kept. *)
Theorem processSuggestionsInRange_spans {World : Type} (a : Action) (from to : Z)
  (state : EditorState) (dispatch : Transaction -> World -> World) (w : World)
  (s : MarkedRange) :
  to <= contentSize (doc state) ->
  s ∈ findSuggestionsInRange state from to ->
  let found := findSuggestionsInRange state from to in
  let removed :=
    match a with accept => "suggestion_delete" | reject => "suggestion_insert" end in
  let batch := resolveSuggestions a state found in
  let moved (p : Z) := mapping_map (tr_mapping batch) p in
  processSuggestionsInRange a from to state (Some dispatch) w
  = (true, dispatch batch w)
  /\ docText (tr_doc batch)
     = surviving
         (imap (fun (p : nat) (u : N) =>
                  if covers removed found p then None else Some u)
               (docText (doc state)))
  /\ (type_name (mr_mark s) = removed ->
      moved (mr_to s) = moved (mr_from s)
      /\ forall p : nat,
           mr_from s <= Z.of_nat p < mr_to s -> covers removed found p = true)
  /\ (type_name (mr_mark s) <> removed ->
      forall (p : nat) (c : VCell),
        mr_from s <= Z.of_nat p < mr_to s ->
        view (doc state) !! p = Some c ->
        covers removed found p = false ->
        view (tr_doc batch) !! Z.to_nat (moved (Z.of_nat p))
        = Some (c.1, filter (fun sp => covers sp.1 found p = false) c.2)
        /\ forall sp,
             sp ∈ filter (fun sp => covers sp.1 found p = false) c.2 ->
             sp.1 <> type_name (mr_mark s)).
Proof.
  intros _ Hs found removed batch moved.
  pose proof (findSuggestionsInRange_within state from to) as Hw. fold found in Hw.
  pose proof (markToDelete_kind a) as Hkind. fold removed in Hkind.
  destruct (resolveSuggestions_inv a state found Hw) as [Hview Hmap _].
  fold batch in Hview, Hmap.
  set (slots := resolvedSlots a found (view (doc state))) in *.
  assert (Hlen : length slots = length (view (doc state))).
  { unfold slots. apply length_resolvedSlots. }
  assert (Hsize : Z.of_nat (length (view (doc state))) = contentSize (doc state)).
  { apply length_view. }
  assert (Hin : 0 <= mr_from s /\ mr_from s <= mr_to s
                /\ mr_to s <= contentSize (doc state)).
  { unfold spansWithin in Hw. rewrite Forall_forall in Hw. by apply Hw. }
  assert (Hcov : forall p : nat, mr_from s <= Z.of_nat p < mr_to s ->
            covers (type_name (mr_mark s)) found p = true).
  { intros p Hp. unfold covers. apply existsb_exists. exists s.
    split; [by apply list_elem_of_In|].
    apply andb_true_iff. split; [apply String.eqb_refl|by apply inRange_spec]. }
  assert (Hmoved : forall p : nat, (p <= length slots)%nat ->
            moved (Z.of_nat p) = Z.of_nat (length (surviving (take p slots)))).
  { intros p Hp. by apply Hmap. }
  split; [|split; [|split]].
  - apply processSuggestionsInRange_some. intros Hnil.
    rewrite Hnil in Hs. by apply elem_of_nil in Hs.
  - rewrite <- Hkind. by apply resolveSuggestions_docText.
  - intros Hty. split; [|intros p Hp; rewrite <- Hty; by apply Hcov].
    rewrite <- (Z2Nat.id (mr_to s)), <- (Z2Nat.id (mr_from s)) by lia.
    rewrite !Hmoved by lia. f_equal. f_equal.
    rewrite <- (take_drop (Z.to_nat (mr_from s)) (take (Z.to_nat (mr_to s)) slots)).
    rewrite take_take, Nat.min_l by lia.
    rewrite surviving_app.
    rewrite (surviving_all_none
               (drop (Z.to_nat (mr_from s)) (take (Z.to_nat (mr_to s)) slots)));
      [by rewrite app_nil_r|].
    intros o Ho. apply list_elem_of_lookup_1 in Ho as [i Hi].
    rewrite lookup_drop in Hi.
    apply lookup_take_Some in Hi as [Hi Hlt].
    unfold slots, resolvedSlots in Hi. rewrite list_lookup_imap in Hi.
    destruct (view (doc state) !! (Z.to_nat (mr_from s) + i)%nat) as [c|]; [|done].
    cbn in Hi. apply (inj Some) in Hi. subst o. unfold resolvedCell.
    rewrite Hkind, <- Hty, Hcov; [done|lia].
  - intros Hty p c Hp Hc Hkept.
    assert (Hslot : slots !! p
                    = Some (Some (c.1, filter (fun sp => covers sp.1 found p = false) c.2))).
    { unfold slots, resolvedSlots. rewrite list_lookup_imap, Hc. cbn.
      unfold resolvedCell. by rewrite Hkind, Hkept. }
    split.
    + rewrite Hmoved by (apply lookup_lt_Some in Hc; lia).
      rewrite Nat2Z.id, Hview. by apply surviving_lookup.
    + intros sp [Hsp _]%list_elem_of_filter Heq.
      rewrite Heq, Hcov in Hsp; [done|lia].
Qed.

(** The locator finds nothing in the whole of a document exactly when no
    node wears a suggestion mark. *)
Lemma found_none_noSuggestionsb (state : EditorState) :
  validDoc (doc state) = true ->
  noSuggestionsb (doc state)
  = match findSuggestionsInRange state 0 (contentSize (doc state)) with
    | [] => true
    | _ :: _ => false
    end.
Proof.
  intros Hvalid.
  destruct (findSuggestionsInRange state 0 (contentSize (doc state)))
    as [|s spans] eqn:Hspans.
  - unfold noSuggestionsb. apply forallb_forall. intros n Hn.
    apply forallb_forall. intros m Hm.
    apply list_elem_of_In in Hn, Hm.
    destruct (list_elem_of_lookup_1 _ _ Hn) as [i Hi].
    pose proof (contentSize_lookup _ _ _ Hi) as Hbound.
    assert (Hpos : 0 < nodeSize n).
    { unfold validDoc in Hvalid. rewrite forallb_forall in Hvalid.
      apply Z.ltb_lt, Hvalid, list_elem_of_In, Hn. }
    rewrite (proj1 (locator_empty _ _ _) Hspans i n m Hi); [done|lia|lia|done].
  - destruct (noSuggestionsb (doc state)) eqn:Hno; [exfalso|done].
    apply noSuggestionsb_spec in Hno.
    rewrite findSuggestionsInRange_none in Hspans; [done|].
    intros n m Hn Hm. by apply (Hno n Hn m Hm).
Qed.

(** C7. [acceptAllSuggestions], run with the editor's dispatch: the first
    run returns [true] exactly when the document holds a pending mark, drops
    the text under the pending-delete spans and nothing else, and leaves no
    pending mark in the document; so a second run finds nothing, returns
    [false] and leaves the editor as the first run left it. *)
Theorem acceptAllSuggestions_idempotent (e : Editor) :
  validDoc (doc (ed_state e)) = true ->
  let found :=
    findSuggestionsInRange (ed_state e) 0 (contentSize (doc (ed_state e))) in
  let first := runCommand acceptAllSuggestions true e in
  let once := first.2 in
  first.1 = negb (noSuggestionsb (doc (ed_state e)))
  /\ noSuggestionsb (doc (ed_state once)) = true
  /\ docText (doc (ed_state once))
     = surviving
         (imap (fun (p : nat) (u : N) =>
                  if covers "suggestion_delete" found p then None else Some u)
               (docText (doc (ed_state e))))
  /\ runCommand acceptAllSuggestions true once = (false, once).
Proof.
  intros Hvalid found first once.
  pose proof (runAll_clears accept e Hvalid) as Hclean.
  change (runCommand _ true e) with first in Hclean.
  change first.2 with once in Hclean.
  assert (Hcleanb : noSuggestionsb (doc (ed_state once)) = true).
  { unfold noSuggestionsb. apply forallb_forall. intros n Hn.
    apply forallb_forall. intros m Hm. apply list_elem_of_In in Hn, Hm.
    by rewrite (Hclean n Hn m Hm). }
  split; [|split; [done|split]].
  - rewrite found_none_noSuggestionsb by done. fold found.
    unfold first, runCommand, acceptAllSuggestions, acceptSuggestionsInRange,
      processSuggestionsInRange. fold found. by destruct found.
  - pose proof (runAll_doc accept e) as Hdoc.
    change (runCommand _ true e) with first in Hdoc.
    change first.2 with once in Hdoc. fold found in Hdoc. rewrite Hdoc.
    destruct found as [|s0 spans] eqn:Hfound.
    + etrans; [symmetry; apply surviving_some|]. f_equal.
      apply list_eq. intros i. rewrite list_lookup_fmap, list_lookup_imap.
      by destruct (docText (doc (ed_state e)) !! i).
    + rewrite <- Hfound.
      apply (resolveSuggestions_docText accept).
      unfold found. apply findSuggestionsInRange_within.
  - unfold runCommand, acceptAllSuggestions, acceptSuggestionsInRange,
      processSuggestionsInRange.
    rewrite findSuggestionsInRange_none; [done|].
    intros n m Hn Hm. by apply (Hclean n Hn m Hm).
Qed.

End Outcome.

(** ** What the transformer does for one step of a tracked transaction *)


(** The author and the data of [meta]: those of the transaction's own
    suggestion meta where it gives them, the session's otherwise. *)
Lemma mergeMeta_username (pluginState : PluginState)
  (transactionMeta : option TransactionMeta) :
  meta_username (mergeMeta pluginState transactionMeta)
  = match transactionMeta ≫= tm_username with
    | Some u => u
    | None => username pluginState
    end.
Proof. unfold mergeMeta. cbn. by destruct (transactionMeta ≫= tm_username). Qed.

Lemma mergeMeta_data (pluginState : PluginState)
  (transactionMeta : option TransactionMeta) (k : string) :
  meta_data (mergeMeta pluginState transactionMeta) !! k
  = match (transactionMeta ≫= tm_data) ≫= (fun d => d !! k) with
    | Some v => Some v
    | None => data pluginState !! k
    end.
Proof.
  unfold mergeMeta. cbn. rewrite lookup_union.
  destruct (transactionMeta ≫= tm_data) as [d|]; cbn.
  - destruct (d !! k) as [v|]; cbn; by destruct (data pluginState !! k).
  - rewrite lookup_empty. by destruct (data pluginState !! k).
Qed.

Section Tracked.
Context `{Host}.

(** For a transaction that is tracked, [processStep] is run on every step,
    with the merged meta. *)
Lemma processTransaction_tracked (pluginState : PluginState)
  (newState : EditorState) (transactions : list Transaction) (trIndex : nat)
  (t : Transaction) (l : Loop) :
  tr_history t = false ->
  default (inSuggestionMode pluginState) (tr_meta t ≫= tm_inSuggestionMode) = true ->
  default false (tr_meta t ≫= tm_skipSuggestionOperation) = false ->
  processTransaction pluginState newState transactions trIndex t l
  = forEachIndexed
      (processStep newState (mergeMeta pluginState (tr_meta t)) transactions trIndex)
      (tr_steps t) l.
Proof.
  intros Hhist Hon Hskip. unfold processTransaction.
  rewrite Hhist. unfold mergeMeta at 1 2.
  cbn [meta_inSuggestionMode meta_skipSuggestionOperation].
  by rewrite Hon, Hskip.
Qed.


(** X13. A step of a tracked transaction that only inserts, inside the
    document it is replayed on and inside the output document, at a position
    where no pending mark is active, gets
    one new pending-insert mark over [[from, from + size)], [from] being the
    start of the step as the step has it.  The author of the mark is the one
    of the transaction's own suggestion meta if that names one, else the
    session's; for each key its data hold the value of the transaction's meta
    if that has the key, else the session's.  Every position of the range
    wears the mark in the output, whose text is not changed. *)
Theorem processStep_inserted (pluginState : PluginState) (newState : EditorState)
  (transactions : list Transaction) (trIndex stepIndex : nat)
  (t : Transaction) (step_ : Step) (l : Loop) :
  existingSuggestionMarkOf l step_ = None ->
  contentSize (removedSliceOf l step_) = 0 ->
  0 < addedSliceSizeOf l step_ ->
  0 <= step_from step_ <= step_to step_ ->
  step_to step_ <= contentSize (intermediateDoc l) ->
  step_from step_ + addedSliceSizeOf l step_ <= contentSize (tr_doc (tr l)) ->
  let meta := mergeMeta pluginState (tr_meta t) in
  let next := processStep newState meta transactions trIndex stepIndex step_ l in
  let from := step_from step_ in
  let to := from + addedSliceSizeOf l step_ in
  let insertMark := createMark (fresh l) "suggestion_insert" meta in
  (tr_history t = false ->
   default (inSuggestionMode pluginState) (tr_meta t ≫= tm_inSuggestionMode) = true ->
   default false (tr_meta t ≫= tm_skipSuggestionOperation) = false ->
   forall l0,
     processTransaction pluginState newState transactions trIndex t l0
     = forEachIndexed (processStep newState meta transactions trIndex)
                      (tr_steps t) l0)
  /\ tr next = addMark from to insertMark (setMeta skipMeta (tr l))
  /\ changed next = true
  /\ fresh next = S (fresh l)
  /\ ident insertMark = fresh l
  /\ type_name insertMark = "suggestion_insert"
  /\ attr_username (attrs insertMark)
     = match tr_meta t ≫= tm_username with
       | Some u => u
       | None => username pluginState
       end
  /\ (forall k : string,
        attr_data (attrs insertMark) !! k
        = match (tr_meta t ≫= tm_data) ≫= (fun d => d !! k) with
          | Some v => Some v
          | None => data pluginState !! k
          end)
  /\ docText (tr_doc (tr next)) = docText (tr_doc (tr l))
  /\ forall (i : nat) c,
       cells (tr_doc (tr next)) !! i = Some c ->
       from <= Z.of_nat i < to -> isInSet insertMark c.2 = true.
Proof.
  intros Hex Hrem Hadd _ _ _ meta next from to insertMark.
  assert (Hnext : tr next = addMark from to insertMark (setMeta skipMeta (tr l))
                  /\ changed next = true /\ fresh next = S (fresh l)).
  { unfold next, processStep. rewrite Hex, Hrem.
    change (0 <? 0) with false. cbn [andb].
    destruct (Z.ltb_spec 0 (addedSliceSizeOf l step_)) as [_|?]; [|lia].
    cbn [tr changed fresh]. rewrite !Z.add_0_r. done. }
  destruct Hnext as (Htr & Hch & Hfr).
  split.
  { intros Hhist Hon Hskip l0. by apply processTransaction_tracked. }
  split; [done|]. split; [done|]. split; [done|]. split; [done|]. split; [done|].
  split; [apply mergeMeta_username|]. split; [intros k; apply mergeMeta_data|].
  rewrite Htr. split; [by rewrite docText_addMark|].
  intros i c Hi Hr. by eapply addMark_covers.
Qed.

End Tracked.

(** ** The theorems at sample inputs *)

(** The samples run on the plain host. *)
#[local] Existing Instance plainHost.

Lemma findSuggestionsInRange_merged_witness :
  15 <= contentSize (doc (stateOf catDoc alice))
  /\ NoDup (mr_mark <$> findSuggestionsInRange (stateOf catDoc alice) 0 15)
  /\ forall r, r ∈ findSuggestionsInRange (stateOf catDoc alice) 0 15 ->
        exists node pos,
          (node, pos) ∈ nodesBetween (doc (stateOf catDoc alice)) 0 15
          /\ mr_mark r ∈ marks node /\ mr_to r = pos + nodeSize node.
Proof.
  assert (Hin : 15 <= contentSize (doc (stateOf catDoc alice)))
    by (vm_compute; discriminate).
  split; [exact Hin|].
  pose proof (findSuggestionsInRange_merged (stateOf catDoc alice) 0 15 Hin)
    as Hmerged.
  cbv zeta in Hmerged. destruct Hmerged as (_ & Hnodup & _ & Hspan).
  split; [exact Hnodup|].
  intros r Hr. destruct (Hspan r Hr) as (_ & Hto & _). exact Hto.
Defined.

Lemma processSuggestionsInRange_nothing_to_do_witness :
  2 <= contentSize (doc (stateOf [plain "xy"] alice))
  /\ findSuggestionsInRange (stateOf [plain "xy"] alice) 0 2 = []
  /\ processSuggestionsInRange accept 0 2 (stateOf [plain "xy"] alice)
       (Some record) []
     = (false, []).
Proof.
  assert (Hin : 2 <= contentSize (doc (stateOf [plain "xy"] alice)))
    by (vm_compute; discriminate).
  split; [exact Hin|]. split; [reflexivity|].
  pose proof (processSuggestionsInRange_nothing_to_do accept 0 2
                (stateOf [plain "xy"] alice) ([] : list Transaction) Hin)
    as Hnothing.
  cbv zeta in Hnothing. destruct Hnothing as (_ & Hfalse & _).
  apply Hfalse. reflexivity.
Defined.

Lemma processSuggestionsInRange_no_dispatch_witness :
  5 <= contentSize (doc (stateOf pendingDoc alice))
  /\ findSuggestionsInRange (stateOf pendingDoc alice) 0 5 <> []
  /\ acceptSuggestionsInRange 0 5 (stateOf pendingDoc alice) None
       ([] : list Transaction)
     = (false, [])
  /\ rejectSuggestionsInRange 0 5 (stateOf pendingDoc alice) None
       ([] : list Transaction)
     = (false, []).
Proof.
  assert (Hin : 5 <= contentSize (doc (stateOf pendingDoc alice)))
    by (vm_compute; discriminate).
  split; [exact Hin|]. split; [discriminate|].
  exact (proj2 (processSuggestionsInRange_no_dispatch 0 5
                  (stateOf pendingDoc alice) ([] : list Transaction) Hin)).
Defined.

Lemma processSuggestionsInRange_spans_witness :
  let state := stateOf pendingDoc alice in
  let inserted :=
    {| mr_mark := sampleMark 0 "suggestion_insert" "alice"; mr_from := 1; mr_to := 3 |} in
  let deleted :=
    {| mr_mark := sampleMark 1 "suggestion_delete" "alice"; mr_from := 3; mr_to := 4 |} in
  let batch := resolveSuggestions reject state (findSuggestionsInRange state 0 5) in
  5 <= contentSize (doc state)
  /\ inserted ∈ findSuggestionsInRange state 0 5
  /\ deleted ∈ findSuggestionsInRange state 0 5
  /\ processSuggestionsInRange reject 0 5 state (Some record) [] = (true, [batch])
  /\ docText (tr_doc batch) = units "xcy"
  /\ mapping_map (tr_mapping batch) 3 = mapping_map (tr_mapping batch) 1
  /\ view (tr_doc batch) !! 1%nat = Some (99%N, []).
Proof.
  intros state inserted deleted batch.
  assert (Hin : 5 <= contentSize (doc state)) by (vm_compute; discriminate).
  assert (Hi : inserted ∈ findSuggestionsInRange state 0 5).
  { change (inserted ∈ [inserted; deleted]). left. }
  assert (Hd : deleted ∈ findSuggestionsInRange state 0 5).
  { change (deleted ∈ [inserted; deleted]). right. left. }
  split; [exact Hin|]. split; [exact Hi|]. split; [exact Hd|].
  pose proof (processSuggestionsInRange_spans reject 0 5 state record []
                inserted Hin Hi) as Hins.
  pose proof (processSuggestionsInRange_spans reject 0 5 state record []
                deleted Hin Hd) as Hdel.
  cbv zeta in Hins, Hdel.
  destruct Hins as (Hrun & Htext & Hgone & _).
  destruct Hdel as (_ & _ & _ & Hkept).
  split; [exact Hrun|].
  split; [etrans; [exact Htext|reflexivity]|].
  split; [exact (proj1 (Hgone eq_refl))|].
  assert (Hother : type_name (mr_mark deleted) <> "suggestion_insert") by discriminate.
  assert (Hp : mr_from deleted <= Z.of_nat 3 < mr_to deleted)
    by (vm_compute; split; [discriminate|reflexivity]).
  exact (proj1 (Hkept Hother 3%nat
                  (99%N, [markSpec (sampleMark 1 "suggestion_delete" "alice")])
                  Hp eq_refl eq_refl)).
Defined.

Lemma processSuggestionsInRange_remapped_witness :
  let inserted :=
    {| mr_mark := sampleMark 0 "suggestion_insert" "alice"; mr_from := 1; mr_to := 3 |} in
  let deleted :=
    {| mr_mark := sampleMark 1 "suggestion_delete" "alice"; mr_from := 3; mr_to := 4 |} in
  let before := resolveSuggestions reject (stateOf pendingDoc alice) [inserted] in
  findSuggestionsInRange (stateOf pendingDoc alice) 0 5 = [inserted] ++ deleted :: []
  /\ mapping_map (getMap <$> tr_steps before) 3 = 1
  /\ mapping_map (getMap <$> tr_steps before) 4 = 2
  /\ resolveSuggestions reject (stateOf pendingDoc alice)
       ([inserted] ++ [deleted])
     = removeMark 1 2 "suggestion_delete" before.
Proof.
  intros inserted deleted before.
  split; [reflexivity|]. split; [reflexivity|]. split; [reflexivity|].
  pose proof (processSuggestionsInRange_remapped reject 0 5
                (stateOf pendingDoc alice) [inserted] deleted [] eq_refl) as Hmapped.
  cbv zeta in Hmapped. destruct Hmapped as (Hedit & _). exact Hedit.
Defined.

Lemma acceptAllSuggestions_idempotent_witness :
  let e := editorOf pendingDoc alice 2 in
  let first := runCommand acceptAllSuggestions true e in
  validDoc (doc (ed_state e)) = true
  /\ first.1 = true
  /\ noSuggestionsb (doc (ed_state first.2)) = true
  /\ docText (doc (ed_state first.2)) = units "xaby"
  /\ runCommand acceptAllSuggestions true first.2 = (false, first.2).
Proof.
  intros e first.
  assert (Hvalid : validDoc (doc (ed_state e)) = true) by reflexivity.
  split; [exact Hvalid|].
  pose proof (acceptAllSuggestions_idempotent e Hvalid) as Honce.
  cbv zeta in Honce. destruct Honce as (Hret & Hclean & Htext & Hagain).
  split; [etrans; [exact Hret|reflexivity]|].
  split; [exact Hclean|].
  split; [etrans; [exact Htext|reflexivity]|exact Hagain].
Defined.


Lemma processTransaction_forwarded_witness :
  let t := step (ReplaceStep 1 1 [plain "a"]) (state_tr (xyState offSession)) in
  let newState := applyPlain t (xyState offSession) in
  let l := startLoop (xyState offSession) newState 0 in
  (tr_history t = true
   \/ default (inSuggestionMode offSession) (tr_meta t ≫= tm_inSuggestionMode) = false
   \/ default false (tr_meta t ≫= tm_skipSuggestionOperation) = true)
  /\ processTransaction offSession newState [t] 0 t l = l
  /\ appendTransaction [t] (xyState offSession) newState 0 = (None, 0%nat).
Proof.
  intros t newState l.
  assert (Hoff : tr_history t = true
                 \/ default (inSuggestionMode offSession)
                      (tr_meta t ≫= tm_inSuggestionMode) = false
                 \/ default false (tr_meta t ≫= tm_skipSuggestionOperation) = true).
  { right. left. reflexivity. }
  split; [exact Hoff|].
  destruct (processTransaction_forwarded offSession newState [t] 0 t l Hoff)
    as [Hsame Hnone].
  split; [exact Hsame|]. apply Hnone. reflexivity.
Defined.

Lemma typed_then_rejected_witness :
  let e := editorOf catDoc alice 2 in
  let typed := typeText (units "big ") 6 e in
  let result := runCommand (rejectSuggestionsInRange 6 10) true typed in
  inSuggestionMode (plugin (ed_state e)) = true
  /\ units "big " <> []
  /\ 0 <= 6 <= contentSize (doc (ed_state e))
  /\ validDoc (doc (ed_state e)) = true
  /\ cleanMarksb (marksAt (doc (ed_state e)) 6) = true
  /\ joinsNext (doc (ed_state e)) 6 (insertMarkOf e) = false
  /\ cells (doc (ed_state e)) !! 6%nat
     = Some (99%N, [sampleMark 0 "suggestion_delete" "alice"])
  /\ docText (doc (ed_state typed)) = units "Hello big cat world"
  /\ result.1 = true
  /\ view (doc (ed_state result.2)) = view catDoc.
Proof.
  intros e typed result.
  assert (Htxt : units "big " <> []) by discriminate.
  assert (Hp : 0 <= 6 <= contentSize (doc (ed_state e)))
    by (vm_compute; split; discriminate).
  split; [reflexivity|]. split; [exact Htxt|]. split; [exact Hp|].
  split; [reflexivity|]. split; [reflexivity|]. split; [reflexivity|].
  split; [reflexivity|].
  pose proof (typed_then_rejected e (units "big ") 6 eq_refl Htxt Hp
                eq_refl eq_refl eq_refl) as Hround.
  cbv zeta in Hround. destruct Hround as (_ & _ & Htyped & Hdone & Hback & _).
  split; [etrans; [exact Htyped|reflexivity]|].
  split; [exact Hdone|exact Hback].
Defined.

(** ** Where the specification and the code part *)

(** A pending insertion that lies under a pending deletion does not keep
    its text when everything is accepted: "xaby", with "ab" a pending
    insertion, is deleted as a whole under tracking; accepting the range
    finds both spans and leaves the empty document. *)
Lemma accepted_insertion_under_deletion :
  let deleted := deleteText 0 4 (editorOf insertedMiddle alice 1) in
  let insertion :=
    {| mr_mark := sampleMark 0 "suggestion_insert" "alice"; mr_from := 1; mr_to := 3 |} in
  let result := runCommand (acceptSuggestionsInRange 0 4) true deleted in
  doc (ed_state deleted)
  = [ {| text := units "x"; marks := [sampleMark 1 "suggestion_delete" "alice"] |};
      {| text := units "ab";
         marks := [sampleMark 0 "suggestion_insert" "alice";
                   sampleMark 1 "suggestion_delete" "alice"] |};
      {| text := units "y"; marks := [sampleMark 1 "suggestion_delete" "alice"] |} ]
  /\ findSuggestionsInRange (ed_state deleted) 0 4
     = [ {| mr_mark := sampleMark 1 "suggestion_delete" "alice";
            mr_from := 0; mr_to := 4 |};
         insertion ]
  /\ type_name (mr_mark insertion) <> markToDelete accept
  /\ docText (doc (ed_state deleted)) = units "xaby"
  /\ result.1 = true
  /\ doc (ed_state result.2) = [].
Proof. vm_compute. repeat split; try reflexivity; discriminate. Qed.

(** Suggestion meta on the transaction can switch tracking on for it while
    the session flag is off: the typed "a" gets a pending-insert mark. *)
Lemma session_flag_overridden :
  let oldState := xyState offSession in
  let newState := applyPlain forcedInsert oldState in
  inSuggestionMode (plugin oldState) = false
  /\ tr_history forcedInsert = false
  /\ tr_meta forcedInsert ≫= tm_skipSuggestionOperation = None
  /\ (appendTransaction [forcedInsert] oldState newState 0).1
       ≫= (fun t => Some (tr_doc t, tr_steps t))
     = Some ([ plain "x";
               {| text := units "a";
                  marks := [sampleMark 0 "suggestion_insert" "alice"] |};
               plain "y" ],
             [ AddMarkStep 1 2 (sampleMark 0 "suggestion_insert" "alice") ])
  /\ processTransaction offSession newState [forcedInsert] 0 forcedInsert
       (startLoop oldState newState 0)
     <> startLoop oldState newState 0.
Proof. vm_compute. repeat split; try reflexivity. discriminate. Qed.


(** Text typed inside a pending insertion joins it, and rejecting the typed
    range takes the whole insertion away: of "abd", with "bd" pending, only
    "a" is left after typing "c" and rejecting it.  The same happens to text
    typed in front of a pending insertion of the same author, where no mark
    is active: of "xabcy", with "ab" pending, "xcy" is left after typing "z"
    and rejecting it. *)
Lemma typed_inside_pending_then_rejected :
  let e := editorOf insertedDoc alice 1 in
  let typed := typeText (units "c") 2 e in
  let result := runCommand (rejectSuggestionsInRange 2 3) true typed in
  let e' := editorOf pendingDoc alice 2 in
  let typed' := typeText (units "z") 1 e' in
  let result' := runCommand (rejectSuggestionsInRange 1 2) true typed' in
  inSuggestionMode (plugin (ed_state e)) = true
  /\ docText (doc (ed_state e)) = units "abd"
  /\ cleanMarksb (marksAt (doc (ed_state e)) 2) = false
  /\ docText (doc (ed_state typed)) = units "abcd"
  /\ findSuggestionsInRange (ed_state typed) 2 3
     = [ {| mr_mark := sampleMark 0 "suggestion_insert" "alice";
            mr_from := 1; mr_to := 4 |} ]
  /\ result.1 = true
  /\ docText (doc (ed_state result.2)) = units "a"
  /\ doc (ed_state result.2) <> doc (ed_state e)
  /\ docText (doc (ed_state e')) = units "xabcy"
  /\ cleanMarksb (marksAt (doc (ed_state e')) 1) = true
  /\ joinsNext (doc (ed_state e')) 1 (insertMarkOf e') = true
  /\ docText (doc (ed_state typed')) = units "xzabcy"
  /\ result'.1 = true
  /\ docText (doc (ed_state result'.2)) = units "xcy".
Proof. vm_compute. repeat split; try reflexivity. discriminate. Qed.


Lemma findSuggestionsInRange_bounds_witness :
  let r := {| mr_mark := sampleMark 0 "suggestion_delete" "alice";
              mr_from := 6; mr_to := 9 |} in
  r ∈ findSuggestionsInRange (stateOf catDoc alice) 6 8
  /\ mr_from r < 8 /\ 6 < mr_to r /\ mr_to r <= contentSize catDoc.
Proof.
  intros r.
  assert (Hr : r ∈ findSuggestionsInRange (stateOf catDoc alice) 6 8).
  { change (r ∈ [r]). left. }
  split; [exact Hr|].
  destruct (findSuggestionsInRange_bounds (stateOf catDoc alice) 6 8 r Hr)
    as (_ & _ & _ & Hsize & Hlt & Hgt).
  split; [exact Hlt|]. split; [exact Hgt|exact Hsize].
Defined.

Lemma findSuggestionsInRange_widen_witness :
  let r := {| mr_mark := sampleMark 0 "suggestion_delete" "alice";
              mr_from := 6; mr_to := 9 |} in
  0 <= 6 /\ 8 <= 15 /\ 15 <= contentSize (doc (stateOf catDoc alice))
  /\ r ∈ findSuggestionsInRange (stateOf catDoc alice) 6 8
  /\ exists r', r' ∈ findSuggestionsInRange (stateOf catDoc alice) 0 15
                /\ mr_mark r' = mr_mark r
                /\ mr_from r' <= mr_from r /\ mr_to r <= mr_to r'.
Proof.
  intros r.
  assert (Hr : r ∈ findSuggestionsInRange (stateOf catDoc alice) 6 8).
  { change (r ∈ [r]). left. }
  assert (H1 : 0 <= 6) by lia. assert (H2 : 8 <= 15) by lia.
  assert (H3 : 15 <= contentSize (doc (stateOf catDoc alice)))
    by (vm_compute; discriminate).
  split; [exact H1|]. split; [exact H2|]. split; [exact H3|]. split; [exact Hr|].
  exact (findSuggestionsInRange_widen (stateOf catDoc alice) 6 8 0 15 r H1 H2 H3 Hr).
Defined.

Lemma findSuggestionsInRange_empty_iff_witness :
  6 <= contentSize (doc (stateOf catDoc alice))
  /\ findSuggestionsInRange (stateOf catDoc alice) 0 6 = []
  /\ forall (i : nat) node m,
        doc (stateOf catDoc alice) !! i = Some node ->
        contentSize (take i (doc (stateOf catDoc alice))) < 6 ->
        0 < contentSize (take i (doc (stateOf catDoc alice))) + nodeSize node ->
        m ∈ marks node -> isSuggestionName (type_name m) = false.
Proof.
  assert (Hin : 6 <= contentSize (doc (stateOf catDoc alice)))
    by (vm_compute; discriminate).
  split; [exact Hin|]. split; [reflexivity|].
  apply (proj1 (findSuggestionsInRange_empty_iff (stateOf catDoc alice) 0 6 Hin)).
  reflexivity.
Defined.


Lemma allSuggestions_cleared_witness :
  validDoc (doc (ed_state (editorOf pendingDoc alice 0))) = true
  /\ noSuggestionsb
       (doc (ed_state (runCommand acceptAllSuggestions true
                         (editorOf pendingDoc alice 0)).2)) = true
  /\ noSuggestionsb
       (doc (ed_state (runCommand rejectAllSuggestions true
                         (editorOf pendingDoc alice 0)).2)) = true.
Proof.
  split; [reflexivity|].
  apply (allSuggestions_cleared (editorOf pendingDoc alice 0)). reflexivity.
Defined.

Lemma rejectAllSuggestions_idempotent_witness :
  validDoc (doc (ed_state (editorOf pendingDoc alice 0))) = true
  /\ runCommand rejectAllSuggestions true
       (runCommand rejectAllSuggestions true (editorOf pendingDoc alice 0)).2
     = (false, (runCommand rejectAllSuggestions true (editorOf pendingDoc alice 0)).2).
Proof.
  split; [reflexivity|].
  apply (rejectAllSuggestions_idempotent (editorOf pendingDoc alice 0)). reflexivity.
Defined.

Lemma appendTransaction_output_skipped_witness :
  exists t next',
    appendTransaction [plainDelete] (xyState alice)
      (applyPlain plainDelete (xyState alice)) 0 = (Some t, next')
    /\ tr_meta t = Some skipMeta
    /\ appendTransaction [t] (xyState alice) (applyPlain t (xyState alice)) next'
       = (None, next').
Proof.
  destruct (appendTransaction [plainDelete] (xyState alice)
              (applyPlain plainDelete (xyState alice)) 0) as [[t|] next'] eqn:Happ.
  - exists t, next'. split; [reflexivity|].
    destruct (appendTransaction_output_skipped _ _ _ _ _ _ Happ) as [Hmeta Hnone].
    split; [exact Hmeta|apply Hnone].
  - exfalso. vm_compute in Happ. discriminate.
Defined.

Lemma appendTransaction_keeps_text_witness :
  exists t next',
    appendTransaction [plainDelete] (xyState alice)
      (applyPlain plainDelete (xyState alice)) 0 = (Some t, next')
    /\ sublist (docText (doc (applyPlain plainDelete (xyState alice))))
               (docText (tr_doc t)).
Proof.
  destruct (appendTransaction [plainDelete] (xyState alice)
              (applyPlain plainDelete (xyState alice)) 0) as [[t|] next'] eqn:Happ.
  - exists t, next'. split; [reflexivity|].
    exact (appendTransaction_keeps_text _ _ _ _ _ _ Happ).
  - exfalso. vm_compute in Happ. discriminate.
Defined.

Lemma appendTransaction_no_steps_witness :
  Forall (fun t => tr_steps t = []) [state_tr (xyState alice)]
  /\ appendTransaction [state_tr (xyState alice)] (xyState alice) (xyState alice) 0
     = (None, 0%nat).
Proof.
  assert (Hall : Forall (fun t => tr_steps t = []) [state_tr (xyState alice)]).
  { apply Forall_cons. split; [reflexivity|apply Forall_nil_2]. }
  split; [exact Hall|].
  exact (appendTransaction_no_steps _ (xyState alice) (xyState alice) 0%nat Hall).
Defined.

Lemma processStep_inside_pending_witness :
  let oldState := stateOf insertedDoc alice in
  let typed := ReplaceStep 2 2 [plain "c"] in
  let newState := applyPlain (step typed (state_tr oldState)) oldState in
  let l := startLoop oldState newState 1 in
  let next := processStep newState (mergeMeta alice None)
                [step typed (state_tr oldState)] 0 0 typed l in
  existingSuggestionMarkOf l typed = Some (sampleMark 0 "suggestion_insert" "alice")
  /\ tr next = setMeta skipMeta (tr l) /\ changed next = false.
Proof.
  intros oldState typed newState l next.
  split; [reflexivity|].
  pose proof (processStep_inside_pending newState (mergeMeta alice None)
                [step typed (state_tr oldState)] 0 0 typed l
                (sampleMark 0 "suggestion_insert" "alice") eq_refl) as Hin.
  cbv zeta in Hin. destruct Hin as (_ & _ & _ & Hone).
  apply Hone. vm_compute. discriminate.
Defined.

Lemma processStep_inserted_witness :
  let oldState := xyState carol in
  let typed := ReplaceStep 1 1 [plain "a"] in
  let newState := applyPlain danInsert oldState in
  let l := startLoop oldState newState 0 in
  let next := processStep newState (mergeMeta carol (tr_meta danInsert))
                [danInsert] 0 0 typed l in
  let mark := createMark 0 "suggestion_insert" (mergeMeta carol (Some danMeta)) in
  existingSuggestionMarkOf l typed = None
  /\ contentSize (removedSliceOf l typed) = 0
  /\ 0 < addedSliceSizeOf l typed
  /\ 0 <= step_from typed <= step_to typed
  /\ step_to typed <= contentSize (intermediateDoc l)
  /\ step_from typed + addedSliceSizeOf l typed <= contentSize (tr_doc (tr l))
  /\ processTransaction carol newState [danInsert] 0 danInsert l = next
  /\ changed next = true
  /\ tr_steps (tr next) = [AddMarkStep 1 2 mark]
  /\ attr_username (attrs mark) = "dan"
  /\ attr_data (attrs mark) !! "colour" = Some "blue"
  /\ attr_data (attrs mark) !! "team" = Some "docs".
Proof.
  intros oldState typed newState l next mark.
  assert (Hadd : 0 < addedSliceSizeOf l typed) by reflexivity.
  assert (H0 : 0 <= step_from typed <= step_to typed)
    by (vm_compute; split; discriminate).
  assert (Hfit : step_to typed <= contentSize (intermediateDoc l))
    by (vm_compute; discriminate).
  assert (Hin : step_from typed + addedSliceSizeOf l typed
                <= contentSize (tr_doc (tr l))) by (vm_compute; discriminate).
  split; [reflexivity|]. split; [reflexivity|]. split; [exact Hadd|].
  split; [exact H0|]. split; [exact Hfit|]. split; [exact Hin|].
  pose proof (processStep_inserted carol newState [danInsert] 0 0 danInsert typed l
                eq_refl eq_refl Hadd H0 Hfit Hin) as Hins.
  cbv zeta in Hins.
  destruct Hins as (Hrun & Htr & Hch & _ & _ & _ & Hwho & Hdata & _).
  specialize (Hrun eq_refl eq_refl eq_refl l).
  split; [etrans; [exact Hrun|reflexivity]|].
  split; [exact Hch|].
  split; [etrans; [exact (f_equal tr_steps Htr)|reflexivity]|].
  split; [etrans; [exact Hwho|reflexivity]|].
  split; [etrans; [exact (Hdata "colour")|reflexivity]|].
  etrans; [exact (Hdata "team")|reflexivity].
Defined.

Lemma init_tracks_nothing_witness :
  let options := {| opt_inSuggestionMode := None; opt_username := Some "";
                    opt_data := None |} in
  let oldState := stateOf [plain "xy"] (init options) in
  let t := step (ReplaceStep 1 1 [plain "a"]) (state_tr oldState) in
  opt_inSuggestionMode options <> Some true
  /\ plugin oldState = init options
  /\ Forall (fun t => tr_meta t ≫= tm_inSuggestionMode = None) [t]
  /\ username (init options) = "Anonymous"
  /\ appendTransaction [t] oldState (applyPlain t oldState) 0 = (None, 0%nat).
Proof.
  intros options oldState t.
  assert (Hopt : opt_inSuggestionMode options <> Some true) by discriminate.
  assert (Hall : Forall (fun t => tr_meta t ≫= tm_inSuggestionMode = None) [t]).
  { apply Forall_cons. split; [reflexivity|apply Forall_nil_2]. }
  split; [exact Hopt|]. split; [reflexivity|]. split; [exact Hall|].
  split; [reflexivity|].
  exact (proj2 (proj2 (init_tracks_nothing options [t] oldState
                         (applyPlain t oldState) 0%nat Hopt eq_refl Hall))).
Defined.

Lemma typed_twice_one_span_witness :
  let e := editorOf [plain "xy"] alice 0 in
  let twice := typeText [98%N] 2 (typeText [97%N] 1 e) in
  inSuggestionMode (plugin (ed_state e)) = true
  /\ noSuggestionsb (doc (ed_state e)) = true
  /\ 0 <= 1 <= contentSize (doc (ed_state e))
  /\ findSuggestionsInRange (ed_state twice) 0 (contentSize (doc (ed_state twice)))
     = [{| mr_mark := insertMarkOf e; mr_from := 1; mr_to := 3 |}].
Proof.
  intros e twice.
  assert (Hp : 0 <= 1 <= contentSize (doc (ed_state e))) by (split; discriminate).
  split; [reflexivity|]. split; [reflexivity|]. split; [exact Hp|].
  exact (proj1 (typed_twice_one_span e 97%N 98%N 1 eq_refl eq_refl Hp)).
Defined.

Lemma typed_then_accepted_all_witness :
  let e := editorOf [plain "xy"] alice 0 in
  let result := runCommand acceptAllSuggestions true (typeText (units "a") 1 e) in
  inSuggestionMode (plugin (ed_state e)) = true
  /\ units "a" <> []
  /\ 0 <= 1 <= contentSize (doc (ed_state e))
  /\ noSuggestionsb (doc (ed_state e)) = true
  /\ result.1 = true
  /\ docText (doc (ed_state result.2)) = units "xay".
Proof.
  intros e result.
  assert (Htxt : units "a" <> []) by discriminate.
  assert (Hp : 0 <= 1 <= contentSize (doc (ed_state e))) by (split; discriminate).
  split; [reflexivity|]. split; [exact Htxt|]. split; [exact Hp|].
  split; [reflexivity|].
  pose proof (typed_then_accepted_all e (units "a") 1 eq_refl Htxt Hp eq_refl) as Hacc.
  cbv zeta in Hacc. destruct Hacc as (Htrue & _ & Htext).
  split; [exact Htrue|]. etrans; [exact Htext|reflexivity].
Defined.

Lemma deleted_then_rejected_all_witness :
  let e := editorOf [plain "xyz"] alice 0 in
  let deleted := deleteText 1 2 e in
  let result := runCommand rejectAllSuggestions true deleted in
  inSuggestionMode (plugin (ed_state e)) = true
  /\ 0 <= 1 /\ 1 < 2 /\ 2 <= contentSize (doc (ed_state e))
  /\ noSuggestionsb (doc (ed_state e)) = true
  /\ stripWhitespace (sliceList 1 2 (docText (doc (ed_state e)))) <> []
  /\ findNonStartingPos (tr_doc (delete 1 2 (state_tr (ed_state e)))) 1 = 1
  /\ docText (doc (ed_state deleted)) = units "xyz"
  /\ result.1 = true
  /\ view (doc (ed_state result.2)) = view (doc (ed_state e)).
Proof.
  intros e deleted result.
  assert (H0 : 0 <= 1) by discriminate.
  assert (H1 : 1 < 2) by reflexivity.
  assert (H2 : 2 <= contentSize (doc (ed_state e))) by discriminate.
  assert (Htext : stripWhitespace (sliceList 1 2 (docText (doc (ed_state e)))) <> [])
    by discriminate.
  split; [reflexivity|]. split; [exact H0|]. split; [exact H1|]. split; [exact H2|].
  split; [reflexivity|]. split; [exact Htext|]. split; [reflexivity|].
  pose proof (deleted_then_rejected_all e 1 2 eq_refl H0 H1 H2 eq_refl Htext eq_refl)
    as Hrej.
  cbv zeta in Hrej. destruct Hrej as (Hkept & _ & Htrue & Hview).
  split; [etrans; [exact Hkept|reflexivity]|]. split; [exact Htrue|exact Hview].
Defined.

Lemma deleted_then_accepted_all_witness :
  let e := editorOf [plain "xyz"] alice 0 in
  let result := runCommand acceptAllSuggestions true (deleteText 1 2 e) in
  inSuggestionMode (plugin (ed_state e)) = true
  /\ 0 <= 1 /\ 1 < 2 /\ 2 <= contentSize (doc (ed_state e))
  /\ noSuggestionsb (doc (ed_state e)) = true
  /\ stripWhitespace (sliceList 1 2 (docText (doc (ed_state e)))) <> []
  /\ findNonStartingPos (tr_doc (delete 1 2 (state_tr (ed_state e)))) 1 = 1
  /\ result.1 = true
  /\ docText (doc (ed_state result.2)) = units "xz".
Proof.
  intros e result.
  assert (H0 : 0 <= 1) by discriminate.
  assert (H1 : 1 < 2) by reflexivity.
  assert (H2 : 2 <= contentSize (doc (ed_state e))) by discriminate.
  assert (Htext : stripWhitespace (sliceList 1 2 (docText (doc (ed_state e)))) <> [])
    by discriminate.
  split; [reflexivity|]. split; [exact H0|]. split; [exact H1|]. split; [exact H2|].
  split; [reflexivity|]. split; [exact Htext|]. split; [reflexivity|].
  pose proof (deleted_then_accepted_all e 1 2 eq_refl H0 H1 H2 eq_refl Htext eq_refl)
    as Hacc.
  cbv zeta in Hacc. destruct Hacc as (Htrue & _ & Hdoc).
  split; [exact Htrue|]. etrans; [exact Hdoc|reflexivity].
Defined.

Lemma replaced_inside_pending_witness :
  let state := stateOf insertedDoc alice in
  let existing := sampleMark 0 "suggestion_insert" "alice" in
  let tr1 := step (ReplaceStep 2 2 [plain "XY"]) (state_tr state) in
  let newState := applyPlain tr1 state in
  inSuggestionMode (plugin state) = true
  /\ 0 <= 2 /\ 2 <= 2 /\ 2 <= contentSize (doc state)
  /\ find (fun m => isSuggestionName (type_name m)) (marksAt (doc state) 2)
     = Some existing
  /\ 1 < contentSize [plain "XY"]
  /\ appendTransaction [tr1] state newState 1
     = (Some (addMark 2 4 existing (setMeta skipMeta (state_tr newState))), 1%nat)
  /\ sliceList 2 4 (docText (doc newState)) = units "XY".
Proof.
  intros state existing tr1 newState.
  assert (H0 : 0 <= 2) by discriminate.
  assert (H1 : 2 <= 2) by discriminate.
  assert (H2 : 2 <= contentSize (doc state)) by discriminate.
  assert (H3 : 1 < contentSize [plain "XY"]) by reflexivity.
  split; [reflexivity|]. split; [exact H0|]. split; [exact H1|]. split; [exact H2|].
  split; [reflexivity|]. split; [exact H3|].
  pose proof (replaced_inside_pending state 2 2 [plain "XY"] existing 1%nat
                eq_refl H0 H1 H2 eq_refl H3) as Hext.
  cbv zeta in Hext. destruct Hext as (Happ & Hslice & _).
  split; [exact Happ|exact Hslice].
Defined.

Lemma replaced_then_rejected_all_witness :
  let e := editorOf [plain "xyz"] alice 0 in
  let replaced := replaceText 1 2 [plain "Q"] e in
  let result := runCommand rejectAllSuggestions true replaced in
  inSuggestionMode (plugin (ed_state e)) = true
  /\ 0 <= 1 /\ 1 < 2 /\ 2 <= contentSize (doc (ed_state e))
  /\ 0 < contentSize [plain "Q"]
  /\ noSuggestionsb (doc (ed_state e)) = true /\ noSuggestionsb [plain "Q"] = true
  /\ stripWhitespace (sliceList 1 2 (docText (doc (ed_state e)))) <> []
  /\ findNonStartingPos (tr_doc (replace 1 2 [plain "Q"] (state_tr (ed_state e)))) 1 = 1
  /\ docText (doc (ed_state replaced)) = units "xyQz"
  /\ result.1 = true
  /\ view (doc (ed_state result.2)) = view (doc (ed_state e)).
Proof.
  intros e replaced result.
  assert (H0 : 0 <= 1) by discriminate.
  assert (H1 : 1 < 2) by reflexivity.
  assert (H2 : 2 <= contentSize (doc (ed_state e))) by discriminate.
  assert (H3 : 0 < contentSize [plain "Q"]) by reflexivity.
  assert (Htext : stripWhitespace (sliceList 1 2 (docText (doc (ed_state e)))) <> [])
    by discriminate.
  split; [reflexivity|]. split; [exact H0|]. split; [exact H1|]. split; [exact H2|].
  split; [exact H3|]. split; [reflexivity|]. split; [reflexivity|].
  split; [exact Htext|]. split; [reflexivity|].
  pose proof (replaced_then_rejected_all e 1 2 [plain "Q"] eq_refl H0 H1 H2 H3
                eq_refl eq_refl Htext eq_refl) as Hrej.
  cbv zeta in Hrej. destruct Hrej as (Hkept & Htrue & Hview).
  split; [etrans; [exact Hkept|reflexivity]|]. split; [exact Htrue|exact Hview].
Defined.

Lemma replaced_then_accepted_all_witness :
  let e := editorOf [plain "xyz"] alice 0 in
  let result := runCommand acceptAllSuggestions true (replaceText 1 2 [plain "Q"] e) in
  inSuggestionMode (plugin (ed_state e)) = true
  /\ 0 <= 1 /\ 1 < 2 /\ 2 <= contentSize (doc (ed_state e))
  /\ 0 < contentSize [plain "Q"]
  /\ noSuggestionsb (doc (ed_state e)) = true /\ noSuggestionsb [plain "Q"] = true
  /\ stripWhitespace (sliceList 1 2 (docText (doc (ed_state e)))) <> []
  /\ findNonStartingPos (tr_doc (replace 1 2 [plain "Q"] (state_tr (ed_state e)))) 1 = 1
  /\ result.1 = true
  /\ view (doc (ed_state result.2)) = view [plain "xQz"].
Proof.
  intros e result.
  assert (H0 : 0 <= 1) by discriminate.
  assert (H1 : 1 < 2) by reflexivity.
  assert (H2 : 2 <= contentSize (doc (ed_state e))) by discriminate.
  assert (H3 : 0 < contentSize [plain "Q"]) by reflexivity.
  assert (Htext : stripWhitespace (sliceList 1 2 (docText (doc (ed_state e)))) <> [])
    by discriminate.
  split; [reflexivity|]. split; [exact H0|]. split; [exact H1|]. split; [exact H2|].
  split; [exact H3|]. split; [reflexivity|]. split; [reflexivity|].
  split; [exact Htext|]. split; [reflexivity|].
  pose proof (replaced_then_accepted_all e 1 2 [plain "Q"] eq_refl H0 H1 H2 H3
                eq_refl eq_refl Htext eq_refl) as Hacc.
  cbv zeta in Hacc. destruct Hacc as (Htrue & Hview).
  split; [exact Htrue|]. etrans; [exact Hview|reflexivity].
Defined.

Lemma whitespace_replaced_untracked_witness :
  let e := editorOf [plain "x y"] alice 0 in
  let t := replace 1 2 [plain "Q"] (state_tr (ed_state e)) in
  inSuggestionMode (plugin (ed_state e)) = true
  /\ 0 <= 1 /\ 1 < 2 /\ 2 <= contentSize (doc (ed_state e))
  /\ cleanMarksb (marksAt (doc (ed_state e)) 1) = true
  /\ stripWhitespace (sliceList 1 2 (docText (doc (ed_state e)))) = []
  /\ appendTransaction [t] (ed_state e) (applyPlain t (ed_state e)) 0 = (None, 0%nat)
  /\ doc (ed_state (replaceText 1 2 [plain "Q"] e)) = [plain "xQy"].
Proof.
  intros e t.
  assert (H0 : 0 <= 1) by discriminate.
  assert (H1 : 1 < 2) by reflexivity.
  assert (H2 : 2 <= contentSize (doc (ed_state e))) by discriminate.
  split; [reflexivity|]. split; [exact H0|]. split; [exact H1|]. split; [exact H2|].
  split; [reflexivity|]. split; [reflexivity|].
  pose proof (whitespace_replaced_untracked e 1 2 [plain "Q"] eq_refl H0 H1 H2
                eq_refl eq_refl) as Hws.
  cbv zeta in Hws. destruct Hws as (Happ & Hed).
  split; [exact Happ|]. rewrite Hed. reflexivity.
Defined.

Lemma deleted_caret_witness :
  let e := {| ed_state := {| doc := [plain "xyz"]; selection_from := 2;
                             plugin := alice |};
              ed_fresh := 0 |} in
  inSuggestionMode (plugin (ed_state e)) = true
  /\ 0 <= 1 /\ 1 < 2 /\ 2 <= contentSize (doc (ed_state e))
  /\ cleanMarksb (marksAt (doc (ed_state e)) 1) = true
  /\ stripWhitespace (sliceList 1 2 (docText (doc (ed_state e)))) <> []
  /\ findNonStartingPos (tr_doc (delete 1 2 (state_tr (ed_state e)))) 1 = 1
  /\ 1 <= selection_from (ed_state e) <= 2
  /\ selection_from (ed_state (deleteText 1 2 e)) = 1.
Proof.
  intros e.
  assert (H0 : 0 <= 1) by discriminate.
  assert (H1 : 1 < 2) by reflexivity.
  assert (H2 : 2 <= contentSize (doc (ed_state e))) by discriminate.
  assert (Htext : stripWhitespace (sliceList 1 2 (docText (doc (ed_state e)))) <> [])
    by discriminate.
  assert (Hsel : 1 <= selection_from (ed_state e) <= 2) by (split; discriminate).
  split; [reflexivity|]. split; [exact H0|]. split; [exact H1|]. split; [exact H2|].
  split; [reflexivity|]. split; [exact Htext|]. split; [reflexivity|].
  split; [exact Hsel|].
  exact (deleted_caret e 1 2 eq_refl H0 H1 H2 eq_refl Htext eq_refl Hsel).
Defined.
